(** * Tempo-Strike: the gameplay core, embedded and verified

    A shallow embedding of the chart generator ([generateChart] in
    [constants.ts]), of the per-frame note loop of the scene ([useFrame] in
    [components/GameScene.tsx]) and of the scoring handlers of the
    application component ([handleNoteHit], [handleNoteMiss] and [endGame]
    of [App]); and, around them, of the filter of the drawn notes
    ([visibleNotes]), of the level, speed and shop functions of [App]
    ([level], [activeNoteSpeed], [equippedItem], [buyItem],
    [handleGlobalClick]), of the catalog ([SABER_CATALOG]) and of the hand
    tracker ([mapHandToWorld] and [processResults] in
    [hooks/useMediaPipe.ts]).

    JavaScript numbers are modelled as rationals ([Q]): every comparison and
    every arithmetic operation of the source is taken over exact numbers.
    The only irrational operation of the source, [Math.sqrt] (and
    [Vector3.length], [Vector3.normalize] which use it), occurs under
    comparisons against constants, each of which is written in its squared
    form, equivalent over the reals (see [Num]), and once under
    [Math.floor], where it is the integer square root (see [Progress]). *)

From Stdlib Require Import QArith Qround Qminmax Qabs ZArith List String DecimalString Lia Lqa.
From Stdlib Require Import DecimalNat Ascii.
From Stdlib Require Import Sorted Permutation.
From stdpp Require Import base list.

Open Scope Q_scope.

(* ------------------------------------------------------------------ *)
(** ** Numbers *)

Module Num.

(** [a < b] on JavaScript numbers. *)
Definition ltb (a b : Q) : bool :=
  match a ?= b with Lt => true | _ => false end.

(** [a <= b] on JavaScript numbers. *)
Definition leb (a b : Q) : bool :=
  match a ?= b with Gt => false | _ => true end.

(** [Math.round]: the nearest integer, halves rounded towards +infinity. *)
Definition round (x : Q) : Z := Qfloor (x + 0.5).

(** [Math.floor]. *)
Definition floor (x : Q) : Z := Qfloor x.

(** [Math.abs]. *)
Definition abs (x : Q) : Q := Qabs x.

(** [Math.sqrt a < r], squared: the root is non-negative, so the test
    fails for [r <= 0] and is [a < r * r] otherwise. *)
Definition sqrt_lt (a r : Q) : bool := ltb 0 r && ltb a (r * r).

(** [Math.sqrt a > r], squared: true below zero, [r * r < a] otherwise. *)
Definition sqrt_gt (a r : Q) : bool := ltb r 0 || ltb (r * r) a.

End Num.

(* ------------------------------------------------------------------ *)
(** ** The enumerations and the note record

    The module [types] that declares them is not among the sources: the
    constructors and the fields are those the sources use. *)

Inductive Difficulty := EASY | MEDIUM | HARD | IMPOSSIBLE.

Inductive CutDirection := UP | DOWN | LEFT | RIGHT | ANY.

(** ['left' | 'right'] *)
Inductive HandType := LeftHand | RightHand.

Inductive ScoreTier :=
  PERFECT | GREAT | GOOD | OK | BAD | WRONG_SABER | GOLD_STAR.

Inductive GameStatus := LOADING | IDLE | PLAYING | GAME_OVER | VICTORY.

Record NoteData := mkNote {
  id : string;
  time : Q;
  lineIndex : nat;
  lineLayer : nat;
  type : HandType;
  cutDirection : CutDirection;
  isGoldStar : bool;        (* optional in the source: absent is falsy *)
  hit : bool;               (* optional in the source: absent is falsy *)
  missed : bool;            (* optional in the source: absent is falsy *)
  hitTime : option Q        (* optional in the source: absent is [None] *)
}.

Definition Difficulty_eqb (a b : Difficulty) : bool :=
  match a, b with
  | EASY, EASY | MEDIUM, MEDIUM | HARD, HARD | IMPOSSIBLE, IMPOSSIBLE => true
  | _, _ => false
  end.

Definition CutDirection_eqb (a b : CutDirection) : bool :=
  match a, b with
  | UP, UP | DOWN, DOWN | LEFT, LEFT | RIGHT, RIGHT | ANY, ANY => true
  | _, _ => false
  end.

(* ------------------------------------------------------------------ *)
(** ** constants.ts *)

Definition SPAWN_Z : Q := -30.
Definition PLAYER_Z : Q := 0.
Definition MISS_Z : Q := 5.

Definition LANE_WIDTH : Q := 0.8.

Definition LANE_X_POSITIONS : list Q :=
  [-1.5 * LANE_WIDTH; -0.5 * LANE_WIDTH; 0.5 * LANE_WIDTH; 1.5 * LANE_WIDTH].
Definition LAYER_Y_POSITIONS : list Q := [0.8; 1.6; 2.4].

Definition SONG_BPM : Q := 140.
Definition BEAT_TIME : Q := 60 / SONG_BPM.

(** An entry of [DIFFICULTY_CONFIG], without its label and colour scale. *)
Record DifficultyConfig := mkDiff {
  speed : Q;
  healthDrain : Q;
  healthGain : Q;
  scoreMultiplier : Q
}.

Definition DIFFICULTY_CONFIG (d : Difficulty) : DifficultyConfig :=
  match d with
  | EASY => mkDiff 10 8 6 0.8
  | MEDIUM => mkDiff 14 12 4 1.0
  | HARD => mkDiff 18 18 3 1.5
  | IMPOSSIBLE => mkDiff 38 51 0.2 8.0
  end.

Record Perks := mkPerks { scoreMult : Q; coinMult : Q; hitWindow : Q }.

(** A shop item, without the fields the gameplay does not read (name,
    price, description); [item_id] is its [id]. *)
Record ShopItem := mkItem { item_id : string; perks : Perks }.

(** The entries of [SABER_CATALOG] used below. *)
Definition saber_default : ShopItem := mkItem "default" (mkPerks 1.0 1.0 1.0).
Definition saber_celestial : ShopItem := mkItem "celestial" (mkPerks 2.0 1.5 1.1).
Definition saber_ultimate : ShopItem := mkItem "ultimate_eudin" (mkPerks 3.0 3.0 6.0).

(* ------------------------------------------------------------------ *)
(** ** constants.ts: generateChart *)

Module Chart.

(** The mutable locals of [generateChart], together with the number of
    [Math.random()] calls made so far. *)
Record Gen := mkGen {
  notes : list NoteData;
  idCount : nat;
  generatedNoteCount : nat;
  calls : nat
}.

(** A small state monad over the locals. *)
Definition M (A : Type) : Type := Gen -> A * Gen.

Definition ret {A} (a : A) : M A := fun g => (a, g).
Definition bind {A B} (m : M A) (k : A -> M B) : M B :=
  fun g => let (a, g') := m g in k a g'.

Notation "'let*' x ':=' m 'in' k" := (bind m (fun x => k))
  (at level 10, x name, m at level 100, k at level 200).
Notation "'run' m 'then' k" := (bind m (fun _ => k))
  (at level 10, m at level 100, k at level 200).

Definition exec {A} (m : M A) (g : Gen) : Gen := snd (m g).

(** [notes.push(n)] *)
Definition push (n : NoteData) : M unit :=
  fun g => (tt, mkGen (notes g ++ [n]) (idCount g) (generatedNoteCount g) (calls g)).

(** [idCount++], rendered in decimal after the given prefix. *)
Definition fresh_id (prefix : string) : M string :=
  fun g => ((prefix ++ NilZero.string_of_uint (Nat.to_uint (idCount g)))%string,
            mkGen (notes g) (S (idCount g)) (generatedNoteCount g) (calls g)).

(** [generatedNoteCount++], returning the new value. *)
Definition bump_count : M nat :=
  fun g => (S (generatedNoteCount g),
            mkGen (notes g) (idCount g) (S (generatedNoteCount g)) (calls g)).

Definition skipRate (d : Difficulty) : Q :=
  match d with EASY => 0.5 | MEDIUM => 0.2 | HARD => 0.05 | IMPOSSIBLE => 0 end.

Definition doubleRate (d : Difficulty) : Q :=
  match d with EASY => 0.05 | MEDIUM => 0.15 | HARD => 0.3 | IMPOSSIBLE => 0.9 end.

(** A fresh note object: the resolution fields are absent. *)
Definition note (i : string) (t : Q) (lane layer : nat) (h : HandType)
           (c : CutDirection) (gold : bool) : NoteData :=
  mkNote i t lane layer h c gold false false None.

Section Generator.

(** The outcomes of the successive [Math.random()] calls (numbers in
    [0, 1) in a browser; nothing below depends on it). *)
Variable rnd : nat -> Q.

(** [Math.random()] *)
Definition random : M Q :=
  fun g => (rnd (calls g),
            mkGen (notes g) (idCount g) (generatedNoteCount g) (S (calls g))).

(** [Math.floor(Math.random() * n)] *)
Definition random_index (n : Q) : M nat :=
  let* r := random in ret (Z.to_nat (Num.floor (r * n))).

(** The sub-beat burst of the IMPOSSIBLE difficulty. *)
Definition sub_beats (t : Q) : M unit :=
  let* r1 := random in
  run (if Num.ltb r1 0.9 then
         let* i := fresh_id "note-sub-1-" in
         let* lane := random_index 4 in
         let* layer := random_index 3 in
         let* h := random in
         push (note i (t + BEAT_TIME / 2) lane layer
                    (if Num.ltb 0.5 h then LeftHand else RightHand) ANY false)
       else ret tt)
  then
  let* r2 := random in
  run (if Num.ltb r2 0.4 then
         let* i := fresh_id "note-sub-2-" in
         let* lane := random_index 4 in
         let* layer := random_index 3 in
         push (note i (t + BEAT_TIME * 0.25) lane layer LeftHand ANY false)
       else ret tt)
  then
  let* r3 := random in
  if Num.ltb r3 0.4 then
    let* i := fresh_id "note-sub-3-" in
    let* lane := random_index 4 in
    let* layer := random_index 3 in
    push (note i (t + BEAT_TIME * 0.75) lane layer RightHand ANY false)
  else ret tt.

(** The gold star pushed when the counter is a multiple of 50. *)
Definition gold_star (t : Q) : M unit :=
  let* i := fresh_id "gold-" in
  let* r := random in
  push (note i t (if Num.ltb 0.5 r then 1 else 2)%nat 1 LeftHand ANY true).

(** The phase logic: what the loop body does after the gold-star check. *)
Definition phase_notes (difficulty : Difficulty) (i : nat) (t : Q) : M unit :=
  let phase := ((i / 16) mod 4)%nat in
  if Difficulty_eqb difficulty EASY then
    if negb (i mod 2 =? 0)%nat then ret tt
    else
      let isLeft := (i mod 4 =? 0)%nat in
      let* n := fresh_id "note-" in
      push (note n t (if isLeft then 1 else 2)%nat 0
                 (if isLeft then LeftHand else RightHand) ANY false)
  else if ((phase =? 0) || (phase =? 2))%nat then
    let isLeft := (i mod 2 =? 0)%nat in
    let* n := fresh_id "note-" in
    let* r := random in
    push (note n t (if isLeft then 1 else 2)%nat 0
               (if isLeft then LeftHand else RightHand)
               (if Num.ltb 0.5 r then DOWN else ANY) false)
  else if (phase =? 1)%nat then
    if Difficulty_eqb difficulty HARD || Difficulty_eqb difficulty IMPOSSIBLE
       || (i mod 2 =? 0)%nat
    then
      let isLeft := (i mod 2 =? 0)%nat in
      let* n := fresh_id "note-" in
      push (note n t (if isLeft then 0 else 3)%nat 0
                 (if isLeft then LeftHand else RightHand) DOWN false)
    else ret tt
  else
    let* r := random in
    if Num.ltb r (doubleRate difficulty) then
      let* n1 := fresh_id "note-" in
      let* n2 := fresh_id "note-" in
      run push (note n1 t 1 1 LeftHand LEFT false) then
      push (note n2 t 2 1 RightHand RIGHT false)
    else
      let* r' := random in
      let isLeft := Num.ltb 0.5 r' in
      let* n := fresh_id "note-" in
      let* r'' := random in
      push (note n t (if isLeft then 2 else 1)%nat
                 (if Num.ltb 0.6 r'' then 1 else 0)%nat
                 (if isLeft then LeftHand else RightHand) ANY false).

(** The part of the loop body that follows the skip test. *)
Definition beat_kept (difficulty : Difficulty) (i : nat) : M unit :=
  let t := inject_Z (Z.of_nat i) * BEAT_TIME in
  run (if Difficulty_eqb difficulty IMPOSSIBLE then sub_beats t else ret tt) then
  let* c := bump_count in
  if (c mod 50 =? 0)%nat then gold_star t
  else phase_notes difficulty i t.

(** One iteration of [for (let i = 4; i < 300; i += 1)]. *)
Definition beat (difficulty : Difficulty) (i : nat) : M unit :=
  let* r := random in
  if Num.ltb r (skipRate difficulty) then ret tt
  else beat_kept difficulty i.

(** The loop over the beats [from, from + 1, ...], [n] of them. *)
Definition beats (difficulty : Difficulty) (from n : nat) (g : Gen) : Gen :=
  fold_left (fun g i => exec (beat difficulty i) g) (seq from n) g.

(** The notes in the order in which they were pushed. *)
Definition emitted (difficulty : Difficulty) : list NoteData :=
  notes (beats difficulty 4 296 (mkGen [] 0 0 0)).

End Generator.

(** [Array.prototype.sort] under the comparator [(a, b) => a.time - b.time]:
    the sort is stable, so its result is that of inserting the elements
    from left to right, each behind every element that is not later. *)
Fixpoint insert (x : NoteData) (l : list NoteData) : list NoteData :=
  match l with
  | [] => [x]
  | y :: l' => if Num.ltb (time x) (time y) then x :: y :: l'
               else y :: insert x l'
  end.

Definition sort (l : list NoteData) : list NoteData :=
  fold_left (fun acc x => insert x acc) l [].

Definition generateChart (rnd : nat -> Q) (difficulty : Difficulty) : list NoteData :=
  sort (emitted rnd difficulty).

(** The order of the comparator. *)
Definition le_time (a b : NoteData) : Prop := time a <= time b.

(** A sequence of notes is non-decreasing in [time]. *)
Definition non_decreasing (l : list NoteData) : Prop :=
  forall i j a b, (i <= j)%nat -> l !! i = Some a -> l !! j = Some b -> time a <= time b.

(** The notes at the positions 50, 100, ... (counted from one) of a
    sequence are gold stars. *)
Definition every_50th_note_gold (l : list NoteData) : Prop :=
  forall k n, l !! k = Some n -> (S k mod 50)%nat = 0%nat -> isGoldStar n = true.

(** No note of a sequence is a gold star. *)
Definition no_gold (l : list NoteData) : Prop :=
  Forall (fun n => isGoldStar n = false) l.

(** A computation that pushes notes, all of them satisfying [good], and
    leaves the notes already there in place. *)
Definition pushes (good : NoteData -> Prop) {A} (m : M A) : Prop :=
  forall g, exists new, notes (snd (m g)) = notes g ++ new /\ Forall good new.

(** A note as the generator builds it: unresolved. *)
Definition fresh (n : NoteData) : Prop :=
  hit n = false /\ missed n = false /\ hitTime n = None.

(** The number of gold stars in a sequence of notes. *)
Definition gold_count (l : list NoteData) : nat :=
  length (List.filter isGoldStar l).

(** The final value of [generatedNoteCount]: the number of beats that
    passed the skip test. *)
Definition kept_beats (rnd : nat -> Q) (difficulty : Difficulty) : nat :=
  generatedNoteCount (beats rnd difficulty 4 296 (mkGen [] 0 0 0)).

(** A computation that only pushes notes that are not gold stars and
    leaves the beat counter alone. *)
Definition plain {A} (m : M A) : Prop :=
  forall g, exists new,
    notes (snd (m g)) = notes g ++ new
    /\ no_gold new
    /\ generatedNoteCount (snd (m g)) = generatedNoteCount g.

(** The first note of an EASY chart in which no beat is skipped. *)
Definition sample_easy_note : NoteData :=
  note "note-0" (inject_Z 4 * BEAT_TIME) 1 0 LeftHand ANY false.

(** The notes of a sequence that are due at [t], in order. *)
Definition due_at (t : Q) (l : list NoteData) : list NoteData :=
  List.filter (fun n => Qeq_bool (time n) t) l.

(** The decimal rendering of a counter in a template literal. *)
Definition dec (k : nat) : string := NilZero.string_of_uint (Nat.to_uint k).

(** The prefixes of the identifiers the generator builds. *)
Definition id_prefixes : list string :=
  ["note-sub-1-"; "note-sub-2-"; "note-sub-3-"; "gold-"; "note-"]%string.

(** [i * BEAT_TIME], the time of beat [i]. *)
Definition beat_time (i : nat) : Q := inject_Z (Z.of_nat i) * BEAT_TIME.

(** The random outcomes lie in [0, 1), as those of [Math.random()] do. *)
Definition unit_random (rnd : nat -> Q) : Prop :=
  forall m, 0 <= rnd m /\ rnd m < 1.

(** What a note pushed in beat [i] under the identifier number [k] looks
    like. *)
Definition pushed_at (rnd : nat -> Q) (d : Difficulty) (i k : nat) (n : NoteData)
  : Prop :=
  (exists p, id n = (p ++ dec k)%string /\ p ∈ id_prefixes)
  /\ (beat_time i <= time n /\ time n <= beat_time i + 0.75 * BEAT_TIME)
  /\ (d <> IMPOSSIBLE -> time n = beat_time i)
  /\ (isGoldStar n = true ->
      time n = beat_time i /\ (lineIndex n = 1%nat \/ lineIndex n = 2%nat)
      /\ lineLayer n = 1%nat /\ cutDirection n = ANY)
  /\ (d = EASY -> cutDirection n = ANY)
  /\ (unit_random rnd -> (lineIndex n < 4)%nat /\ (lineLayer n < 3)%nat)
  /\ fresh n.

End Chart.

(* ------------------------------------------------------------------ *)
(** ** components/GameScene.tsx: the per-frame note loop *)

Module Scene.

Record Vector3 := mkVec { x : Q; y : Q; z : Q }.

Definition dot (a b : Vector3) : Q := x a * x b + y a * y b + z a * z b.

(** [v.lengthSq()] *)
Definition lengthSq (v : Vector3) : Q := dot v v.

(** [handPositionsRef.current]: a position is [null] while the hand is
    not detected. *)
Record HandPositions := mkHands {
  left : option Vector3;
  right : option Vector3;
  leftVelocity : Vector3;
  rightVelocity : Vector3
}.

Definition DIRECTION_VECTORS (c : CutDirection) : Vector3 :=
  match c with
  | UP => mkVec 0 1 0
  | DOWN => mkVec 0 (-1) 0
  | LEFT => mkVec (-1) 0 0
  | RIGHT => mkVec 1 0 0
  | ANY => mkVec 0 0 0
  end.

(** The props of the component that the loop reads. *)
Record Props := mkProps {
  gameStatus : GameStatus;
  noteSpeed : Q;
  equippedSaber : ShopItem
}.

(** What one frame reads from the audio element and the tracker. *)
Record Frame := mkFrame {
  currentTime : Q;          (* audioRef.current.currentTime *)
  ended : bool;             (* audioRef.current.ended *)
  hands : HandPositions
}.

(** The mutable state of the component. The note objects are shared
    between [notesState] and [activeNotesRef.current]: the store holds
    the objects, in chart order, and the active list holds references
    (positions in the store). *)
Record Refs := mkRefs {
  notesState : list NoteData;
  activeNotes : list nat;
  nextNoteIndex : nat
}.

(** The callbacks invoked on the parent, in call order. *)
Inductive Event :=
| OnNoteHit (note : nat) (tier : ScoreTier)
| OnNoteMiss (note : nat)
| OnSongEnd.

(** The effect that runs when the status turns to PLAYING. *)
Definition start (chart : list NoteData) : Refs := mkRefs chart [] 0.

Definition isUltimate (s : ShopItem) : bool := String.eqb (item_id s) "ultimate_eudin".

(** [PLAYER_Z - (timeDiff * noteSpeed)] *)
Definition currentZ (P : Props) (F : Frame) (n : NoteData) : Q :=
  PLAYER_Z - ((time n - currentTime F) * noteSpeed P).

(** The spawning [while] loop, over the notes from [nextNoteIndex] on. *)
Fixpoint spawn (pending : list NoteData) (spawnAheadTime now : Q) (r : Refs) : Refs :=
  match pending with
  | [] => r
  | nextNote :: rest =>
      if Num.leb (time nextNote - spawnAheadTime) now
      then spawn rest spawnAheadTime now
             (mkRefs (notesState r) (activeNotes r ++ [nextNoteIndex r])
                     (S (nextNoteIndex r)))
      else r
  end.

Definition spawned (P : Props) (F : Frame) (r : Refs) : Refs :=
  let spawnAheadTime := Num.abs (SPAWN_Z - PLAYER_Z) / noteSpeed P in
  spawn (drop (nextNoteIndex r) (notesState r)) spawnAheadTime (currentTime F) r.

(** The squared planar distance from a hand to the slot of a note; a lane
    or layer outside the tables makes the source compute with
    [undefined], and every comparison of the result fails. *)
Definition distXY2 (h : Vector3) (n : NoteData) : option Q :=
  match LANE_X_POSITIONS !! lineIndex n, LAYER_Y_POSITIONS !! lineLayer n with
  | Some nx, Some ny => Some ((x h - nx) ^ 2 + (y h - ny) ^ 2)
  | _, _ => None
  end.

(** [pos && distXY < hitRadius] *)
Definition reaches (pos : option Vector3) (n : NoteData) (hitRadius : Q) : bool :=
  match pos with
  | Some h =>
      match distXY2 h n with
      | Some d2 => Num.sqrt_lt d2 hitRadius
      | None => false
      end
  | None => false
  end.

(** [precision > p], for [precision = Math.max(0, 1 - distXY / hitRadius)],
    a positive [hitRadius] and [0 <= p]: that is [distXY < (1 - p) * hitRadius]. *)
Definition precision_gt (d2 hitRadius p : Q) : bool :=
  Num.sqrt_lt d2 ((1 - p) * hitRadius).

(** [angleScore < c] for a negative [c]. The score is [1.0] under ANY and
    the cosine of the velocity with the required direction otherwise
    (zero for a zero velocity). *)
Definition angleScore_lt (n : NoteData) (handVel : Vector3) (c : Q) : bool :=
  if CutDirection_eqb (cutDirection n) ANY then Num.ltb 1 c
  else
    let d := dot handVel (DIRECTION_VECTORS (cutDirection n)) in
    Num.ltb d 0 && Num.ltb (c * c * lengthSq handVel) (d * d).

(** [angleScore > c] for a positive [c]. *)
Definition angleScore_gt (n : NoteData) (handVel : Vector3) (c : Q) : bool :=
  if CutDirection_eqb (cutDirection n) ANY then Num.ltb c 1
  else
    let d := dot handVel (DIRECTION_VECTORS (cutDirection n)) in
    Num.ltb 0 d && Num.ltb (c * c * lengthSq handVel) (d * d).

(** The tier of a cut by the correct hand. *)
Definition cut_tier (saber : ShopItem) (n : NoteData) (d2 hitRadius : Q)
           (handVel : Vector3) : ScoreTier :=
  if isUltimate saber then PERFECT
  else
    let speed2 := lengthSq handVel in
    if Num.sqrt_lt speed2 0.3 then BAD
    else if negb (CutDirection_eqb (cutDirection n) ANY)
            && angleScore_lt n handVel (-0.2) then BAD
    else if precision_gt d2 hitRadius 0.7 && Num.sqrt_gt speed2 2.0
            && angleScore_gt n handVel 0.5 then PERFECT
    else if precision_gt d2 hitRadius 0.5 && Num.sqrt_gt speed2 1.0 then GREAT
    else if precision_gt d2 hitRadius 0.3 then GOOD
    else OK.

(** What the loop body decides for an unresolved note. *)
Inductive Outcome := Pending | Missed | Hit (tier : ScoreTier).

Definition in_hit_window (P : Props) (F : Frame) (n : NoteData) : bool :=
  let zWindow := 2.5 * hitWindow (perks (equippedSaber P)) in
  Num.ltb (PLAYER_Z - zWindow) (currentZ P F n)
  && Num.ltb (currentZ P F n) (PLAYER_Z + zWindow * 0.5).

Definition hitRadius (P : Props) : Q := 1.2 * hitWindow (perks (equippedSaber P)).

(** The hand named by [note.type], and the other one. *)
Definition correctHandPos (F : Frame) (n : NoteData) : option Vector3 :=
  match type n with LeftHand => left (hands F) | RightHand => right (hands F) end.

Definition wrongHandPos (F : Frame) (n : NoteData) : option Vector3 :=
  match type n with LeftHand => right (hands F) | RightHand => left (hands F) end.

Definition correctHandVel (F : Frame) (n : NoteData) : Vector3 :=
  match type n with
  | LeftHand => leftVelocity (hands F)
  | RightHand => rightVelocity (hands F)
  end.

(** The decisions of the loop body, in the order of the source: the miss
    plane, the hit window, the two hands, the gold star, the correct hand
    (whose distance the source computes again for the tier), the wrong
    hand. *)
Definition resolve (P : Props) (F : Frame) (n : NoteData) : Outcome :=
  if Num.ltb MISS_Z (currentZ P F n) then Missed
  else if in_hit_window P F n then
    let hitCorrect := reaches (correctHandPos F n) n (hitRadius P) in
    let hitWrong := negb hitCorrect && reaches (wrongHandPos F n) n (hitRadius P) in
    if isGoldStar n then
      if hitCorrect || hitWrong then Hit GOLD_STAR else Pending
    else if hitCorrect then
      match correctHandPos F n with
      | Some h =>
          match distXY2 h n with
          | Some d2 =>
              Hit (cut_tier (equippedSaber P) n d2 (hitRadius P) (correctHandVel F n))
          | None => Pending
          end
      | None => Pending
      end
    else if hitWrong then Hit WRONG_SABER
    else Pending
  else Pending.

(** [note.missed = true] *)
Definition set_missed (n : NoteData) : NoteData :=
  mkNote (id n) (time n) (lineIndex n) (lineLayer n) (type n) (cutDirection n)
         (isGoldStar n) (hit n) true (hitTime n).

(** [note.hit = true; note.hitTime = time] *)
Definition set_hit (now : Q) (n : NoteData) : NoteData :=
  mkNote (id n) (time n) (lineIndex n) (lineLayer n) (type n) (cutDirection n)
         (isGoldStar n) true (missed n) (Some now).

(** The body of the collision loop at position [i] of the active list. *)
Definition visit (P : Props) (F : Frame) (i : nat) (st : Refs * list Event)
  : Refs * list Event :=
  let (r, log) := st in
  match activeNotes r !! i with
  | None => st
  | Some k =>
      match notesState r !! k with
      | None => st
      | Some n =>
          if hit n || missed n then st
          else
            match resolve P F n with
            | Missed =>
                (mkRefs (<[k := set_missed n]> (notesState r))
                        (delete i (activeNotes r)) (nextNoteIndex r),
                 log ++ [OnNoteMiss k])
            | Hit tier =>
                (mkRefs (<[k := set_hit (currentTime F) n]> (notesState r))
                        (delete i (activeNotes r)) (nextNoteIndex r),
                 log ++ [OnNoteHit k tier])
            | Pending => st
            end
      end
  end.

(** [for (let i = ...; i >= 0; i--)], entered with [i + 1 = m]. *)
Fixpoint collide (P : Props) (F : Frame) (m : nat) (st : Refs * list Event)
  : Refs * list Event :=
  match m with
  | O => st
  | S i => collide P F i (visit P F i st)
  end.

(** The game-logic part of the [useFrame] callback. *)
Definition useFrame (P : Props) (F : Frame) (r : Refs) : Refs * list Event :=
  match gameStatus P with
  | PLAYING =>
      if ended F then (r, [OnSongEnd])
      else
        let r1 := spawned P F r in
        collide P F (length (activeNotes r1)) (r1, [])
  | _ => (r, [])
  end.

(** A sequence of frames, each with the props of its render. *)
Definition frames (fs : list (Props * Frame)) (r : Refs) : Refs :=
  fold_left (fun r pf => fst (useFrame (fst pf) (snd pf) r)) fs r.

(** A note as the loop leaves it when it visits it. *)
Definition settle (P : Props) (F : Frame) (n : NoteData) : NoteData :=
  if hit n || missed n then n
  else
    match resolve P F n with
    | Missed => set_missed n
    | Hit _ => set_hit (currentTime F) n
    | Pending => n
    end.

(** The callback the loop issues when it visits the note at [k]. *)
Definition event_of (P : Props) (F : Frame) (k : nat) (n : NoteData) : option Event :=
  if hit n || missed n then None
  else
    match resolve P F n with
    | Missed => Some (OnNoteMiss k)
    | Hit tier => Some (OnNoteHit k tier)
    | Pending => None
    end.

(** The resolution fields of a note are coherent: not both [hit] and
    [missed], and [hitTime] present exactly when [hit]. *)
Definition coherent (n : NoteData) : bool :=
  negb (hit n && missed n)
  && Bool.eqb (match hitTime n with Some _ => true | None => false end) (hit n).

(** The store once the notes referenced by [visited] have been visited. *)
Definition settled_after (P : Props) (F : Frame) (visited : list nat)
           (N0 : list NoteData) (k : nat) : option NoteData :=
  (fun n0 => if bool_decide (k ∈ visited) then settle P F n0 else n0) <$> N0 !! k.

(** The state of the collision loop when the positions from [m] on of the
    active list of [r1] have been visited. *)
Definition loop_inv (P : Props) (F : Frame) (r1 : Refs) (m : nat)
           (visited : list nat) (st : Refs * list Event) : Prop :=
  take m (activeNotes (fst st)) = take m (activeNotes r1)
  /\ (forall k, notesState (fst st) !! k = settled_after P F visited (notesState r1) k)
  /\ (forall e, e ∈ snd st <->
                exists k n0, k ∈ visited /\ notesState r1 !! k = Some n0
                             /\ event_of P F k n0 = Some e)
  /\ nextNoteIndex (fst st) = nextNoteIndex r1.

(** A gold star and an ordinary left-hand note due at time 0, a hand on
    the slot of each, and the props of a running game. *)
Definition sample_gold : NoteData := Chart.note "gold-0" 0 1 1 LeftHand ANY true.
Definition sample_note : NoteData := Chart.note "note-0" 0 1 0 LeftHand DOWN false.

Definition still : Vector3 := mkVec 0 0 0.

Definition right_hand_on_gold : HandPositions :=
  mkHands None (Some (mkVec (-0.4) 1.6 0)) still still.
Definition right_hand_on_note : HandPositions :=
  mkHands None (Some (mkVec (-0.4) 0.8 0)) still still.

Definition playing (saber : ShopItem) : Props := mkProps PLAYING 10 saber.

Definition one_active (n : NoteData) : Refs := mkRefs [n] [0%nat] 1.

(** [nextNote.time - spawnAheadTime <= time]: the note is due for
    spawning. *)
Definition due (P : Props) (F : Frame) (n : NoteData) : bool :=
  Num.leb (time n - Num.abs (SPAWN_Z - PLAYER_Z) / noteSpeed P) (currentTime F).

(** The loop leaves the reference [k] on the active list: it issues no
    callback for it. *)
Definition stays (P : Props) (F : Frame) (N : list NoteData) (k : nat) : bool :=
  match N !! k with
  | Some n => match event_of P F k n with None => true | Some _ => false end
  | None => true
  end.

(** The callbacks of the loop over the active list [a]: one for each
    reference it resolves, from the last reference to the first. *)
Definition callbacks (P : Props) (F : Frame) (N : list NoteData) (a : list nat)
  : list Event :=
  omap (fun k => N !! k ≫= event_of P F k) (reverse a).

(** The note a callback is about. *)
Definition event_note (e : Event) : option nat :=
  match e with
  | OnNoteHit k _ | OnNoteMiss k => Some k
  | OnSongEnd => None
  end.

(** The life cycle of the notes, read off the state: a note is unresolved
    exactly when it is active or still pending (not yet spawned); the
    active list has no repetition and only holds spawned notes. *)
Definition lifecycle (r : Refs) : Prop :=
  NoDup (activeNotes r)
  /\ (nextNoteIndex r <= length (notesState r))%nat
  /\ (forall k, k ∈ activeNotes r -> (k < nextNoteIndex r)%nat)
  /\ (forall k n, notesState r !! k = Some n ->
                  (hit n || missed n = false <->
                   k ∈ activeNotes r \/ (nextNoteIndex r <= k)%nat)).

(** A sequence of frames, with all the callbacks issued, in order. *)
Definition session (fs : list (Props * Frame)) (st : Refs * list Event)
  : Refs * list Event :=
  fold_left (fun st pf => (fst (useFrame (fst pf) (snd pf) (fst st)),
                           snd st ++ snd (useFrame (fst pf) (snd pf) (fst st))))
            fs st.

(** The filter of [visibleNotes], at the time of the last frame. *)
Definition visible (now : Q) (n : NoteData) : bool :=
  negb (missed n)
  && (negb (hit n)
      || Num.ltb (now - match hitTime n with Some t => t | None => 0 end) 0.5)
  && Num.ltb (time n - now) 5
  && Num.ltb (-2) (time n - now).

Definition visibleNotes (now : Q) (notes : list NoteData) : list NoteData :=
  List.filter (visible now) notes.

(** A velocity of the given speed along a direction. *)
Definition along (c : CutDirection) (speed : Q) : Vector3 :=
  mkVec (x (DIRECTION_VECTORS c) * speed) (y (DIRECTION_VECTORS c) * speed)
        (z (DIRECTION_VECTORS c) * speed).

End Scene.

(* ------------------------------------------------------------------ *)
(** ** App: the scoring handlers *)

Module App.

(** The callbacks handed to [setTimeout]. *)
Inductive Callback :=
| EndGame (victory : bool)        (* () => endGame(victory) *)
| ClearDamageAnim.                (* () => setDamageAnim(false) *)

(** The gameplay state of the component, and the timers it has pending
    (delay in milliseconds, callback), oldest first. *)
Record State := mkState {
  gameStatus : GameStatus;
  score : Q;
  combo : Z;
  multiplier : Q;
  health : Q;
  coins : Q;
  xp : Q;
  damageAnim : bool;
  timeouts : list (Q * Callback)
}.

(** The state [startGame] sets up. *)
Definition started (coins0 xp0 : Q) : State :=
  mkState PLAYING 0 0 1 100 coins0 xp0 false [].

(** What a render closes over: [handleNoteHit] is rebuilt from
    [[multiplier, equippedItem, diffConfig]]. *)
Record Render := mkRender {
  rendered_multiplier : Q;
  equippedItem : ShopItem;
  diffConfig : DifficultyConfig
}.

(** The render of a state: the closure holds the multiplier of that state. *)
Definition render (item : ShopItem) (cfg : DifficultyConfig) (s : State) : Render :=
  mkRender (multiplier s) item cfg.

(** The [switch (tier)]: base points, coin reward and health bonus. *)
Definition base_rewards (cfg : DifficultyConfig) (tier : ScoreTier) : Q * Q * Q :=
  match tier with
  | PERFECT => (150, 15, healthGain cfg)
  | GREAT => (100, 10, healthGain cfg * 0.8)
  | GOOD => (70, 5, healthGain cfg * 0.5)
  | OK => (40, 2, healthGain cfg * 0.2)
  | BAD => (10, 1, 0)
  | WRONG_SABER => (0, 0, -5)
  | GOLD_STAR => (1000, 150, 50)
  end.

(** The rewards after [if (points > 0) { ... }]. *)
Definition rewards (R : Render) (tier : ScoreTier) : Q * Q * Q :=
  let '(points, coinReward, healthBonus) := base_rewards (diffConfig R) tier in
  if Num.ltb 0 points then
    let diffMult := scoreMultiplier (diffConfig R) in
    (inject_Z (Num.round (points * scoreMult (perks (equippedItem R)) * diffMult)),
     inject_Z (Num.round (coinReward * coinMult (perks (equippedItem R)) * diffMult)),
     healthBonus)
  else (points, coinReward, healthBonus).

Definition points_of (R : Render) (tier : ScoreTier) : Q := fst (fst (rewards R tier)).
Definition coinReward_of (R : Render) (tier : ScoreTier) : Q := snd (fst (rewards R tier)).
Definition healthBonus_of (R : Render) (tier : ScoreTier) : Q := snd (rewards R tier).

(** [tier !== BAD && tier !== WRONG_SABER] *)
Definition keeps_combo (tier : ScoreTier) : bool :=
  match tier with BAD | WRONG_SABER => false | _ => true end.

(** The multiplier set from the updated combo. *)
Definition multiplier_for (newCombo : Z) : Q :=
  if (30 <? newCombo)%Z then 8
  else if (20 <? newCombo)%Z then 4
  else if (10 <? newCombo)%Z then 2
  else 1.

Definition handleNoteHit (R : Render) (tier : ScoreTier) (s : State) : State :=
  let points := points_of R tier in
  let coinReward := coinReward_of R tier in
  let healthBonus := healthBonus_of R tier in
  let newCombo := (combo s + 1)%Z in
  mkState
    (gameStatus s)
    (score s + points * rendered_multiplier R)
    (if keeps_combo tier then newCombo else Z.max 0 (combo s - 5))
    (if keeps_combo tier then multiplier_for newCombo
     else Qmax 1 (multiplier s / 2))
    (Qmin 100 (Qmax 0 (health s + healthBonus)))
    (coins s + coinReward)
    (xp s + points / 5)
    (if keeps_combo tier then damageAnim s else true)
    (if keeps_combo tier then timeouts s
     else timeouts s ++ [(200, ClearDamageAnim)]).

Definition handleNoteMiss (R : Render) (s : State) : State :=
  let newHealth := health s - healthDrain (diffConfig R) in
  mkState
    (gameStatus s)
    (score s)
    0
    1
    (if Num.leb newHealth 0 then 0 else newHealth)
    (coins s)
    (xp s)
    true
    (timeouts s ++ [(200, ClearDamageAnim)]
       ++ (if Num.leb newHealth 0 then [(0, EndGame false)] else [])).

(** [endGame]: the status changes (and the audio is paused). *)
Definition endGame (victory : bool) (s : State) : State :=
  mkState (if victory then VICTORY else GAME_OVER)
          (score s) (combo s) (multiplier s) (health s) (coins s) (xp s)
          (damageAnim s) (timeouts s).

(** The callback of a timer, run when the timer fires. *)
Definition fire (c : Callback) (s : State) : State :=
  match c with
  | EndGame victory => endGame victory s
  | ClearDamageAnim =>
      mkState (gameStatus s) (score s) (combo s) (multiplier s) (health s)
              (coins s) (xp s) false (timeouts s)
  end.

(** The handler a scene callback reaches. *)
Definition handle (R : Render) (e : Scene.Event) (s : State) : State :=
  match e with
  | Scene.OnNoteHit _ tier => handleNoteHit R tier s
  | Scene.OnNoteMiss _ => handleNoteMiss R s
  | Scene.OnSongEnd => endGame true s
  end.

(** The callbacks of one frame: all of them run in the closure of the
    last render, and their state updates apply in call order. That is the
    order in which the updates of each state variable are queued, with one
    exception: the [setMultiplier] of a non-penalty hit is called from
    inside its [setCombo] updater, which runs when the queue is processed,
    after the updates that later callbacks of the frame queued directly.
    Of a frame with several callbacks, only what does not hang on the
    order of the multiplier updates is stated below (score, coins,
    experience, health, combo, the number of timers, the set of values
    the multiplier can take). *)
Definition handle_all (R : Render) (es : list Scene.Event) (s : State) : State :=
  fold_left (fun s e => handle R e s) es s.

(** The number of pending [endGame(false)] timers. *)
Definition failures_scheduled (s : State) : nat :=
  length (List.filter
            (fun t => match snd t with EndGame false => true | _ => false end)
            (timeouts s)).

(** A tier's points and coins are its base values, untouched by the
    perk and difficulty multipliers. *)
Definition unscaled (R : Render) (tier : ScoreTier) : Prop :=
  points_of R tier == fst (fst (base_rewards (diffConfig R) tier))
  /\ coinReward_of R tier == snd (fst (base_rewards (diffConfig R) tier)).

(** A tier's points and coins are exactly its base values times the perk
    and difficulty multipliers. *)
Definition scaled_exactly (R : Render) (tier : ScoreTier) : Prop :=
  points_of R tier
  == fst (fst (base_rewards (diffConfig R) tier))
     * scoreMult (perks (equippedItem R)) * scoreMultiplier (diffConfig R)
  /\ coinReward_of R tier
     == snd (fst (base_rewards (diffConfig R) tier))
        * coinMult (perks (equippedItem R)) * scoreMultiplier (diffConfig R).

(** One hit after another, each followed by a render. *)
Definition hits (item : ShopItem) (cfg : DifficultyConfig) (tiers : list ScoreTier)
           (s : State) : State :=
  fold_left (fun s tier => handleNoteHit (render item cfg s) tier s) tiers s.

(** The numeric state a session keeps: health within [0, 100], a
    non-negative combo, and a multiplier among 1, 2, 4, 8. *)
Definition in_bounds (s : State) : Prop :=
  (0 <= health s /\ health s <= 100)
  /\ (0 <= combo s)%Z
  /\ (multiplier s == 1 \/ multiplier s == 2 \/ multiplier s == 4 \/ multiplier s == 8).

(** The points of the hits among the callbacks of a frame, as the closure
    [R] awards them. *)
Definition frame_points (R : Render) (es : list Scene.Event) : Q :=
  fold_right (fun e acc => match e with
                           | Scene.OnNoteHit _ tier => points_of R tier + acc
                           | _ => acc
                           end) 0 es.

(** The callbacks of a sequence of frames: those of one frame run in the
    closure of the render of the state before that frame. *)
Definition play (item : ShopItem) (cfg : DifficultyConfig)
           (frames : list (list Scene.Event)) (s : State) : State :=
  fold_left (fun s es => handle_all (render item cfg s) es s) frames s.

End App.

(* ------------------------------------------------------------------ *)
(** ** App: level, speed, shop *)

Module Progress.

(** [Math.floor(Math.sqrt(xp / 100)) + 1], over exact numbers: the floor
    of the square root of a non-negative number is the integer square root
    of its floor. On the doubles of the source the quotient and the root
    are rounded, so that an experience a few units in the last place below
    a threshold 100 L^2 is already given level L + 1 there. The theorems
    below state of the level only what holds of the rounded computation
    as well (it does not decrease with the experience; the speed bonus it
    gives); its exact thresholds are not among them. *)
Definition level (xp : Q) : Z := Z.sqrt (Qfloor (xp / 100)) + 1.

(** [Math.min((level - 1) * 0.5, 8)] *)
Definition levelSpeedBonus (xp : Q) : Q :=
  Qmin ((inject_Z (level xp) - 1) * 0.5) 8.

Definition activeNoteSpeed (difficulty : Difficulty) (xp : Q) : Q :=
  speed (DIFFICULTY_CONFIG difficulty) + levelSpeedBonus xp.

End Progress.

Module Shop.

(** An entry of the catalog with its price. *)
Record Listing := mkListing { item : ShopItem; price : Q }.

Definition listing (i : string) (p sm cm hw : Q) : Listing :=
  mkListing (mkItem i (mkPerks sm cm hw)) p.

Definition SABER_CATALOG : list Listing :=
  [ mkListing saber_default 0;
    listing "pixel" 250 1.1 1.0 1.0;
    listing "rapier" 800 1.3 1.0 0.8;
    listing "midas" 1200 1.0 1.5 1.0;
    listing "broadsword" 1500 1.0 0.8 1.4;
    listing "viper" 1800 1.35 1.0 0.85;
    listing "skeleton" 2500 1.1 1.3 1.1;
    listing "plasma" 3000 1.25 1.25 1.1;
    listing "bass" 3500 0.9 1.1 1.3;
    listing "glitch" 4500 1.4 1.1 0.9;
    listing "katana" 5000 1.6 1.1 0.95;
    listing "crystal" 6000 1.3 1.4 1.0;
    listing "scythe" 6500 1.5 1.3 1.0;
    listing "nature" 8500 1.2 1.6 1.2;
    listing "mecha" 10000 1.5 1.0 1.3;
    listing "storm" 12000 1.6 1.2 1.0;
    listing "inferno" 14000 1.7 1.0 1.1;
    listing "void" 16500 1.8 1.1 0.9;
    mkListing saber_celestial 20000;
    listing "neon" 25000 2.2 2.0 1.2;
    mkListing saber_ultimate 99999 ].

(** [SABER_CATALOG.find(s => s.id === equippedSaberId) || SABER_CATALOG[0]] *)
Definition equippedItem (equippedSaberId : string) : ShopItem :=
  match List.find (fun l => String.eqb (item_id (item l)) equippedSaberId)
                  SABER_CATALOG with
  | Some l => item l
  | None => match SABER_CATALOG with l :: _ => item l | [] => saber_default end
  end.

(** The economy state of the component. *)
Record Wallet := mkWallet {
  coins : Q;
  inventory : list string;
  equippedSaberId : string
}.

(** [inventory.includes(id)] *)
Definition includes (inventory : list string) (i : string) : bool :=
  existsb (String.eqb i) inventory.

Definition buyItem (l : Listing) (w : Wallet) : Wallet :=
  if Num.leb (price l) (coins w) && negb (includes (inventory w) (item_id (item l)))
  then mkWallet (coins w - price l) (inventory w ++ [item_id (item l)])
                (item_id (item l))
  else if includes (inventory w) (item_id (item l))
  then mkWallet (coins w) (inventory w) (item_id (item l))
  else w.

(** The wallet is sound: no debt, no item owned twice, and the equipped
    item is owned. *)
Definition sound (w : Wallet) : Prop :=
  0 <= coins w /\ NoDup (inventory w) /\ equippedSaberId w ∈ inventory w.

(** [SABER_CATALOG.map(s => s.id)] *)
Definition allIds : list string := map (fun l => item_id (item l)) SABER_CATALOG.

(** The cheat-click state: [cheatClicksRef.current], and whether the reset
    timer held by [cheatTimeoutRef] is pending. *)
Record Cheat := mkCheat { cheatClicks : nat; resetPending : bool }.

(** [handleGlobalClick]: the pending reset is cleared and the click is
    counted; the 18th click unlocks the catalog, a click before it starts
    a one-second reset timer. *)
Definition handleGlobalClick (st : Cheat * Wallet) : Cheat * Wallet :=
  let clicks := S (cheatClicks (fst st)) in
  if (18 <=? clicks)%nat
  then (mkCheat 0 false, mkWallet 9999999 allIds (equippedSaberId (snd st)))
  else (mkCheat clicks true, snd st).

(** The reset timer fires: [cheatClicksRef.current = 0]. *)
Definition resetFires (st : Cheat * Wallet) : Cheat * Wallet :=
  if resetPending (fst st) then (mkCheat 0 false, snd st) else st.

(** [n] clicks, none of them a second after the one before. *)
Definition clicks (n : nat) (st : Cheat * Wallet) : Cheat * Wallet :=
  Nat.iter n handleGlobalClick st.

End Shop.

(* ------------------------------------------------------------------ *)
(** ** hooks/useMediaPipe.ts: from landmarks to hand positions *)

Module Tracker.

Definition mapHandToWorld (x y : Q) : Scene.Vector3 :=
  let GAME_X_RANGE := 5 in
  let GAME_Y_RANGE := 3.5 in
  let Y_OFFSET := 0.8 in
  let worldX := (0.5 - x) * GAME_X_RANGE in
  let worldY := (1.0 - y) * GAME_Y_RANGE - (GAME_Y_RANGE / 2) + Y_OFFSET in
  let worldZ := - Qmax 0 (worldY * 0.2) in
  Scene.mkVec worldX (Qmax 0.1 worldY) worldZ.

(** A landmark of a detection (its depth is not read). *)
Record Landmark := mkLandmark { lx : Q; ly : Q }.

(** A detection result: the landmarks of each hand found, if any, and the
    category names of each hand's handedness, best first. *)
Record Result := mkResult {
  landmarks : option (list (list Landmark));
  handedness : list (list string)
}.

Record State := mkState {
  left : option Scene.Vector3;
  right : option Scene.Vector3;
  lastLeft : option Scene.Vector3;
  lastRight : option Scene.Vector3;
  leftVelocity : Scene.Vector3;
  rightVelocity : Scene.Vector3;
  lastTimestamp : Q
}.

(** The initial value of [handPositionsRef]. *)
Definition initial : State :=
  mkState None None None None (Scene.mkVec 0 0 0) (Scene.mkVec 0 0 0) 0.

(** What the scene reads of the state. *)
Definition hands (s : State) : Scene.HandPositions :=
  Scene.mkHands (left s) (right s) (leftVelocity s) (rightVelocity s).

(** The loop over the detections, from index [i] on: the last left and the
    last right fingertip found. Reading a missing handedness or a missing
    landmark 8 throws: the result is [None]. *)
Fixpoint scan (lms : list (list Landmark)) (hs : list (list string)) (i : nat)
         (found : option Scene.Vector3 * option Scene.Vector3)
  : option (option Scene.Vector3 * option Scene.Vector3) :=
  match lms with
  | [] => Some found
  | hand :: rest =>
      match hs !! i with
      | Some (categoryName :: _) =>
          match hand !! 8%nat with
          | Some tip =>
              let worldPos := mapHandToWorld (lx tip) (ly tip) in
              scan rest hs (S i)
                   (if String.eqb categoryName "Right"
                    then (fst found, Some worldPos)
                    else (Some worldPos, snd found))
          | None => None
          end
      | _ => None
      end
  end.

(** [this.lerpVectors(v1, v2, alpha)] *)
Definition lerpVectors (v1 v2 : Scene.Vector3) (alpha : Q) : Scene.Vector3 :=
  Scene.mkVec (Scene.x v1 + (Scene.x v2 - Scene.x v1) * alpha)
              (Scene.y v1 + (Scene.y v2 - Scene.y v1) * alpha)
              (Scene.z v1 + (Scene.z v2 - Scene.z v1) * alpha).

(** [this.subVectors(a, b).divideScalar(s)]; the division multiplies by
    [1 / s]. *)
Definition velocity (a b : Scene.Vector3) (s : Q) : Scene.Vector3 :=
  Scene.mkVec ((Scene.x a - Scene.x b) * (1 / s))
              ((Scene.y a - Scene.y b) * (1 / s))
              ((Scene.z a - Scene.z b) * (1 / s)).

(** The update of one hand: its position, velocity and last position. *)
Definition track (found pos last : option Scene.Vector3) (vel : Scene.Vector3)
           (deltaTime : Q)
  : option Scene.Vector3 * option Scene.Vector3 * Scene.Vector3 :=
  match found with
  | Some raw =>
      match pos with
      | Some p =>
          let smoothed := lerpVectors p raw 0.6 in
          (Some smoothed, Some p,
           if Num.ltb 0.001 deltaTime then velocity smoothed p deltaTime else vel)
      | None => (Some raw, Some raw, vel)
      end
  | None => (None, last, vel)
  end.

(** [processResults], called at the clock value [now]; an exception of the
    loop is caught by the caller, after the timestamp has been stored. *)
Definition processResults (now : Q) (results : Result) (s : State) : State :=
  let deltaTime := (now - lastTimestamp s) / 1000 in
  match scan (match landmarks results with Some l => l | None => [] end)
             (handedness results) 0 (None, None) with
  | None =>
      mkState (left s) (right s) (lastLeft s) (lastRight s)
              (leftVelocity s) (rightVelocity s) now
  | Some (newLeft, newRight) =>
      let '(l, ll, lv) := track newLeft (left s) (lastLeft s) (leftVelocity s) deltaTime in
      let '(r, lr, rv) := track newRight (right s) (lastRight s) (rightVelocity s) deltaTime in
      mkState l r ll lr lv rv now
  end.

End Tracker.

(* ================================================================== *)
(** * Properties *)

(** ** Comparisons *)

Lemma ltb_lt (a b : Q) : Num.ltb a b = true <-> a < b.
Proof.
  unfold Num.ltb. rewrite Qlt_alt. destruct (a ?= b); split; congruence.
Qed.

Lemma ltb_ge (a b : Q) : Num.ltb a b = false <-> b <= a.
Proof.
  destruct (Num.ltb a b) eqn:E.
  - apply ltb_lt in E. split; [discriminate | intros H; lra].
  - split; [intros _ | reflexivity].
    destruct (Qlt_le_dec a b) as [H|H]; [|exact H].
    apply ltb_lt in H. congruence.
Qed.

Lemma leb_le (a b : Q) : Num.leb a b = true <-> a <= b.
Proof.
  unfold Num.leb. rewrite Qle_alt. destruct (a ?= b); split; congruence.
Qed.

Lemma leb_gt (a b : Q) : Num.leb a b = false <-> b < a.
Proof.
  destruct (Num.leb a b) eqn:E.
  - apply leb_le in E. split; [discriminate | intros H; lra].
  - split; [intros _ | reflexivity].
    destruct (Qlt_le_dec b a) as [H|H]; [exact H|].
    apply leb_le in H. congruence.
Qed.

(** ** The chart generator *)

Lemma insert_perm (x : NoteData) (l : list NoteData) :
  Permutation (Chart.insert x l) (x :: l).
Proof.
  induction l as [|y l IH]; simpl.
  - reflexivity.
  - destruct (Num.ltb (time x) (time y)).
    + reflexivity.
    + rewrite IH. apply perm_swap.
Qed.

Lemma insert_sorted (x : NoteData) (l : list NoteData) :
  StronglySorted Chart.le_time l -> StronglySorted Chart.le_time (Chart.insert x l).
Proof.
  induction 1 as [|y l Hs IH Hy]; simpl.
  - repeat constructor.
  - destruct (Num.ltb (time x) (time y)) eqn:E.
    + apply ltb_lt in E. constructor.
      * constructor; assumption.
      * constructor.
        -- unfold Chart.le_time. lra.
        -- eapply Forall_impl; [exact Hy|].
           unfold Chart.le_time. intros a Ha. lra.
    + apply ltb_ge in E. constructor; [exact IH|].
      eapply Permutation_Forall; [symmetry; apply insert_perm|].
      constructor; assumption.
Qed.

Lemma sort_from_perm (l acc : list NoteData) :
  Permutation (fold_left (fun acc x => Chart.insert x acc) l acc) (acc ++ l).
Proof.
  revert acc. induction l as [|x l IH]; intros acc; simpl.
  - rewrite app_nil_r. reflexivity.
  - rewrite IH, insert_perm. apply Permutation_middle.
Qed.

Lemma sort_from_sorted (l acc : list NoteData) :
  StronglySorted Chart.le_time acc ->
  StronglySorted Chart.le_time (fold_left (fun acc x => Chart.insert x acc) l acc).
Proof.
  revert acc. induction l as [|x l IH]; intros acc Hacc; simpl.
  - exact Hacc.
  - apply IH, insert_sorted, Hacc.
Qed.

Lemma sort_sorted (l : list NoteData) : StronglySorted Chart.le_time (Chart.sort l).
Proof. apply sort_from_sorted. constructor. Qed.

Lemma sort_perm (l : list NoteData) : Permutation (Chart.sort l) l.
Proof. unfold Chart.sort. rewrite sort_from_perm. reflexivity. Qed.


Lemma sorted_non_decreasing (l : list NoteData) :
  StronglySorted Chart.le_time l -> Chart.non_decreasing l.
Proof.
  induction 1 as [|x l Hs IH Hx]; intros i j a b Hij Ha Hb.
  - destruct i; discriminate.
  - destruct i as [|i], j as [|j]; simpl in *; try lia.
    + injection Ha as <-. injection Hb as <-. lra.
    + injection Ha as <-.
      rewrite Forall_forall in Hx. apply Hx.
      eapply list_elem_of_lookup_2; exact Hb.
    + apply (IH i j); [lia|assumption..].
Qed.

(** C4: for every difficulty and every outcome of the random calls, the
    sequence returned by [generateChart] is non-decreasing in [time]; it
    holds the emitted notes, reordered; and the emission order itself is
    not the time order (the sub-beat notes of the IMPOSSIBLE difficulty
    are pushed before the note of their beat). *)
Theorem generateChart_non_decreasing :
  (forall (rnd : nat -> Q) (d : Difficulty),
      Chart.non_decreasing (Chart.generateChart rnd d)
      /\ Permutation (Chart.generateChart rnd d) (Chart.emitted rnd d))
  /\ ~ Chart.non_decreasing (Chart.emitted (fun _ => 0) IMPOSSIBLE).
Proof.
  split.
  - intros rnd d. split.
    + apply sorted_non_decreasing, sort_sorted.
    + apply sort_perm.
  - intros H.
    set (l := Chart.emitted (fun _ => 0) IMPOSSIBLE) in *.
    assert (H0 : exists a, l !! 0%nat = Some a /\ Qred (time a) = (27 # 14))
      by (eexists; split; vm_compute; reflexivity).
    assert (H1 : exists b, l !! 1%nat = Some b /\ Qred (time b) = (51 # 28))
      by (eexists; split; vm_compute; reflexivity).
    destruct H0 as (a & Ha & Ta), H1 as (b & Hb & Tb).
    pose proof (H 0%nat 1%nat a b ltac:(lia) Ha Hb) as Hle.
    rewrite <- (Qred_correct (time a)), <- (Qred_correct (time b)), Ta, Tb in Hle.
    revert Hle. apply Qlt_not_le. reflexivity.
Qed.


(** ** The gold-star slots of the generator *)

Section Plain.

Variable rnd : nat -> Q.

Lemma plain_ret {A} (a : A) : Chart.plain (Chart.ret a).
Proof. intros g. exists []. rewrite app_nil_r. repeat split. constructor. Qed.

Lemma plain_random : Chart.plain (Chart.random rnd).
Proof. intros g. exists []. simpl. rewrite app_nil_r. repeat split. constructor. Qed.

Lemma plain_fresh_id (prefix : string) : Chart.plain (Chart.fresh_id prefix).
Proof. intros g. exists []. simpl. rewrite app_nil_r. repeat split. constructor. Qed.

Lemma plain_push (n : NoteData) :
  isGoldStar n = false -> Chart.plain (Chart.push n).
Proof. intros H g. exists [n]. simpl. repeat split. repeat constructor. exact H. Qed.

Lemma plain_bind {A B} (m : Chart.M A) (k : A -> Chart.M B) :
  Chart.plain m -> (forall a, Chart.plain (k a)) -> Chart.plain (Chart.bind m k).
Proof.
  intros Hm Hk g. unfold Chart.bind.
  destruct (Hm g) as (n1 & E1 & G1 & C1).
  destruct (m g) as [a g1]. simpl in *.
  destruct (Hk a g1) as (n2 & E2 & G2 & C2).
  exists (n1 ++ n2). rewrite E2, E1, C2, C1, app_assoc.
  repeat split. apply Forall_app; split; assumption.
Qed.

Lemma plain_random_index (n : Q) : Chart.plain (Chart.random_index rnd n).
Proof. apply plain_bind; [apply plain_random | intros; apply plain_ret]. Qed.

End Plain.

Ltac plain_step :=
  first
    [ apply plain_bind; [|intro]
    | apply plain_ret
    | apply plain_random
    | apply plain_random_index
    | apply plain_fresh_id
    | apply plain_push; reflexivity
    | match goal with
      | |- Chart.plain (if ?b then _ else _) => destruct b
      end ].

Lemma plain_sub_beats (rnd : nat -> Q) (t : Q) : Chart.plain (Chart.sub_beats rnd t).
Proof. unfold Chart.sub_beats. repeat plain_step. Qed.

Lemma plain_phase_notes (rnd : nat -> Q) (d : Difficulty) (i : nat) (t : Q) :
  Chart.plain (Chart.phase_notes rnd d i t).
Proof. unfold Chart.phase_notes. repeat plain_step. Qed.

Lemma gold_star_pushes (rnd : nat -> Q) (t : Q) (g : Chart.Gen) :
  exists gold,
    Chart.notes (Chart.exec (Chart.gold_star rnd t) g) = Chart.notes g ++ [gold]
    /\ isGoldStar gold = true
    /\ time gold = t
    /\ Chart.generatedNoteCount (Chart.exec (Chart.gold_star rnd t) g)
       = Chart.generatedNoteCount g.
Proof. eexists. repeat split. Qed.

(** C9, as the code has it. The source announces the gold star as
    [// Check for Gold Star (Every 50 notes)] and counts with
    [generatedNoteCount], but raises that counter once per loop iteration
    that passes the skip test, whatever the iteration then pushes (no
    note, one, two, or sub-beat notes besides). So the notes at the
    positions 50, 100, ... need not be gold stars, in emission order or in
    the returned chart. On MEDIUM with every random outcome 0.5 no beat is
    skipped; the 50th kept beat is beat 53, whose gold star is the 42nd
    note, and the 50th note is an ordinary one. *)
Lemma fiftieth_note_not_gold :
  ~ Chart.every_50th_note_gold (Chart.emitted (fun _ => 0.5) MEDIUM)
  /\ ~ Chart.every_50th_note_gold (Chart.generateChart (fun _ => 0.5) MEDIUM)
  /\ exists gold, Chart.generateChart (fun _ => 0.5) MEDIUM !! 41%nat = Some gold
                  /\ isGoldStar gold = true
                  /\ time gold == 53 * BEAT_TIME.
Proof.
  split; [|split].
  - intros H.
    assert (E : exists n, Chart.emitted (fun _ => 0.5) MEDIUM !! 49%nat = Some n
                          /\ isGoldStar n = false)
      by (eexists; split; vm_compute; reflexivity).
    destruct E as (n & Hn & Hg).
    specialize (H 49%nat n Hn eq_refl). congruence.
  - intros H.
    assert (E : exists n, Chart.generateChart (fun _ => 0.5) MEDIUM !! 49%nat = Some n
                          /\ isGoldStar n = false)
      by (eexists; split; vm_compute; reflexivity).
    destruct E as (n & Hn & Hg).
    specialize (H 49%nat n Hn eq_refl). congruence.
  - eexists. split; [vm_compute; reflexivity|]. split; reflexivity.
Qed.

(** What one iteration of the loop does to the notes and to the counter. *)
Lemma beat_effect
      (rnd : nat -> Q) (d : Difficulty) (i : nat) (g : Chart.Gen) :
  let g' := Chart.exec (Chart.beat rnd d i) g in
  if Num.ltb (rnd (Chart.calls g)) (Chart.skipRate d) then
    Chart.notes g' = Chart.notes g
    /\ Chart.generatedNoteCount g' = Chart.generatedNoteCount g
  else
    Chart.generatedNoteCount g' = S (Chart.generatedNoteCount g)
    /\ if (Chart.generatedNoteCount g' mod 50 =? 0)%nat then
         exists subs gold,
           Chart.notes g' = Chart.notes g ++ subs ++ [gold]
           /\ Chart.no_gold subs
           /\ (d <> IMPOSSIBLE -> subs = [])
           /\ isGoldStar gold = true
           /\ time gold = inject_Z (Z.of_nat i) * BEAT_TIME
       else
         exists new, Chart.notes g' = Chart.notes g ++ new /\ Chart.no_gold new.
Proof.
  intros g'.
  set (g0 := Chart.mkGen (Chart.notes g) (Chart.idCount g)
                         (Chart.generatedNoteCount g) (S (Chart.calls g))).
  assert (Eg : g' = if Num.ltb (rnd (Chart.calls g)) (Chart.skipRate d) then g0
                    else snd (Chart.beat_kept rnd d i g0)).
  { subst g'. unfold Chart.exec, Chart.beat, Chart.bind, Chart.random.
    destruct (Num.ltb (rnd (Chart.calls g)) (Chart.skipRate d)); reflexivity. }
  rewrite Eg. clear Eg g'.
  destruct (Num.ltb (rnd (Chart.calls g)) (Chart.skipRate d)); [split; reflexivity|].
  unfold Chart.beat_kept, Chart.bind.
  set (t := inject_Z (Z.of_nat i) * BEAT_TIME).
  set (burst := if Difficulty_eqb d IMPOSSIBLE then Chart.sub_beats rnd t else Chart.ret tt).
  assert (Hb : exists subs,
             Chart.notes (snd (burst g0)) = Chart.notes g ++ subs
             /\ Chart.no_gold subs
             /\ (d <> IMPOSSIBLE -> subs = [])
             /\ Chart.generatedNoteCount (snd (burst g0)) = Chart.generatedNoteCount g).
  { subst burst. destruct d; simpl;
      try (exists []; rewrite app_nil_r; repeat split; constructor).
    destruct (plain_sub_beats rnd t g0) as (subs & E & G & C).
    exists subs. repeat split; try assumption. congruence. }
  destruct Hb as (subs & E & G & Hd & C).
  destruct (burst g0) as [[] g1]. cbn [snd] in *.
  unfold Chart.bump_count. cbv beta iota zeta.
  set (g2 := Chart.mkGen _ _ (S _) _).
  destruct (S (Chart.generatedNoteCount g1) mod 50 =? 0)%nat eqn:E50.
  - destruct (gold_star_pushes rnd t g2) as (gold & E2 & G2 & T2 & C2).
    unfold Chart.exec in *. rewrite C2, E2. subst g2.
    cbn [Chart.generatedNoteCount Chart.notes].
    rewrite E50, C. split; [reflexivity|].
    exists subs, gold. rewrite E, <- app_assoc.
    repeat split; assumption.
  - destruct (plain_phase_notes rnd d i t g2) as (new & E2 & G2 & C2).
    rewrite C2, E2. subst g2. cbn [Chart.generatedNoteCount Chart.notes].
    rewrite E50, C. split; [reflexivity|].
    exists (subs ++ new). rewrite E, <- app_assoc.
    split; [reflexivity|]. apply Forall_app; split; assumption.
Qed.

Lemma gold_count_app (a b : list NoteData) :
  Chart.gold_count (a ++ b) = (Chart.gold_count a + Chart.gold_count b)%nat.
Proof. unfold Chart.gold_count. rewrite List.filter_app, length_app. reflexivity. Qed.

Lemma gold_count_no_gold (l : list NoteData) :
  Chart.no_gold l -> Chart.gold_count l = 0%nat.
Proof.
  unfold Chart.gold_count. induction 1 as [|n l Hn _ IH]; simpl; [reflexivity|].
  rewrite Hn. exact IH.
Qed.

Lemma gold_count_insert (x : NoteData) (l : list NoteData) :
  Chart.gold_count (Chart.insert x l) = Chart.gold_count (x :: l).
Proof.
  unfold Chart.gold_count.
  induction l as [|y l IH]; simpl in *; [reflexivity|].
  destruct (Num.ltb (time x) (time y)); simpl; [reflexivity|].
  destruct (isGoldStar y), (isGoldStar x); simpl in *; lia.
Qed.

Lemma gold_count_sort (l : list NoteData) :
  Chart.gold_count (Chart.sort l) = Chart.gold_count l.
Proof.
  unfold Chart.sort.
  assert (H : forall acc,
             Chart.gold_count (fold_left (fun acc x => Chart.insert x acc) l acc)
             = (Chart.gold_count acc + Chart.gold_count l)%nat).
  { induction l as [|x l IH]; intros acc; simpl.
    - unfold Chart.gold_count at 3. simpl. lia.
    - rewrite IH, gold_count_insert.
      change (x :: acc) with ([x] ++ acc). change (x :: l) with ([x] ++ l).
      rewrite !gold_count_app. lia. }
  rewrite H. reflexivity.
Qed.

Lemma count_step (c : nat) :
  if (S c mod 50 =? 0)%nat then (S c / 50 = S (c / 50))%nat
  else (S c / 50 = c / 50)%nat.
Proof.
  pose proof (Nat.div_mod_eq c 50). pose proof (Nat.div_mod_eq (S c) 50).
  pose proof (Nat.mod_upper_bound c 50). pose proof (Nat.mod_upper_bound (S c) 50).
  destruct (Nat.eqb_spec (S c mod 50) 0); nia.
Qed.

(** The gold stars pushed so far are one for every 50 beats kept so far. *)
Lemma beats_gold_count (rnd : nat -> Q) (d : Difficulty) (n from : nat) (g : Chart.Gen) :
  Chart.gold_count (Chart.notes g) = (Chart.generatedNoteCount g / 50)%nat ->
  Chart.gold_count (Chart.notes (Chart.beats rnd d from n g))
  = (Chart.generatedNoteCount (Chart.beats rnd d from n g) / 50)%nat.
Proof.
  unfold Chart.beats. revert from g.
  induction n as [|n IH]; intros from g Hg; simpl; [exact Hg|].
  apply IH. pose proof (beat_effect rnd d from g) as H. cbv zeta in H.
  destruct (Num.ltb (rnd (Chart.calls g)) (Chart.skipRate d)).
  - destruct H as [-> ->]. exact Hg.
  - destruct H as [Hc H]. rewrite Hc in *.
    pose proof (count_step (Chart.generatedNoteCount g)) as Hs.
    destruct (S (Chart.generatedNoteCount g) mod 50 =? 0)%nat.
    + destruct H as (subs & gold & -> & Hsubs & _ & Hgold & _).
      rewrite !gold_count_app, (gold_count_no_gold subs Hsubs), Hg, Hs.
      unfold Chart.gold_count at 1. simpl. rewrite Hgold. simpl. lia.
    + destruct H as (new & -> & Hnew).
      rewrite gold_count_app, (gold_count_no_gold new Hnew), Hg, Hs. lia.
Qed.

(** What the loop does with its counter, for every difficulty, beat,
    generator state and outcome of the random calls: [generatedNoteCount]
    counts the beats that pass the skip test, not the notes. A skipped beat
    pushes nothing and leaves the counter alone. A kept beat raises the
    counter by one; when the new value is a multiple of 50 the beat pushes,
    after its sub-beat notes (IMPOSSIBLE only, none of them gold), exactly
    one gold star at the time of the beat and the phase logic does not run;
    otherwise it pushes no gold star. So the returned chart holds one gold
    star for every 50 kept beats. *)
Theorem gold_star_every_50th_kept_beat :
  (forall (rnd : nat -> Q) (d : Difficulty) (i : nat) (g : Chart.Gen),
      let g' := Chart.exec (Chart.beat rnd d i) g in
      if Num.ltb (rnd (Chart.calls g)) (Chart.skipRate d) then
        Chart.notes g' = Chart.notes g
        /\ Chart.generatedNoteCount g' = Chart.generatedNoteCount g
      else
        Chart.generatedNoteCount g' = S (Chart.generatedNoteCount g)
        /\ if (Chart.generatedNoteCount g' mod 50 =? 0)%nat then
             exists subs gold,
               Chart.notes g' = Chart.notes g ++ subs ++ [gold]
               /\ Chart.no_gold subs
               /\ (d <> IMPOSSIBLE -> subs = [])
               /\ isGoldStar gold = true
               /\ time gold = inject_Z (Z.of_nat i) * BEAT_TIME
           else
             exists new, Chart.notes g' = Chart.notes g ++ new /\ Chart.no_gold new)
  /\ (forall (rnd : nat -> Q) (d : Difficulty),
         Chart.gold_count (Chart.generateChart rnd d)
         = (Chart.kept_beats rnd d / 50)%nat).
Proof.
  split.
  - exact beat_effect.
  - intros rnd d. unfold Chart.generateChart, Chart.emitted, Chart.kept_beats.
    rewrite gold_count_sort. apply beats_gold_count. reflexivity.
Qed.

(** ** Scoring *)

Lemma positive_base_points (cfg : DifficultyConfig) (tier : ScoreTier) :
  tier <> WRONG_SABER ->
  Num.ltb 0 (fst (fst (App.base_rewards cfg tier))) = true.
Proof. destruct tier; intros H; try reflexivity. congruence. Qed.

(** C2, as stated, fails twice. BAD is a penalty tier, yet its base points
    are positive and so are scaled: with the Star Forged saber (score
    multiplier 2.0) on MEDIUM it yields 20 points, not 10. And the scaled
    values are rounded: PERFECT with the same saber yields 23 coins, not
    15 * 1.5 = 22.5. *)
Lemma bad_tier_is_scaled :
  ~ (forall R tier, tier = BAD \/ tier = WRONG_SABER -> App.unscaled R tier)
  /\ ~ (forall R tier, tier <> BAD -> tier <> WRONG_SABER -> App.scaled_exactly R tier).
Proof.
  split; intros H.
  - destruct (H (App.mkRender 1 saber_celestial (DIFFICULTY_CONFIG MEDIUM)) BAD
                (or_introl eq_refl)) as [Hp _].
    vm_compute in Hp. discriminate.
  - destruct (H (App.mkRender 1 saber_celestial (DIFFICULTY_CONFIG MEDIUM)) PERFECT
                ltac:(discriminate) ltac:(discriminate)) as [_ Hc].
    vm_compute in Hc. discriminate.
Qed.

(** C2, amended: the perk and difficulty multipliers are applied exactly
    when the base points of the tier are positive, that is to every tier
    but WRONG_SABER, BAD included, and the products are rounded to the
    nearest integer. The score grows by the rounded points times the
    rendered combo multiplier and the coins by the rounded coin reward;
    WRONG_SABER adds nothing to either. *)
Theorem rewards_scaled_when_positive (R : App.Render) (tier : ScoreTier) (s : App.State) :
  let p := fst (fst (App.base_rewards (App.diffConfig R) tier)) in
  let c := snd (fst (App.base_rewards (App.diffConfig R) tier)) in
  let diffMult := scoreMultiplier (App.diffConfig R) in
  let s' := App.handleNoteHit R tier s in
  match tier with
  | WRONG_SABER =>
      App.score s' == App.score s /\ App.coins s' == App.coins s
  | _ =>
      App.score s'
      == App.score s
         + inject_Z (Num.round (p * scoreMult (perks (App.equippedItem R)) * diffMult))
           * App.rendered_multiplier R
      /\ App.coins s'
         == App.coins s
            + inject_Z (Num.round (c * coinMult (perks (App.equippedItem R)) * diffMult))
  end.
Proof.
  intros p c diffMult s'. subst s' p c diffMult.
  unfold App.handleNoteHit, App.points_of, App.coinReward_of, App.rewards.
  destruct tier; cbn [App.score App.coins];
    try (rewrite (surjective_pairing (App.base_rewards _ _)),
                 (surjective_pairing (fst (App.base_rewards _ _)));
         rewrite positive_base_points by discriminate;
         cbn [fst snd]; split; reflexivity).
  cbn [App.base_rewards]. change (Num.ltb 0 0) with false.
  cbn [fst snd]. split; ring.
Qed.

Lemma hit_keeps_combo (R : App.Render) (tier : ScoreTier) (s : App.State) :
  App.keeps_combo tier = true ->
  App.combo (App.handleNoteHit R tier s) = (App.combo s + 1)%Z
  /\ App.multiplier (App.handleNoteHit R tier s) = App.multiplier_for (App.combo s + 1).
Proof.
  intros H. unfold App.handleNoteHit. cbn [App.combo App.multiplier].
  rewrite H. split; reflexivity.
Qed.

Lemma hits_keep_combo (item : ShopItem) (cfg : DifficultyConfig)
      (tiers : list ScoreTier) (s : App.State) :
  forallb App.keeps_combo tiers = true ->
  App.combo (App.hits item cfg tiers s) = (App.combo s + Z.of_nat (length tiers))%Z
  /\ (tiers <> [] ->
      App.multiplier (App.hits item cfg tiers s)
      = App.multiplier_for (App.combo (App.hits item cfg tiers s))).
Proof.
  revert s. induction tiers as [|tier tiers IH] using rev_ind; intros s Hk.
  - simpl. split; [lia | congruence].
  - rewrite forallb_app in Hk. apply andb_prop in Hk as [Hk Ht].
    simpl in Ht. rewrite andb_true_r in Ht.
    destruct (IH s Hk) as [Hc _].
    unfold App.hits in *. rewrite fold_left_app. cbn [fold_left].
    set (s1 := fold_left _ tiers s) in *.
    destruct (hit_keeps_combo (App.render item cfg s1) tier s1 Ht) as [Hc1 Hm1].
    rewrite Hc1, Hm1, Hc, length_app. simpl. split; [lia | reflexivity].
Qed.

(** C6: after every non-penalty hit the multiplier is a step function of
    the updated combo. Along any non-empty run of non-penalty hits, each
    followed by a render, the combo grows by one per hit and the multiplier
    is 1 up to combo 10, 2 for a combo above 10 and up to 20, 4 above 20
    and up to 30, and 8 above 30: the values 10, 20 and 30 themselves do
    not reach the next tier. *)
Theorem multiplier_step_function
        (item : ShopItem) (cfg : DifficultyConfig) (tiers : list ScoreTier)
        (s : App.State) :
  forallb App.keeps_combo tiers = true ->
  tiers <> [] ->
  let s' := App.hits item cfg tiers s in
  let c := App.combo s' in
  c = (App.combo s + Z.of_nat (length tiers))%Z
  /\ ((c <= 10)%Z -> App.multiplier s' = 1)
  /\ ((10 < c <= 20)%Z -> App.multiplier s' = 2)
  /\ ((20 < c <= 30)%Z -> App.multiplier s' = 4)
  /\ ((30 < c)%Z -> App.multiplier s' = 8).
Proof.
  intros Hk Hne s' c.
  destruct (hits_keep_combo item cfg tiers s Hk) as [Hc Hm].
  specialize (Hm Hne). fold s' in Hm, Hc. fold c in Hm, Hc.
  split; [exact Hc|]. rewrite Hm. unfold App.multiplier_for.
  repeat split; intros H;
    repeat match goal with
           | |- context [(?a <? ?b)%Z] => destruct (Z.ltb_spec a b); try lia
           end; reflexivity.
Qed.

(** Eleven hits in a row from the start of a session reach combo 11 and
    the multiplier 2. *)
Lemma multiplier_step_function_witness :
  App.multiplier
    (App.hits saber_default (DIFFICULTY_CONFIG MEDIUM) (repeat PERFECT 11)
              (App.started 0 0)) = 2.
Proof.
  destruct (multiplier_step_function saber_default (DIFFICULTY_CONFIG MEDIUM)
              (repeat PERFECT 11) (App.started 0 0) eq_refl ltac:(discriminate))
    as (Hc & _ & H2 & _).
  apply H2. rewrite Hc. simpl. lia.
Defined.

Lemma handle_all_score (R : App.Render) (es : list Scene.Event) (s : App.State) :
  App.score (App.handle_all R es s)
  == App.score s + App.frame_points R es * App.rendered_multiplier R.
Proof.
  unfold App.handle_all. revert s.
  induction es as [|e es IH]; intros s; cbn [fold_left App.frame_points fold_right].
  - ring.
  - rewrite IH. destruct e as [k tier|k|]; cbn [App.handle].
    + unfold App.handleNoteHit. cbn [App.score]. fold (App.frame_points R es). ring.
    + unfold App.handleNoteMiss. cbn [App.score]. fold (App.frame_points R es). ring.
    + unfold App.endGame. cbn [App.score]. fold (App.frame_points R es). ring.
Qed.

(** C10, as stated, fails for the second hit of a frame. Both callbacks
    of the frame close over the multiplier of the last render: after ten
    PERFECT hits (combo 10, multiplier 1) on MEDIUM with the standard
    saber, two PERFECT hits in one frame bring the multiplier to 2 with
    the first, and yet the second is scored at 1: the frame adds 300
    points, not 150 + 150 * 2. *)
Lemma second_hit_of_frame_scored_at_stale_multiplier :
  ~ (forall item cfg s0 first tier,
        let R := App.render item cfg s0 in
        let s := App.handleNoteHit R first s0 in
        Num.ltb 0 (App.points_of R tier) = true ->
        App.score (App.handleNoteHit R tier s)
        == App.score s + App.points_of R tier * App.multiplier s)
  /\ (let s0 := App.hits saber_default (DIFFICULTY_CONFIG MEDIUM) (repeat PERFECT 10)
                         (App.started 0 0) in
      let R := App.render saber_default (DIFFICULTY_CONFIG MEDIUM) s0 in
      App.multiplier (App.handleNoteHit R PERFECT s0) = 2
      /\ App.score (App.handle_all R [Scene.OnNoteHit 0 PERFECT; Scene.OnNoteHit 1 PERFECT] s0)
         == App.score s0 + 300).
Proof.
  split.
  - intros H.
    specialize (H saber_default (DIFFICULTY_CONFIG MEDIUM)
                  (App.hits saber_default (DIFFICULTY_CONFIG MEDIUM) (repeat PERFECT 10)
                            (App.started 0 0))
                  PERFECT PERFECT eq_refl).
    vm_compute in H. discriminate.
  - split; [reflexivity | vm_compute; reflexivity].
Qed.

(** C10, amended: the points of a hit are multiplied by the multiplier that
    the callback closed over, the one of the last render, whatever the
    callbacks handled since that render did to combo and multiplier: the
    score of a whole frame grows by the points of its hits times that one
    value. For a hit handled right after a render that is the multiplier
    in effect before the hit. The hit that raises the combo from 10 to 11
    sets the multiplier to 2 and is itself scored at 1; the hit after it
    is scored at 2 when a render separates the two, and at 1 when both
    belong to one frame. *)
Theorem score_uses_multiplier_of_last_render
        (item : ShopItem) (cfg : DifficultyConfig) (s : App.State) :
  let R := App.render item cfg s in
  (forall R0 es,
      App.score (App.handle_all R0 es s)
      == App.score s + App.frame_points R0 es * App.rendered_multiplier R0)
  /\ (forall es,
         App.score (App.handle_all R es s)
         == App.score s + App.frame_points R es * App.multiplier s)
  /\ (forall tier,
         App.score (App.handleNoteHit R tier s)
         == App.score s + App.points_of R tier * App.multiplier s)
  /\ (forall tier next,
         App.combo s = 10%Z -> App.multiplier s = 1 -> App.keeps_combo tier = true ->
         let s' := App.handleNoteHit R tier s in
         App.multiplier s' = 2
         /\ App.score s' == App.score s + App.points_of R tier
         /\ App.score (App.handleNoteHit (App.render item cfg s') next s')
            == App.score s + App.points_of R tier + App.points_of R next * 2
         /\ App.score (App.handleNoteHit R next s')
            == App.score s + App.points_of R tier + App.points_of R next).
Proof.
  intros R. split; [intros R0 es; apply handle_all_score|].
  split; [intros es; apply (handle_all_score R es s)|].
  split; [intros tier; reflexivity|].
  intros tier next Hc Hm Hk s'.
  assert (Hm' : App.multiplier s' = 2).
  { subst s'. unfold App.handleNoteHit. cbn [App.multiplier].
    rewrite Hk, Hc. reflexivity. }
  split; [exact Hm'|].
  assert (Hs : App.score s' == App.score s + App.points_of R tier).
  { change (App.score s')
      with (App.score s + App.points_of R tier * App.multiplier s).
    rewrite Hm. ring. }
  split; [exact Hs|]. split.
  - change (App.score (App.handleNoteHit (App.render item cfg s') next s'))
      with (App.score s' + App.points_of R next * App.multiplier s').
    rewrite Hm', Hs. reflexivity.
  - change (App.score (App.handleNoteHit R next s'))
      with (App.score s' + App.points_of R next * App.multiplier s).
    rewrite Hm, Hs. ring.
Qed.

(** The eleventh PERFECT of a session on MEDIUM with the standard saber
    scores 150 points, at the multiplier 1, and sets the multiplier to 2;
    a twelfth PERFECT in the same frame scores 150 points again. *)
Lemma score_uses_multiplier_of_last_render_witness :
  let s := App.hits saber_default (DIFFICULTY_CONFIG MEDIUM) (repeat PERFECT 10)
                    (App.started 0 0) in
  let R := App.render saber_default (DIFFICULTY_CONFIG MEDIUM) s in
  App.multiplier (App.handleNoteHit R PERFECT s) = 2
  /\ App.score (App.handleNoteHit R PERFECT s) == App.score s + 150
  /\ App.score (App.handleNoteHit R PERFECT (App.handleNoteHit R PERFECT s))
     == App.score s + 300.
Proof.
  intros s R. subst R.
  destruct (score_uses_multiplier_of_last_render saber_default (DIFFICULTY_CONFIG MEDIUM) s)
    as (_ & _ & _ & H).
  destruct (H PERFECT PERFECT eq_refl eq_refl eq_refl) as (H2 & Hs & _ & Hsame).
  split; [exact H2|]. split.
  - rewrite Hs. vm_compute. reflexivity.
  - rewrite Hsame. vm_compute. reflexivity.
Defined.

(** ** Failure *)

(** C1, as the code has it. [handleNoteMiss] defers the end of
    the session: when the drained health is not positive it stores 0,
    leaves the status alone and schedules one [endGame(false)] timer of
    delay 0, which sets the status to GAME_OVER when it fires.
    [handleNoteHit] never schedules it, whatever the tier: a
    WRONG_SABER hit at health 5 brings the health to 0 and the session goes
    on, where a miss from the same state schedules the failure. And every
    miss at zero health schedules a timer of its own: two misses in one
    frame schedule two. *)
Theorem penalty_hit_schedules_no_failure :
  (forall R s,
      let s' := App.handleNoteMiss R s in
      App.gameStatus s' = App.gameStatus s
      /\ if Num.leb (App.health s - healthDrain (App.diffConfig R)) 0
         then App.health s' = 0
              /\ App.failures_scheduled s' = S (App.failures_scheduled s)
              /\ exists before, App.timeouts s' = before ++ [(0, App.EndGame false)]
         else App.health s' = App.health s - healthDrain (App.diffConfig R)
              /\ App.failures_scheduled s' = App.failures_scheduled s)
  /\ (forall s, App.gameStatus (App.fire (App.EndGame false) s) = GAME_OVER)
  /\ (forall R tier s,
         App.failures_scheduled (App.handleNoteHit R tier s) = App.failures_scheduled s
         /\ App.gameStatus (App.handleNoteHit R tier s) = App.gameStatus s)
  /\ (let R := App.mkRender 1 saber_default (DIFFICULTY_CONFIG MEDIUM) in
      let s := App.mkState PLAYING 0 0 1 5 0 0 false [] in
      App.health (App.handleNoteHit R WRONG_SABER s) == 0
      /\ App.failures_scheduled (App.handleNoteHit R WRONG_SABER s) = 0%nat
      /\ App.failures_scheduled (App.handleNoteMiss R s) = 1%nat
      /\ App.failures_scheduled
           (App.handle_all R [Scene.OnNoteMiss 0; Scene.OnNoteMiss 1] s) = 2%nat).
Proof.
  split; [|split; [reflexivity|split]].
  - intros R s s'. subst s'. unfold App.handleNoteMiss, App.failures_scheduled.
    cbn [App.gameStatus App.health App.timeouts]. split; [reflexivity|].
    destruct (Num.leb (App.health s - healthDrain (App.diffConfig R)) 0).
    + split; [reflexivity|]. split.
      * rewrite !List.filter_app, !length_app. simpl. lia.
      * eexists. rewrite app_assoc. reflexivity.
    + split; [reflexivity|].
      rewrite !List.filter_app, !length_app. simpl. lia.
  - intros R tier s. unfold App.handleNoteHit, App.failures_scheduled.
    cbn [App.gameStatus App.timeouts]. split; [|reflexivity].
    destruct (App.keeps_combo tier); [reflexivity|].
    rewrite List.filter_app, length_app. simpl. lia.
  - vm_compute. repeat split; reflexivity.
Qed.

(** ** The note loop of a frame *)

Ltac mem := rewrite ?elem_of_cons; intuition congruence.

Section Loop.

Variables (P : Scene.Props) (F : Scene.Frame).

Lemma settle_resolved (n : NoteData) :
  hit n || missed n = true -> Scene.settle P F n = n.
Proof. unfold Scene.settle. intros ->. reflexivity. Qed.

Lemma event_of_resolved (k : nat) (n : NoteData) :
  hit n || missed n = true -> Scene.event_of P F k n = None.
Proof. unfold Scene.event_of. intros ->. reflexivity. Qed.

Lemma settle_unresolved (n : NoteData) :
  hit (Scene.settle P F n) || missed (Scene.settle P F n) = false ->
  hit n || missed n = false /\ Scene.resolve P F n = Scene.Pending.
Proof.
  unfold Scene.settle.
  destruct (hit n || missed n) eqn:E; [congruence|].
  destruct (Scene.resolve P F n); simpl; intros H.
  - split; reflexivity.
  - rewrite orb_true_r in H. discriminate.
  - discriminate.
Qed.

Lemma take_pred {A} (l l' : list A) (i : nat) :
  take (S i) l = take (S i) l' -> take i l = take i l'.
Proof.
  intros H.
  assert (E : forall k : list A, take i k = take i (take (S i) k))
    by (intros k; rewrite take_take; f_equal; lia).
  rewrite (E l), (E l'), H. reflexivity.
Qed.

Lemma take_delete_here {A} (l : list A) (i : nat) : take i (delete i l) = take i l.
Proof.
  apply list_eq. intros j. destruct (decide (j < i)%nat).
  - rewrite !lookup_take_lt by assumption. apply list_lookup_delete_lt. assumption.
  - rewrite !lookup_take_ge by lia. reflexivity.
Qed.

(** Visiting a reference that changes nothing. *)
Lemma loop_inv_skip (r1 : Scene.Refs) (i k : nat) (V : list nat)
      (st : Scene.Refs * list Scene.Event) :
  Scene.loop_inv P F r1 (S i) V st ->
  (forall n0, Scene.notesState r1 !! k = Some n0 -> k ∉ V ->
              Scene.settle P F n0 = n0 /\ Scene.event_of P F k n0 = None) ->
  Scene.loop_inv P F r1 i (k :: V) st.
Proof.
  intros (Ht & Hn & He & Hx) Hk. repeat split.
  - apply take_pred, Ht.
  - intros k'. rewrite Hn. unfold Scene.settled_after.
    destruct (Scene.notesState r1 !! k') as [n0|] eqn:E; [|reflexivity].
    simpl. f_equal.
    destruct (decide (k' ∈ V)) as [Hin|Hin].
    + rewrite !bool_decide_eq_true_2; [reflexivity | mem | assumption].
    + rewrite (bool_decide_eq_false_2 _ Hin).
      destruct (decide (k' = k)) as [->|Hne].
      * rewrite bool_decide_eq_true_2 by mem.
        symmetry. apply (Hk n0 E Hin).
      * rewrite bool_decide_eq_false_2 by mem. reflexivity.
  - rewrite He. intros (k' & n0 & Hin & Hl & Hev).
    exists k', n0. repeat split; [mem | assumption..].
  - intros (k' & n0 & Hin & Hl & Hev). apply He.
    exists k', n0. repeat split; try assumption.
    apply elem_of_cons in Hin as [->|Hin]; [|assumption].
    destruct (decide (k ∈ V)) as [Hv|Hv]; [assumption|].
    destruct (Hk n0 Hl Hv) as [_ Hnone]. congruence.
  - exact Hx.
Qed.

(** Visiting a reference to an unresolved note that the loop resolves. *)
Lemma loop_inv_resolve (r1 r : Scene.Refs) (i k : nat) (V : list nat)
      (log : list Scene.Event) (n0 : NoteData) (e : Scene.Event) :
  Scene.loop_inv P F r1 (S i) V (r, log) ->
  Scene.notesState r1 !! k = Some n0 ->
  k ∉ V ->
  Scene.event_of P F k n0 = Some e ->
  Scene.loop_inv P F r1 i (k :: V)
    (Scene.mkRefs (<[k := Scene.settle P F n0]> (Scene.notesState r))
                  (delete i (Scene.activeNotes r)) (Scene.nextNoteIndex r),
     log ++ [e]).
Proof.
  intros (Ht & Hn & He & Hx) Hl Hv Hev. simpl in *. repeat split; simpl.
  - rewrite take_delete_here. apply take_pred, Ht.
  - intros k'. unfold Scene.settled_after. destruct (decide (k' = k)) as [->|Hne].
    + rewrite list_lookup_insert_eq.
      * rewrite Hl. simpl. rewrite bool_decide_eq_true_2 by mem. reflexivity.
      * apply lookup_lt_is_Some. rewrite Hn. unfold Scene.settled_after.
        rewrite Hl. simpl. eauto.
    + rewrite list_lookup_insert_ne by congruence. rewrite Hn.
      unfold Scene.settled_after.
      destruct (Scene.notesState r1 !! k') as [n'|]; [|reflexivity].
      simpl. f_equal.
      rewrite (bool_decide_ext (k' ∈ V) (k' ∈ k :: V)) by mem. reflexivity.
  - rewrite elem_of_app, list_elem_of_singleton, He.
    intros [(k' & n' & Hin & Hl' & Hev')| ->].
    + exists k', n'. repeat split; [mem | assumption..].
    + exists k, n0. repeat split; [mem | assumption..].
  - intros (k' & n' & Hin & Hl' & Hev').
    rewrite elem_of_app, list_elem_of_singleton, He.
    apply elem_of_cons in Hin as [->|Hin].
    + right. congruence.
    + left. exists k', n'. repeat split; assumption.
  - exact Hx.
Qed.

Lemma visit_inv (r1 : Scene.Refs) (i : nat) (st : Scene.Refs * list Scene.Event) :
  Scene.loop_inv P F r1 (S i) (drop (S i) (Scene.activeNotes r1)) st ->
  Scene.loop_inv P F r1 i (drop i (Scene.activeNotes r1)) (Scene.visit P F i st).
Proof.
  intros H. pose proof H as (Ht & Hn & He & Hx).
  destruct st as [r log]. simpl in Ht, Hn, He, Hx. unfold Scene.visit.
  assert (Ha : Scene.activeNotes r !! i = Scene.activeNotes r1 !! i).
  { rewrite <- (lookup_take_lt (Scene.activeNotes r) (S i) i) by lia.
    rewrite Ht. apply lookup_take_lt. lia. }
  rewrite Ha.
  destruct (Scene.activeNotes r1 !! i) as [k|] eqn:Ek.
  2:{ apply lookup_ge_None_1 in Ek.
      rewrite drop_ge in H by lia. rewrite drop_ge by lia.
      destruct H as (_ & H2 & H3 & H4).
      repeat split; [apply take_pred, Ht | exact H2 | apply H3 | apply H3 | exact H4]. }
  rewrite (drop_S _ _ _ Ek).
  set (V := drop (S i) (Scene.activeNotes r1)) in *.
  rewrite Hn. unfold Scene.settled_after at 1.
  destruct (Scene.notesState r1 !! k) as [n0|] eqn:E0; simpl.
  2:{ apply loop_inv_skip; [exact H|]. intros n0 E. congruence. }
  destruct (decide (k ∈ V)) as [Hv|Hv].
  - rewrite (bool_decide_eq_true_2 _ Hv).
    assert (Hs : Scene.loop_inv P F r1 i (k :: V) (r, log))
      by (apply loop_inv_skip; [exact H | intros n1 _ Hv'; contradiction]).
    destruct (hit (Scene.settle P F n0) || missed (Scene.settle P F n0)) eqn:Er;
      [exact Hs|].
    destruct (settle_unresolved n0 Er) as [Hu Hp].
    assert (Es : Scene.settle P F n0 = n0)
      by (unfold Scene.settle; rewrite Hu, Hp; reflexivity).
    rewrite Es, Hp. exact Hs.
  - rewrite (bool_decide_eq_false_2 _ Hv).
    destruct (hit n0 || missed n0) eqn:Er.
    { apply loop_inv_skip; [exact H|]. intros n1 E1 _.
      assert (n1 = n0) as -> by congruence.
      split; [apply settle_resolved | apply event_of_resolved]; exact Er. }
    destruct (Scene.resolve P F n0) as [| |tier] eqn:Eo.
    + apply loop_inv_skip; [exact H|]. intros n1 E1 _.
      assert (n1 = n0) as -> by congruence.
      unfold Scene.settle, Scene.event_of. rewrite Er, Eo. split; reflexivity.
    + replace (Scene.set_missed n0) with (Scene.settle P F n0)
        by (unfold Scene.settle; rewrite Er, Eo; reflexivity).
      apply loop_inv_resolve; try assumption.
      unfold Scene.event_of. rewrite Er, Eo. reflexivity.
    + replace (Scene.set_hit (Scene.currentTime F) n0) with (Scene.settle P F n0)
        by (unfold Scene.settle; rewrite Er, Eo; reflexivity).
      apply loop_inv_resolve; try assumption.
      unfold Scene.event_of. rewrite Er, Eo. reflexivity.
Qed.

Lemma collide_inv (r1 : Scene.Refs) (m : nat) (st : Scene.Refs * list Scene.Event) :
  Scene.loop_inv P F r1 m (drop m (Scene.activeNotes r1)) st ->
  Scene.loop_inv P F r1 0 (Scene.activeNotes r1) (Scene.collide P F m st).
Proof.
  revert st. induction m as [|i IH]; intros st H; simpl.
  - exact H.
  - apply IH, visit_inv, H.
Qed.

Lemma loop_inv_start (r1 : Scene.Refs) :
  Scene.loop_inv P F r1 (length (Scene.activeNotes r1))
                 (drop (length (Scene.activeNotes r1)) (Scene.activeNotes r1))
                 (r1, []).
Proof.
  rewrite drop_ge by lia. repeat split; simpl.
  - intros k. unfold Scene.settled_after.
    destruct (Scene.notesState r1 !! k); reflexivity.
  - intros H. apply elem_of_nil in H. contradiction.
  - intros (k & n0 & H & _). apply elem_of_nil in H. contradiction.
Qed.

Lemma spawn_notesState (pending : list NoteData) (ahead now : Q) (r : Scene.Refs) :
  Scene.notesState (Scene.spawn pending ahead now r) = Scene.notesState r.
Proof.
  revert r. induction pending as [|n rest IH]; intros r; simpl.
  - reflexivity.
  - destruct (Num.leb _ _); [rewrite IH|]; reflexivity.
Qed.

(** What a frame of a running game does to the store and which callbacks
    it issues: exactly the notes referenced by the active list, as it
    stands after spawning, are settled. *)
Lemma useFrame_playing (r : Scene.Refs) :
  Scene.gameStatus P = PLAYING ->
  Scene.ended F = false ->
  (forall k, Scene.notesState (fst (Scene.useFrame P F r)) !! k
             = Scene.settled_after P F (Scene.activeNotes (Scene.spawned P F r))
                                   (Scene.notesState r) k)
  /\ (forall e, e ∈ snd (Scene.useFrame P F r) <->
                exists k n0, k ∈ Scene.activeNotes (Scene.spawned P F r)
                             /\ Scene.notesState r !! k = Some n0
                             /\ Scene.event_of P F k n0 = Some e).
Proof.
  intros Hp He. unfold Scene.useFrame. rewrite Hp, He.
  set (r1 := Scene.spawned P F r).
  assert (En : Scene.notesState r1 = Scene.notesState r)
    by apply spawn_notesState.
  destruct (collide_inv r1 _ _ (loop_inv_start r1)) as (_ & Hn & Hev & _).
  rewrite <- En. split; assumption.
Qed.

End Loop.

(** ** Resolution of an active note *)

Section Resolution.

Variables (P : Scene.Props) (F : Scene.Frame) (r : Scene.Refs).

Hypothesis playing : Scene.gameStatus P = PLAYING.
Hypothesis running : Scene.ended F = false.

(** The fate, in a frame, of an unresolved note that the active list
    references: the store holds it settled, and the callbacks about it are
    exactly the one the loop body issues. *)
Lemma active_note_settled (k : nat) (n : NoteData) :
  k ∈ Scene.activeNotes (Scene.spawned P F r) ->
  Scene.notesState r !! k = Some n ->
  Scene.notesState (fst (Scene.useFrame P F r)) !! k = Some (Scene.settle P F n)
  /\ (forall tier, Scene.OnNoteHit k tier ∈ snd (Scene.useFrame P F r)
                   <-> Scene.event_of P F k n = Some (Scene.OnNoteHit k tier))
  /\ (Scene.OnNoteMiss k ∈ snd (Scene.useFrame P F r)
      <-> Scene.event_of P F k n = Some (Scene.OnNoteMiss k)).
Proof.
  intros Hk Hn.
  destruct (useFrame_playing P F r playing running) as [Hs He].
  assert (Hof : forall k' n' e, Scene.event_of P F k' n' = Some e ->
                  (forall tier, e = Scene.OnNoteHit k tier -> k' = k)
                  /\ (e = Scene.OnNoteMiss k -> k' = k)).
  { intros k' n' e. unfold Scene.event_of.
    destruct (hit n' || missed n'); [discriminate|].
    destruct (Scene.resolve P F n'); intros H; inversion H; subst;
      split; intros; congruence. }
  split; [|split].
  - rewrite Hs. unfold Scene.settled_after. rewrite Hn. simpl.
    rewrite bool_decide_eq_true_2 by assumption. reflexivity.
  - intros tier. rewrite He. split.
    + intros (k' & n' & Hin & Hl & Hev).
      destruct (Hof _ _ _ Hev) as [Hh _].
      assert (k' = k) as -> by (eapply Hh; reflexivity).
      congruence.
    + intros Hev. exists k, n. auto.
  - rewrite He. split.
    + intros (k' & n' & Hin & Hl & Hev).
      destruct (Hof _ _ _ Hev) as [_ Hm].
      assert (k' = k) as -> by (apply Hm; reflexivity).
      congruence.
    + intros Hev. exists k, n. auto.
Qed.

(** What the frame does with an unresolved active note, by outcome. *)
Lemma active_note_outcome (k : nat) (n : NoteData) :
  k ∈ Scene.activeNotes (Scene.spawned P F r) ->
  Scene.notesState r !! k = Some n ->
  hit n = false -> missed n = false ->
  match Scene.resolve P F n with
  | Scene.Missed =>
      Scene.notesState (fst (Scene.useFrame P F r)) !! k = Some (Scene.set_missed n)
      /\ Scene.OnNoteMiss k ∈ snd (Scene.useFrame P F r)
      /\ (forall tier, Scene.OnNoteHit k tier ∉ snd (Scene.useFrame P F r))
  | Scene.Hit t =>
      Scene.notesState (fst (Scene.useFrame P F r)) !! k
      = Some (Scene.set_hit (Scene.currentTime F) n)
      /\ (Scene.OnNoteMiss k ∉ snd (Scene.useFrame P F r))
      /\ (forall tier, Scene.OnNoteHit k tier ∈ snd (Scene.useFrame P F r) <-> tier = t)
  | Scene.Pending =>
      Scene.notesState (fst (Scene.useFrame P F r)) !! k = Some n
      /\ (Scene.OnNoteMiss k ∉ snd (Scene.useFrame P F r))
      /\ (forall tier, Scene.OnNoteHit k tier ∉ snd (Scene.useFrame P F r))
  end.
Proof.
  intros Hk Hn Hh Hm.
  destruct (active_note_settled k n Hk Hn) as (Hs & Hhit & Hmiss).
  unfold Scene.settle, Scene.event_of in *. rewrite Hh, Hm in *. simpl in *.
  destruct (Scene.resolve P F n) as [| |t].
  - split; [exact Hs|]. split.
    + rewrite Hmiss. discriminate.
    + intros tier. rewrite Hhit. discriminate.
  - split; [exact Hs|]. split.
    + apply Hmiss. reflexivity.
    + intros tier. rewrite Hhit. discriminate.
  - split; [exact Hs|]. split.
    + rewrite Hmiss. discriminate.
    + intros tier. rewrite Hhit. split; congruence.
Qed.

End Resolution.

(** C5: in every frame of a running game, an unresolved note on the active
    list whose position is past the miss plane is resolved as missed before
    any hit test: whatever the hands do, the note in the store has its
    [missed] flag set and its [hit] flag and hit time untouched (it is the
    note it was in every other field), the miss callback is issued, and no
    hit callback is issued for it. *)
Theorem miss_plane_before_hit_test
        (P : Scene.Props) (F : Scene.Frame) (r : Scene.Refs) (k : nat) (n : NoteData) :
  Scene.gameStatus P = PLAYING ->
  Scene.ended F = false ->
  k ∈ Scene.activeNotes (Scene.spawned P F r) ->
  Scene.notesState r !! k = Some n ->
  hit n = false ->
  missed n = false ->
  MISS_Z < Scene.currentZ P F n ->
  Scene.resolve P F n = Scene.Missed
  /\ Scene.notesState (fst (Scene.useFrame P F r)) !! k = Some (Scene.set_missed n)
  /\ Scene.OnNoteMiss k ∈ snd (Scene.useFrame P F r)
  /\ (forall tier, Scene.OnNoteHit k tier ∉ snd (Scene.useFrame P F r))
  /\ (exists n',
         Scene.notesState (fst (Scene.useFrame P F r)) !! k = Some n'
         /\ missed n' = true
         /\ hit n' = false
         /\ hitTime n' = hitTime n
         /\ n' = mkNote (id n) (time n) (lineIndex n) (lineLayer n) (type n)
                        (cutDirection n) (isGoldStar n) false true (hitTime n)).
Proof.
  intros Hp He Hk Hn Hh Hm Hz.
  assert (Hr : Scene.resolve P F n = Scene.Missed).
  { unfold Scene.resolve. apply ltb_lt in Hz. rewrite Hz. reflexivity. }
  split; [exact Hr|].
  pose proof (active_note_outcome P F r Hp He k n Hk Hn Hh Hm) as H.
  rewrite Hr in H. destruct H as (Hs & Hmiss & Hhit).
  split; [exact Hs|]. split; [exact Hmiss|]. split; [exact Hhit|].
  exists (Scene.set_missed n). split; [exact Hs|].
  unfold Scene.set_missed. cbn [missed hit hitTime]. rewrite Hh.
  repeat split.
Qed.

(** A note six units past the player, with a hand on its slot and inside
    the hit window of the ultimate saber, is missed. *)
Lemma miss_plane_before_hit_test_witness :
  Scene.reaches (Scene.right (Scene.right_hand_on_note)) Scene.sample_note
                (Scene.hitRadius (Scene.playing saber_ultimate)) = true
  /\ Scene.OnNoteMiss 0
     ∈ snd (Scene.useFrame (Scene.playing saber_ultimate)
                           (Scene.mkFrame 0.6 false Scene.right_hand_on_note)
                           (Scene.one_active Scene.sample_note))
  /\ exists n',
      Scene.notesState
        (fst (Scene.useFrame (Scene.playing saber_ultimate)
                             (Scene.mkFrame 0.6 false Scene.right_hand_on_note)
                             (Scene.one_active Scene.sample_note))) !! 0%nat = Some n'
      /\ missed n' = true /\ hit n' = false.
Proof.
  split; [reflexivity|].
  destruct (miss_plane_before_hit_test
              (Scene.playing saber_ultimate)
              (Scene.mkFrame 0.6 false Scene.right_hand_on_note)
              (Scene.one_active Scene.sample_note) 0%nat Scene.sample_note)
    as (_ & _ & Hmiss & _ & n' & Hn' & Hm & Hh & _); try reflexivity.
  - vm_compute. constructor.
  - split; [exact Hmiss|]. exists n'. repeat split; assumption.
Defined.

(** ** Gold stars and the wrong hand *)










(** ** Resolution flags *)

Section Pushes.

Variables (rnd : nat -> Q) (good : NoteData -> Prop).

Lemma pushes_ret {A} (a : A) : Chart.pushes good (Chart.ret a).
Proof. intros g. exists []. rewrite app_nil_r. split; constructor. Qed.

Lemma pushes_random : Chart.pushes good (Chart.random rnd).
Proof. intros g. exists []. simpl. rewrite app_nil_r. split; constructor. Qed.

Lemma pushes_fresh_id (prefix : string) : Chart.pushes good (Chart.fresh_id prefix).
Proof. intros g. exists []. simpl. rewrite app_nil_r. split; constructor. Qed.

Lemma pushes_bump_count : Chart.pushes good Chart.bump_count.
Proof. intros g. exists []. simpl. rewrite app_nil_r. split; constructor. Qed.

Lemma pushes_push (n : NoteData) : good n -> Chart.pushes good (Chart.push n).
Proof. intros H g. exists [n]. simpl. split; [reflexivity|]. repeat constructor. exact H. Qed.

Lemma pushes_bind {A B} (m : Chart.M A) (k : A -> Chart.M B) :
  Chart.pushes good m -> (forall a, Chart.pushes good (k a)) ->
  Chart.pushes good (Chart.bind m k).
Proof.
  intros Hm Hk g. unfold Chart.bind.
  destruct (Hm g) as (n1 & E1 & G1).
  destruct (m g) as [a g1]. simpl in *.
  destruct (Hk a g1) as (n2 & E2 & G2).
  exists (n1 ++ n2). rewrite E2, E1, app_assoc.
  split; [reflexivity|]. apply Forall_app; split; assumption.
Qed.

End Pushes.

Ltac pushes_step side :=
  first
    [ apply pushes_bind; [|intro]
    | apply pushes_ret
    | apply pushes_random
    | apply pushes_fresh_id
    | apply pushes_bump_count
    | apply pushes_push; side
    | match goal with
      | |- Chart.pushes _ (if ?b then _ else _) => destruct b
      end ].

Lemma beat_pushes_fresh (rnd : nat -> Q) (d : Difficulty) (i : nat) :
  Chart.pushes Chart.fresh (Chart.beat rnd d i).
Proof.
  unfold Chart.beat, Chart.beat_kept, Chart.sub_beats, Chart.gold_star,
    Chart.phase_notes, Chart.random_index.
  repeat pushes_step ltac:(repeat split).
Qed.

Lemma beats_fresh (rnd : nat -> Q) (d : Difficulty) (n from : nat) (g : Chart.Gen) :
  Forall Chart.fresh (Chart.notes g) ->
  Forall Chart.fresh (Chart.notes (Chart.beats rnd d from n g)).
Proof.
  unfold Chart.beats. revert from g.
  induction n as [|n IH]; intros from g Hg; simpl; [exact Hg|].
  apply IH. unfold Chart.exec.
  destruct (beat_pushes_fresh rnd d from g) as (new & E & Hnew).
  rewrite E. apply Forall_app; split; assumption.
Qed.

Lemma generateChart_fresh (rnd : nat -> Q) (d : Difficulty) :
  Forall Chart.fresh (Chart.generateChart rnd d).
Proof.
  unfold Chart.generateChart.
  eapply Permutation_Forall; [symmetry; apply sort_perm|].
  apply beats_fresh. constructor.
Qed.

Lemma coherent_spec (n : NoteData) :
  Scene.coherent n = true <->
  ~ (hit n = true /\ missed n = true) /\ (is_Some (hitTime n) <-> hit n = true).
Proof.
  unfold Scene.coherent, is_Some.
  destruct (hit n), (missed n), (hitTime n) as [t|]; simpl;
    (split; [intros E | intros [H1 [H2 H3]]]);
    try discriminate; try reflexivity;
    try (exfalso; apply H1; split; reflexivity);
    try (destruct (H3 eq_refl); discriminate);
    try (assert (E : true = false) by (apply eq_sym, H2; eauto); discriminate).
  all: split; [intros [? ?]; discriminate|].
  all: split; [try (intros _; reflexivity); intros [? ?]; discriminate|].
  all: first [discriminate | intros _; eexists; reflexivity].
Qed.

Lemma fresh_coherent (n : NoteData) : Chart.fresh n -> Scene.coherent n = true.
Proof. unfold Scene.coherent. intros (-> & -> & ->). reflexivity. Qed.

Lemma settle_coherent (P : Scene.Props) (F : Scene.Frame) (n : NoteData) :
  Scene.coherent n = true -> Scene.coherent (Scene.settle P F n) = true.
Proof.
  intros Hc. unfold Scene.settle.
  destruct (hit n || missed n) eqn:E; [exact Hc|].
  apply orb_false_elim in E as [Eh Em].
  unfold Scene.coherent in *. rewrite Eh, Em in Hc. simpl in Hc.
  destruct (hitTime n) eqn:Et; [discriminate|].
  destruct (Scene.resolve P F n); simpl; rewrite ?Eh, ?Em, ?Et; reflexivity.
Qed.

(** A frame leaves every note as it was or settles it. *)
Lemma useFrame_note (P : Scene.Props) (F : Scene.Frame) (r : Scene.Refs) (k : nat) :
  Scene.notesState (fst (Scene.useFrame P F r)) !! k = Scene.notesState r !! k
  \/ Scene.notesState (fst (Scene.useFrame P F r)) !! k
     = Scene.settle P F <$> Scene.notesState r !! k.
Proof.
  destruct (Scene.gameStatus P) eqn:Hp;
    try (left; unfold Scene.useFrame; rewrite Hp; reflexivity).
  destruct (Scene.ended F) eqn:He;
    [left; unfold Scene.useFrame; rewrite Hp, He; reflexivity|].
  destruct (useFrame_playing P F r Hp He) as [Hs _].
  rewrite Hs. unfold Scene.settled_after.
  destruct (bool_decide _); [right|left];
    destruct (Scene.notesState r !! k); reflexivity.
Qed.

Lemma frames_coherent (fs : list (Scene.Props * Scene.Frame)) (r : Scene.Refs) :
  (forall k n, Scene.notesState r !! k = Some n -> Scene.coherent n = true) ->
  forall k n, Scene.notesState (Scene.frames fs r) !! k = Some n ->
              Scene.coherent n = true.
Proof.
  unfold Scene.frames. revert r.
  induction fs as [|[P F] fs IH]; intros r Hr; simpl; [exact Hr|].
  apply IH. intros k n Hn.
  destruct (useFrame_note P F r k) as [E|E]; rewrite E in Hn.
  - eapply Hr, Hn.
  - destruct (Scene.notesState r !! k) as [n0|] eqn:E0; [|discriminate].
    simpl in Hn. injection Hn as <-. apply settle_coherent. eapply Hr, E0.
Qed.

Lemma frames_frozen (fs : list (Scene.Props * Scene.Frame)) (r : Scene.Refs)
      (k : nat) (n : NoteData) :
  Scene.notesState r !! k = Some n ->
  hit n || missed n = true ->
  Scene.notesState (Scene.frames fs r) !! k = Some n.
Proof.
  unfold Scene.frames. revert r.
  induction fs as [|[P F] fs IH]; intros r Hn Hres; simpl; [exact Hn|].
  apply IH; [|exact Hres].
  destruct (useFrame_note P F r k) as [E|E]; rewrite E, Hn; [reflexivity|].
  simpl. rewrite (settle_resolved P F n Hres). reflexivity.
Qed.

(** C3: a note is resolved at most once in a session. The notes of a
    generated chart are unresolved. From any store of coherent notes, and
    so from the start of a session, after any sequence of frames a note is
    never both hit and missed and has a hit time exactly when it is hit;
    and once one of its flags is set, no later frame changes the note. *)
Theorem note_resolved_at_most_once :
  (forall rnd d k n,
      Scene.notesState (Scene.start (Chart.generateChart rnd d)) !! k = Some n ->
      hit n = false /\ missed n = false /\ hitTime n = None)
  /\ (forall (r : Scene.Refs) (fs1 fs2 : list (Scene.Props * Scene.Frame))
             (k : nat) (n : NoteData),
         forallb Scene.coherent (Scene.notesState r) = true ->
         Scene.notesState (Scene.frames fs1 r) !! k = Some n ->
         ~ (hit n = true /\ missed n = true)
         /\ (is_Some (hitTime n) <-> hit n = true)
         /\ (hit n = true \/ missed n = true ->
             Scene.notesState (Scene.frames fs2 (Scene.frames fs1 r)) !! k = Some n)).
Proof.
  split.
  - intros rnd d k n Hn. simpl in Hn.
    pose proof (generateChart_fresh rnd d) as Hf.
    rewrite Forall_forall in Hf. apply Hf.
    eapply list_elem_of_lookup_2, Hn.
  - intros r fs1 fs2 k n Hr Hn.
    assert (Hc : Scene.coherent n = true).
    { eapply frames_coherent; [|exact Hn].
      intros k' n' Hk'. rewrite forallb_forall in Hr. apply Hr.
      apply list_elem_of_In. eapply list_elem_of_lookup_2, Hk'. }
    apply coherent_spec in Hc as [H1 H2].
    split; [exact H1|]. split; [exact H2|].
    intros Hres. apply frames_frozen; [exact Hn|].
    destruct Hres as [->| ->]; [reflexivity | apply orb_true_r].
Qed.

(** A note missed in one frame is the same note after a later frame in
    which a hand is on its slot. *)
Lemma note_resolved_at_most_once_witness :
  Scene.notesState
    (Scene.frames [(Scene.playing saber_default,
                    Scene.mkFrame 0.7 false Scene.right_hand_on_note)]
       (Scene.frames [(Scene.playing saber_default,
                       Scene.mkFrame 0.6 false Scene.right_hand_on_note)]
          (Scene.start [Scene.sample_note]))) !! 0%nat
  = Some (Scene.set_missed Scene.sample_note).
Proof.
  destruct note_resolved_at_most_once as [_ H].
  destruct (H (Scene.start [Scene.sample_note])
              [(Scene.playing saber_default,
                Scene.mkFrame 0.6 false Scene.right_hand_on_note)]
              [(Scene.playing saber_default,
                Scene.mkFrame 0.7 false Scene.right_hand_on_note)]
              0%nat (Scene.set_missed Scene.sample_note)
              eq_refl eq_refl) as (_ & _ & Hfrozen).
  apply Hfrozen. right. reflexivity.
Defined.

(* ================================================================== *)
(** * Further properties of the chart generator *)

Lemma random_index_lt (r : Q) (m : Z) :
  0 <= r -> r < 1 -> (0 < m)%Z ->
  (Z.to_nat (Num.floor (r * inject_Z m)) < Z.to_nat m)%nat.
Proof.
  intros H0 H1 Hm. unfold Num.floor.
  assert (Hlt : (Qfloor (r * inject_Z m) < m)%Z).
  { rewrite Zlt_Qlt. eapply Qle_lt_trans; [apply Qfloor_le|].
    assert (0 < inject_Z m)
      by (change (inject_Z 0 < inject_Z m); rewrite <- Zlt_Qlt; exact Hm).
    nra. }
  assert (Hge : (0 <= Qfloor (r * inject_Z m))%Z).
  { rewrite <- (Qfloor_Z 0). apply Qfloor_resp_le.
    assert (0 < inject_Z m)
      by (change (inject_Z 0 < inject_Z m); rewrite <- Zlt_Qlt; exact Hm).
    change (inject_Z 0) with 0. nra. }
  lia.
Qed.

Lemma sub_beat_offsets :
  (0 <= BEAT_TIME / 2 /\ BEAT_TIME / 2 <= 0.75 * BEAT_TIME)
  /\ (0 <= BEAT_TIME * 0.25 /\ BEAT_TIME * 0.25 <= 0.75 * BEAT_TIME)
  /\ (0 <= BEAT_TIME * 0.75 /\ BEAT_TIME * 0.75 <= 0.75 * BEAT_TIME)
  /\ 0 <= 0.75 * BEAT_TIME.
Proof. repeat split; vm_compute; discriminate. Qed.

Ltac beat_run :=
  unfold Chart.exec, Chart.beat, Chart.beat_kept, Chart.sub_beats, Chart.gold_star,
    Chart.phase_notes, Chart.random_index, Chart.bind, Chart.ret, Chart.random,
    Chart.fresh_id, Chart.push, Chart.bump_count, Chart.note;
  cbn [fst snd Chart.notes Chart.idCount Chart.generatedNoteCount Chart.calls
       Difficulty_eqb orb];
  repeat (match goal with
          | |- context [if ?b then _ else _] => destruct b eqn:?
          end;
          cbn [fst snd Chart.notes Chart.idCount Chart.generatedNoteCount
               Chart.calls]).

Lemma window_main (t w : Q) : 0 <= w -> t <= t /\ t <= t + w.
Proof. intros H. split; lra. Qed.

Lemma window_offset (t o w : Q) : 0 <= o -> o <= w -> t <= t + o /\ t + o <= t + w.
Proof. intros H1 H2. split; lra. Qed.

Ltac time_window :=
  unfold Chart.beat_time;
  destruct sub_beat_offsets as ((? & ?) & (? & ?) & (? & ?) & ?);
  first [ apply window_main; assumption
        | apply window_offset; assumption ].

Ltac in_range U :=
  intros U; split;
  first [ lia
        | match goal with
          | |- (Z.to_nat ((Qnum ?r * 4) `div` _) < 4)%nat =>
              apply (random_index_lt r 4); [apply U | apply U | lia]
          | |- (Z.to_nat ((Qnum ?r * 3) `div` _) < 3)%nat =>
              apply (random_index_lt r 3); [apply U | apply U | lia]
          end
        | destruct (Num.ltb _ _); lia
        | match goal with |- context [if ?b then _ else _] => destruct b; lia end ].

Ltac one_pushed :=
  unfold Chart.pushed_at; cbn [id time lineIndex lineLayer cutDirection isGoldStar];
  split; [first [ exists "note-sub-1-"%string; split; [reflexivity|]
                | exists "note-sub-2-"%string; split; [reflexivity|]
                | exists "note-sub-3-"%string; split; [reflexivity|]
                | exists "gold-"%string; split; [reflexivity|]
                | exists "note-"%string; split; [reflexivity|] ];
          unfold Chart.id_prefixes; mem|];
  split; [time_window|];
  split; [intros Hd; unfold Chart.beat_time; try reflexivity; try congruence|];
  split; [intros Hg; try discriminate; unfold Chart.beat_time;
          repeat split; try reflexivity; auto|];
  split; [intros He; try reflexivity; try discriminate|];
  split; [let U := fresh "U" in in_range U | repeat split].

(** What one iteration of the loop pushes: every note takes the next
    identifier number and has the shape [pushed_at]. *)
Lemma beat_pushed (rnd : nat -> Q) (d : Difficulty) (i : nat)
      (ns : list NoteData) (ic gc cl : nat) :
  exists new,
    Chart.notes (Chart.exec (Chart.beat rnd d i) (Chart.mkGen ns ic gc cl)) = ns ++ new
    /\ Chart.idCount (Chart.exec (Chart.beat rnd d i) (Chart.mkGen ns ic gc cl))
       = (length new + ic)%nat
    /\ forall j n, new !! j = Some n -> Chart.pushed_at rnd d i (j + ic) n.
Proof.
  destruct d; beat_run.
  all: rewrite <- ?app_assoc; eexists;
    (split; [try reflexivity; symmetry; apply app_nil_r|]);
    (split; [reflexivity|]).
  all: intros j n Hj; try (rewrite lookup_nil in Hj; discriminate).
  all: repeat (destruct j as [|j]; cbn [lookup list_lookup] in Hj;
               [injection Hj as <-|]; try discriminate).
  all: one_pushed.
Qed.

(** ** Identifiers *)

Lemma to_uint_not_nil (k : nat) : Nat.to_uint k <> Decimal.Nil.
Proof.
  intros H. pose proof (DecimalNat.Unsigned.of_to k) as E. rewrite H in E.
  simpl in E. subst k. discriminate H.
Qed.

Lemma dec_inj (a b : nat) : Chart.dec a = Chart.dec b -> a = b.
Proof.
  unfold Chart.dec. intros H.
  apply DecimalNat.Unsigned.to_uint_inj.
  pose proof (NilZero.usu _ (to_uint_not_nil a)) as Ha.
  pose proof (NilZero.usu _ (to_uint_not_nil b)) as Hb.
  rewrite H in Ha. congruence.
Qed.

Lemma dec_not_letter (k : nat) (rest : string) : Chart.dec k <> String "s"%char rest.
Proof.
  unfold Chart.dec. pose proof (to_uint_not_nil k) as H.
  destruct (Nat.to_uint k); try contradiction; simpl; discriminate.
Qed.

Ltac peel H :=
  repeat first
    [ discriminate H
    | apply dec_not_letter in H; contradiction
    | symmetry in H; apply dec_not_letter in H; contradiction
    | injection H as H ].

(** An identifier determines the number it was built from. *)
Lemma id_number_unique (p q : string) (a b : nat) :
  p ∈ Chart.id_prefixes -> q ∈ Chart.id_prefixes ->
  (p ++ Chart.dec a)%string = (q ++ Chart.dec b)%string -> a = b.
Proof.
  unfold Chart.id_prefixes. rewrite !elem_of_cons, !elem_of_nil.
  intros Hp Hq H.
  destruct Hp as [->|[->|[->|[->|[->|[]]]]]];
    destruct Hq as [->|[->|[->|[->|[->|[]]]]]];
    cbn [append] in H; peel H; apply dec_inj; exact H.
Qed.

(** ** From one beat to the chart *)

Lemma beats_pushed (rnd : nat -> Q) (d : Difficulty) (n from : nat) (g : Chart.Gen) :
  exists (new : list NoteData) (bs : list nat),
    Chart.notes (Chart.beats rnd d from n g) = Chart.notes g ++ new
    /\ Chart.idCount (Chart.beats rnd d from n g) = (length new + Chart.idCount g)%nat
    /\ (forall j x, new !! j = Some x ->
                    exists i, bs !! j = Some i
                              /\ Chart.pushed_at rnd d i (j + Chart.idCount g) x)
    /\ (forall j i, bs !! j = Some i -> (from <= i < from + n)%nat)
    /\ (forall j1 j2 i1 i2, (j1 <= j2)%nat ->
                            bs !! j1 = Some i1 -> bs !! j2 = Some i2 -> (i1 <= i2)%nat).
Proof.
  revert from g. induction n as [|n IH]; intros from g.
  - exists [], []. unfold Chart.beats. simpl. rewrite app_nil_r.
    repeat split; intros; try (rewrite lookup_nil in *; discriminate).
  - unfold Chart.beats in *. simpl.
    destruct g as [ns ic gc cl].
    destruct (beat_pushed rnd d from ns ic gc cl) as (new1 & E1 & C1 & S1).
    destruct (IH (S from) (Chart.exec (Chart.beat rnd d from) (Chart.mkGen ns ic gc cl)))
      as (new2 & bs2 & E2 & C2 & S2 & R2 & M2).
    exists (new1 ++ new2), (replicate (length new1) from ++ bs2).
    cbn [Chart.notes Chart.idCount]. rewrite E2, C2, E1, C1, length_app, app_assoc.
    split; [reflexivity|]. split; [lia|]. split; [|split].
    + intros j x Hj. apply lookup_app_Some in Hj as [Hj|[Hge Hj]].
      * exists from. split; [|apply S1, Hj].
        rewrite lookup_app_l by (rewrite length_replicate; eapply lookup_lt_Some, Hj).
        apply lookup_replicate_2. eapply lookup_lt_Some, Hj.
      * destruct (S2 _ _ Hj) as (i & Hb & Hp). exists i. split.
        -- rewrite lookup_app_r by (rewrite length_replicate; exact Hge).
           rewrite length_replicate. exact Hb.
        -- rewrite C1 in Hp.
           replace (j + ic)%nat with (j - length new1 + (length new1 + ic))%nat by lia.
           exact Hp.
    + intros j i Hj. apply lookup_app_Some in Hj as [Hj|[Hge Hj]].
      * apply lookup_replicate in Hj as [-> _]. lia.
      * apply R2 in Hj. lia.
    + intros j1 j2 i1 i2 Hle H1 H2.
      apply lookup_app_Some in H1 as [H1|[Hge1 H1]];
        apply lookup_app_Some in H2 as [H2|[Hge2 H2]].
      * apply lookup_replicate in H1 as [-> _]. apply lookup_replicate in H2 as [-> _]. lia.
      * apply lookup_replicate in H1 as [-> _]. apply R2 in H2. lia.
      * apply lookup_replicate in H2 as [_ H2]. rewrite length_replicate in Hge1. lia.
      * eapply (M2 (j1 - _)%nat (j2 - _)%nat); [|exact H1|exact H2]. lia.
Qed.

(** Every emitted note was pushed in some beat, took its position as
    identifier number, and the beats do not decrease along the emission. *)
Lemma emitted_pushed (rnd : nat -> Q) (d : Difficulty) :
  exists bs : list nat,
    (forall j x, Chart.emitted rnd d !! j = Some x ->
                 exists i, bs !! j = Some i /\ (4 <= i < 300)%nat
                           /\ Chart.pushed_at rnd d i j x)
    /\ (forall j1 j2 i1 i2, (j1 <= j2)%nat ->
                            bs !! j1 = Some i1 -> bs !! j2 = Some i2 -> (i1 <= i2)%nat).
Proof.
  destruct (beats_pushed rnd d 296 4 (Chart.mkGen [] 0 0 0))
    as (new & bs & E & _ & S & R & M).
  exists bs. split; [|exact M].
  intros j x Hj. unfold Chart.emitted in Hj. rewrite E in Hj. simpl in Hj.
  destruct (S _ _ Hj) as (i & Hb & Hp). exists i.
  split; [exact Hb|]. split; [apply R in Hb; lia|].
  simpl in Hp. rewrite Nat.add_0_r in Hp. exact Hp.
Qed.

Lemma chart_note_pushed (rnd : nat -> Q) (d : Difficulty) (n : NoteData) :
  n ∈ Chart.generateChart rnd d ->
  exists i k, (4 <= i < 300)%nat /\ Chart.pushed_at rnd d i k n.
Proof.
  intros Hn. apply list_elem_of_In in Hn.
  apply (Permutation_in _ (sort_perm _)) in Hn. apply list_elem_of_In in Hn.
  apply list_elem_of_lookup in Hn as [j Hj].
  destruct (emitted_pushed rnd d) as (bs & S & _).
  destruct (S _ _ Hj) as (i & _ & Hi & Hp). eauto.
Qed.

(** X1: the identifiers of the notes of a chart are pairwise distinct. *)
Theorem chart_ids_distinct (rnd : nat -> Q) (d : Difficulty) :
  NoDup (map id (Chart.generateChart rnd d)).
Proof.
  apply NoDup_ListNoDup. eapply Permutation_NoDup.
  { apply Permutation_map. symmetry. apply sort_perm. }
  apply NoDup_ListNoDup, NoDup_alt. intros j1 j2 s H1 H2.
  change (map id (Chart.emitted rnd d)) with (id <$> Chart.emitted rnd d) in *.
  rewrite list_lookup_fmap in H1, H2.
  destruct (Chart.emitted rnd d !! j1) as [x1|] eqn:E1; [|discriminate].
  destruct (Chart.emitted rnd d !! j2) as [x2|] eqn:E2; [|discriminate].
  simpl in H1, H2.
  destruct (emitted_pushed rnd d) as (bs & S & _).
  destruct (S _ _ E1) as (i1 & _ & _ & (p1 & Hid1 & Hp1) & _).
  destruct (S _ _ E2) as (i2 & _ & _ & (p2 & Hid2 & Hp2) & _).
  apply (id_number_unique p1 p2); [assumption..|]. congruence.
Qed.

(** X2: when the random outcomes lie in [0, 1), every note of a chart
    sits in one of the 4 lanes and 3 layers, so that its slot has
    coordinates and the distance from a hand to it is defined. *)
Theorem chart_slots_in_range (rnd : nat -> Q) (d : Difficulty) (n : NoteData) :
  Chart.unit_random rnd ->
  n ∈ Chart.generateChart rnd d ->
  (lineIndex n < 4)%nat /\ (lineLayer n < 3)%nat
  /\ forall h, is_Some (Scene.distXY2 h n).
Proof.
  intros U Hn. destruct (chart_note_pushed rnd d n Hn) as (i & k & _ & Hp).
  destruct Hp as (_ & _ & _ & _ & _ & Hr & _). destruct (Hr U) as [H4 H3].
  split; [exact H4|]. split; [exact H3|].
  intros h. unfold Scene.distXY2.
  destruct (lookup_lt_is_Some_2 LANE_X_POSITIONS (lineIndex n) H4) as [nx ->].
  destruct (lookup_lt_is_Some_2 LAYER_Y_POSITIONS (lineLayer n) H3) as [ny ->].
  eauto.
Qed.

Lemma chart_slots_in_range_witness :
  (lineIndex Chart.sample_easy_note < 4)%nat
  /\ (lineLayer Chart.sample_easy_note < 3)%nat.
Proof.
  destruct (chart_slots_in_range (fun _ => 0.5) EASY Chart.sample_easy_note)
    as (H4 & H3 & _).
  - intros m. split; [discriminate | reflexivity].
  - apply (list_elem_of_lookup_2 _ 0%nat). vm_compute. reflexivity.
  - split; assumption.
Defined.

Lemma beat_time_bounds (i : nat) :
  (4 <= i < 300)%nat -> 4 * BEAT_TIME <= Chart.beat_time i
                        /\ Chart.beat_time i <= 299 * BEAT_TIME.
Proof.
  intros [H4 H300]. unfold Chart.beat_time.
  assert (HB : 0 < BEAT_TIME) by reflexivity.
  assert (L : inject_Z 4 <= inject_Z (Z.of_nat i)) by (rewrite <- Zle_Qle; lia).
  assert (U : inject_Z (Z.of_nat i) <= inject_Z 299) by (rewrite <- Zle_Qle; lia).
  change (inject_Z 4) with 4 in L. change (inject_Z 299) with 299 in U.
  split; nra.
Qed.

(** X3: every note of a chart is due between beat 4 and three quarters
    of a beat after beat 299, and a note of a difficulty other than
    IMPOSSIBLE is due exactly on a beat. *)
Theorem chart_times_in_song (rnd : nat -> Q) (d : Difficulty) (n : NoteData) :
  n ∈ Chart.generateChart rnd d ->
  (4 * BEAT_TIME <= time n /\ time n <= 299.75 * BEAT_TIME)
  /\ (d <> IMPOSSIBLE -> exists i, (4 <= i < 300)%nat /\ time n = Chart.beat_time i).
Proof.
  intros Hn. destruct (chart_note_pushed rnd d n Hn) as (i & k & Hi & Hp).
  destruct Hp as (_ & (Hlo & Hhi) & Hbeat & _).
  destruct (beat_time_bounds i Hi) as [B4 B299].
  assert (HB : 0 < BEAT_TIME) by reflexivity.
  split; [split; lra|]. intros Hd. exists i. split; [exact Hi | apply Hbeat, Hd].
Qed.

Lemma chart_times_in_song_witness :
  4 * BEAT_TIME <= time Chart.sample_easy_note.
Proof.
  destruct (chart_times_in_song (fun _ => 0.5) EASY Chart.sample_easy_note)
    as [[H _] _].
  - apply (list_elem_of_lookup_2 _ 0%nat). vm_compute. reflexivity.
  - exact H.
Defined.

(** X4: every gold star of a chart is due on a beat, sits in one of the
    two centre lanes at mid height and accepts any cut direction; and on
    EASY no note asks for a cut direction. *)
Theorem chart_gold_stars_centred (rnd : nat -> Q) (d : Difficulty) (n : NoteData) :
  n ∈ Chart.generateChart rnd d ->
  (isGoldStar n = true ->
   (exists i, (4 <= i < 300)%nat /\ time n = Chart.beat_time i)
   /\ (lineIndex n = 1%nat \/ lineIndex n = 2%nat)
   /\ lineLayer n = 1%nat /\ cutDirection n = ANY)
  /\ (d = EASY -> cutDirection n = ANY).
Proof.
  intros Hn. destruct (chart_note_pushed rnd d n Hn) as (i & k & Hi & Hp).
  destruct Hp as (_ & _ & _ & Hg & He & _).
  split; [|exact He]. intros G. destruct (Hg G) as (T & L & Y & C).
  split; [exists i; auto|]. auto.
Qed.

Lemma chart_gold_stars_centred_witness :
  cutDirection Chart.sample_easy_note = ANY.
Proof.
  destruct (chart_gold_stars_centred (fun _ => 0.5) EASY Chart.sample_easy_note)
    as [_ H].
  - apply (list_elem_of_lookup_2 _ 0%nat). vm_compute. reflexivity.
  - apply H. reflexivity.
Defined.

(** ** The sort *)

Lemma insert_last (x : NoteData) (acc : list NoteData) :
  Forall (fun y => time y <= time x) acc -> Chart.insert x acc = acc ++ [x].
Proof.
  induction 1 as [|y acc Hy _ IH]; simpl; [reflexivity|].
  apply ltb_ge in Hy. rewrite Hy, IH. reflexivity.
Qed.

Lemma sort_from_ordered (l acc : list NoteData) :
  StronglySorted Chart.le_time (acc ++ l) ->
  fold_left (fun acc x => Chart.insert x acc) l acc = acc ++ l.
Proof.
  revert acc. induction l as [|x l IH]; intros acc Hs; simpl.
  - rewrite app_nil_r. reflexivity.
  - rewrite insert_last.
    + rewrite IH; rewrite <- app_assoc; [reflexivity | exact Hs].
    + clear IH. induction acc as [|y acc IHa]; [constructor|].
      simpl in Hs. apply StronglySorted_inv in Hs as [Hs Hy].
      constructor; [|apply IHa, Hs].
      rewrite Forall_forall in Hy. apply Hy. apply elem_of_app. right. left.
Qed.

Lemma non_decreasing_sorted (l : list NoteData) :
  Chart.non_decreasing l -> StronglySorted Chart.le_time l.
Proof.
  induction l as [|x l IH]; intros H; constructor.
  - apply IH. intros i j a b Hij Ha Hb. apply (H (S i) (S j)); [lia|assumption..].
  - apply Forall_forall. intros y Hy. apply list_elem_of_lookup in Hy as [j Hj].
    apply (H 0%nat (S j)); [lia | reflexivity | exact Hj].
Qed.

(** X5: the sort leaves a sequence that is already in time order as it
    is; the notes of every difficulty but IMPOSSIBLE are emitted in time
    order, so that their chart is the emitted sequence itself. *)
Theorem sort_keeps_ordered_emission :
  (forall l, Chart.non_decreasing l -> Chart.sort l = l)
  /\ (forall rnd d, d <> IMPOSSIBLE ->
                    Chart.non_decreasing (Chart.emitted rnd d)
                    /\ Chart.generateChart rnd d = Chart.emitted rnd d).
Proof.
  assert (Hid : forall l, Chart.non_decreasing l -> Chart.sort l = l).
  { intros l H. unfold Chart.sort. rewrite sort_from_ordered; [reflexivity|].
    apply non_decreasing_sorted, H. }
  split; [exact Hid|]. intros rnd d Hd.
  assert (Hn : Chart.non_decreasing (Chart.emitted rnd d)).
  { destruct (emitted_pushed rnd d) as (bs & S & M).
    intros j1 j2 a b Hle Ha Hb.
    destruct (S _ _ Ha) as (i1 & B1 & _ & _ & _ & T1 & _).
    destruct (S _ _ Hb) as (i2 & B2 & _ & _ & _ & T2 & _).
    rewrite (T1 Hd), (T2 Hd). unfold Chart.beat_time.
    pose proof (M _ _ _ _ Hle B1 B2) as Hi.
    assert (HB : 0 < BEAT_TIME) by reflexivity.
    assert (inject_Z (Z.of_nat i1) <= inject_Z (Z.of_nat i2))
      by (rewrite <- Zle_Qle; lia).
    nra. }
  split; [exact Hn|]. apply Hid, Hn.
Qed.

Lemma sort_keeps_ordered_emission_witness :
  Chart.generateChart (fun _ => 0.5) EASY = Chart.emitted (fun _ => 0.5) EASY.
Proof.
  destruct sort_keeps_ordered_emission as [_ H].
  apply (H (fun _ => 0.5) EASY). discriminate.
Defined.

Lemma due_at_app (t : Q) (a b : list NoteData) :
  Chart.due_at t (a ++ b) = Chart.due_at t a ++ Chart.due_at t b.
Proof. apply List.filter_app. Qed.

Lemma due_at_cons (t : Q) (x : NoteData) (l : list NoteData) :
  Chart.due_at t (x :: l) = Chart.due_at t [x] ++ Chart.due_at t l.
Proof. apply (due_at_app t [x] l). Qed.

Lemma due_at_later (t : Q) (x : NoteData) (l : list NoteData) :
  time x == t -> Forall (fun y => time x < time y) l -> Chart.due_at t l = [].
Proof.
  intros Hx. induction 1 as [|y l Hy _ IH]; [reflexivity|].
  rewrite due_at_cons, IH, app_nil_r. unfold Chart.due_at. simpl.
  destruct (Qeq_bool (time y) t) eqn:E; [|reflexivity].
  apply Qeq_bool_iff in E. lra.
Qed.

Lemma due_at_insert (t : Q) (x : NoteData) (acc : list NoteData) :
  StronglySorted Chart.le_time acc ->
  Chart.due_at t (Chart.insert x acc) = Chart.due_at t acc ++ Chart.due_at t [x].
Proof.
  induction 1 as [|y acc Hs IH Hy]; [reflexivity|].
  cbn [Chart.insert].
  destruct (Num.ltb (time x) (time y)) eqn:E.
  - apply ltb_lt in E. rewrite due_at_cons.
    destruct (Qeq_bool (time x) t) eqn:Ex.
    + apply Qeq_bool_iff in Ex.
      rewrite (due_at_later t x (y :: acc) Ex); [rewrite app_nil_r; reflexivity|].
      constructor; [exact E|].
      eapply Forall_impl; [exact Hy|]. unfold Chart.le_time. intros z Hz. lra.
    + assert (Hn : Chart.due_at t [x] = []).
      { unfold Chart.due_at. simpl. rewrite Ex. reflexivity. }
      rewrite Hn, app_nil_r. reflexivity.
  - rewrite (due_at_cons t y (Chart.insert x acc)), (due_at_cons t y acc), IH, app_assoc.
    reflexivity.
Qed.

(** X6: the sort is stable: the notes due at one time come out in the
    order in which they went in (the left note of a double stays before
    the right one). *)
Theorem sort_is_stable (l : list NoteData) (t : Q) :
  Chart.due_at t (Chart.sort l) = Chart.due_at t l.
Proof.
  unfold Chart.sort.
  assert (H : forall acc, StronglySorted Chart.le_time acc ->
              Chart.due_at t (fold_left (fun acc x => Chart.insert x acc) l acc)
              = Chart.due_at t acc ++ Chart.due_at t l).
  { induction l as [|x l IH]; intros acc Hacc; cbn [fold_left].
    - change (Chart.due_at t []) with (@nil NoteData). rewrite app_nil_r. reflexivity.
    - rewrite IH by (apply insert_sorted, Hacc).
      rewrite due_at_insert by exact Hacc.
      rewrite (due_at_cons t x l), app_assoc. reflexivity. }
  rewrite H by constructor. reflexivity.
Qed.

(** ** The number of gold stars *)

Lemma beats_kept (rnd : nat -> Q) (d : Difficulty) (n from : nat) (g : Chart.Gen) :
  (Chart.generatedNoteCount (Chart.beats rnd d from n g)
   <= n + Chart.generatedNoteCount g)%nat
  /\ ((forall m, Chart.skipRate d <= rnd m) ->
      Chart.generatedNoteCount (Chart.beats rnd d from n g)
      = (n + Chart.generatedNoteCount g)%nat).
Proof.
  unfold Chart.beats. revert from g.
  induction n as [|n IH]; intros from g; simpl; [split; [lia|reflexivity]|].
  pose proof (beat_effect rnd d from g) as H. cbv zeta in H.
  destruct (IH (S from) (Chart.exec (Chart.beat rnd d from) g)) as [IH1 IH2].
  destruct (Num.ltb (rnd (Chart.calls g)) (Chart.skipRate d)) eqn:E.
  - destruct H as [_ Hc]. rewrite Hc in *. split; [lia|].
    intros Hs. apply ltb_lt in E. specialize (Hs (Chart.calls g)). lra.
  - destruct H as [Hc _]. rewrite Hc in *. split; [lia|].
    intros Hs. rewrite (IH2 Hs). lia.
Qed.

(** X7: a chart holds at most 5 gold stars, and exactly 5 when no beat is
    skipped, as on IMPOSSIBLE, whose skip rate is 0. *)
Theorem chart_gold_star_count (rnd : nat -> Q) (d : Difficulty) :
  (Chart.gold_count (Chart.generateChart rnd d) <= 5)%nat
  /\ ((forall m, Chart.skipRate d <= rnd m) ->
      Chart.gold_count (Chart.generateChart rnd d) = 5%nat)
  /\ (Chart.unit_random rnd ->
      Chart.gold_count (Chart.generateChart rnd IMPOSSIBLE) = 5%nat).
Proof.
  assert (E : forall d', Chart.gold_count (Chart.generateChart rnd d')
                         = (Chart.kept_beats rnd d' / 50)%nat).
  { intros d'. unfold Chart.generateChart, Chart.emitted, Chart.kept_beats.
    rewrite gold_count_sort. apply beats_gold_count. reflexivity. }
  assert (K : forall d', (forall m, Chart.skipRate d' <= rnd m) ->
                         Chart.gold_count (Chart.generateChart rnd d') = 5%nat).
  { intros d' Hs. rewrite E. unfold Chart.kept_beats.
    destruct (beats_kept rnd d' 296 4 (Chart.mkGen [] 0 0 0)) as [_ H].
    rewrite (H Hs). reflexivity. }
  split; [|split].
  - rewrite E. unfold Chart.kept_beats.
    destruct (beats_kept rnd d 296 4 (Chart.mkGen [] 0 0 0)) as [H _].
    cbn [Chart.generatedNoteCount] in H. rewrite Nat.add_0_r in H.
    change 5%nat with (296 / 50)%nat. apply Nat.Div0.div_le_mono, H.
  - apply K.
  - intros U. apply K. intros m. apply U.
Qed.

Lemma chart_gold_star_count_witness :
  Chart.gold_count (Chart.generateChart (fun _ => 0.5) IMPOSSIBLE) = 5%nat.
Proof.
  destruct (chart_gold_star_count (fun _ => 0.5) IMPOSSIBLE) as (_ & _ & H).
  apply H. intros m. split; [discriminate | reflexivity].
Defined.

(* ================================================================== *)
(** * Further properties of the note loop *)

(** ** Spawning *)

Lemma spawn_spec (pending : list NoteData) (ahead now : Q) (r : Scene.Refs) :
  exists c,
    (c <= length pending)%nat
    /\ Scene.spawn pending ahead now r
       = Scene.mkRefs (Scene.notesState r)
                      (Scene.activeNotes r ++ seq (Scene.nextNoteIndex r) c)
                      (Scene.nextNoteIndex r + c)
    /\ (forall j n, pending !! j = Some n -> (j < c)%nat ->
                    Num.leb (time n - ahead) now = true)
    /\ (forall n, pending !! c = Some n -> Num.leb (time n - ahead) now = false).
Proof.
  revert r. induction pending as [|n0 rest IH]; intros r.
  - exists 0%nat. simpl. rewrite app_nil_r, Nat.add_0_r.
    destruct r; repeat split; try lia; intros; discriminate.
  - simpl. destruct (Num.leb (time n0 - ahead) now) eqn:E.
    + destruct (IH (Scene.mkRefs (Scene.notesState r)
                                 (Scene.activeNotes r ++ [Scene.nextNoteIndex r])
                                 (S (Scene.nextNoteIndex r)))) as (c & Hc & Es & Hd & Hn).
      exists (S c). split; [lia|]. split; [|split].
      * rewrite Es. simpl. rewrite <- app_assoc. f_equal. lia.
      * intros [|j] n Hj Hlt; simpl in Hj; [congruence|]. apply (Hd j n Hj). lia.
      * intros n Hj. apply (Hn n Hj).
    + exists 0%nat. simpl. rewrite app_nil_r, Nat.add_0_r.
      split; [lia|]. split; [destruct r; reflexivity|]. split.
      * intros j n _ Hlt. lia.
      * intros n Hj. congruence.
Qed.

(** ** The active list and the callbacks of a frame, exactly *)

Section Exact.

Variables (P : Scene.Props) (F : Scene.Frame).

Lemma filter_stays_cons (N : list NoteData) (k : nat) (l : list nat) :
  List.filter (Scene.stays P F N) (k :: l)
  = if Scene.stays P F N k then k :: List.filter (Scene.stays P F N) l
    else List.filter (Scene.stays P F N) l.
Proof. reflexivity. Qed.

Lemma callbacks_cons (N : list NoteData) (k : nat) (l : list nat) :
  Scene.callbacks P F N (k :: l)
  = Scene.callbacks P F N l
      ++ match N !! k ≫= Scene.event_of P F k with Some e => [e] | None => [] end.
Proof.
  unfold Scene.callbacks. rewrite reverse_cons, omap_app. simpl.
  destruct (N !! k ≫= Scene.event_of P F k); reflexivity.
Qed.

Lemma visit_exact (r1 : Scene.Refs) (i : nat) (st : Scene.Refs * list Scene.Event) :
  NoDup (Scene.activeNotes r1) ->
  (i < length (Scene.activeNotes r1))%nat ->
  Scene.loop_inv P F r1 (S i) (drop (S i) (Scene.activeNotes r1)) st ->
  Scene.activeNotes (fst st)
  = take (S i) (Scene.activeNotes r1)
      ++ List.filter (Scene.stays P F (Scene.notesState r1))
                     (drop (S i) (Scene.activeNotes r1)) ->
  snd st = Scene.callbacks P F (Scene.notesState r1) (drop (S i) (Scene.activeNotes r1)) ->
  Scene.activeNotes (fst (Scene.visit P F i st))
  = take i (Scene.activeNotes r1)
      ++ List.filter (Scene.stays P F (Scene.notesState r1))
                     (drop i (Scene.activeNotes r1))
  /\ snd (Scene.visit P F i st)
     = Scene.callbacks P F (Scene.notesState r1) (drop i (Scene.activeNotes r1)).
Proof.
  intros Hnd Hi (Ht & Hn & _ & _) Ha Hl.
  destruct st as [r log]. simpl in Ht, Hn, Ha, Hl.
  set (a := Scene.activeNotes r1) in *. set (N := Scene.notesState r1) in *.
  destruct (lookup_lt_is_Some_2 a i Hi) as [k Ek].
  assert (Hk : k ∉ drop (S i) a).
  { rewrite <- (take_drop_middle a i k Ek) in Hnd.
    apply NoDup_app in Hnd as (_ & _ & Hnd). apply NoDup_cons in Hnd as [Hnd _].
    exact Hnd. }
  assert (Ea : Scene.activeNotes r !! i = Some k).
  { rewrite <- (lookup_take_lt (Scene.activeNotes r) (S i) i) by lia.
    rewrite Ht. rewrite lookup_take_lt by lia. exact Ek. }
  assert (Ed : delete i (Scene.activeNotes r)
               = take i a ++ List.filter (Scene.stays P F N) (drop (S i) a)).
  { rewrite Ha, (take_S_r a i k Ek), <- app_assoc.
    assert (Hlen : length (take i a) = i) by (rewrite length_take; lia).
    pose proof (delete_middle (take i a)
                  (List.filter (Scene.stays P F N) (drop (S i) a)) k) as Hd.
    rewrite Hlen in Hd. exact Hd. }
  assert (Es : Scene.notesState r !! k = N !! k).
  { rewrite Hn. unfold Scene.settled_after.
    rewrite (bool_decide_eq_false_2 _ Hk). destruct (N !! k); reflexivity. }
  rewrite (drop_S a k i Ek), filter_stays_cons, callbacks_cons.
  unfold Scene.visit, Scene.stays. rewrite Ea, Es.
  destruct (N !! k) as [n0|]; simpl.
  2:{ rewrite app_nil_r. split; [|exact Hl].
      rewrite Ha, (take_S_r a i k Ek), <- app_assoc. reflexivity. }
  unfold Scene.event_of.
  destruct (hit n0 || missed n0); simpl.
  { rewrite app_nil_r. split; [|exact Hl].
    rewrite Ha, (take_S_r a i k Ek), <- app_assoc. reflexivity. }
  destruct (Scene.resolve P F n0); simpl.
  - rewrite app_nil_r. split; [|exact Hl].
    rewrite Ha, (take_S_r a i k Ek), <- app_assoc. reflexivity.
  - split; [exact Ed | rewrite Hl; reflexivity].
  - split; [exact Ed | rewrite Hl; reflexivity].
Qed.

Lemma collide_exact (r1 : Scene.Refs) (m : nat) (st : Scene.Refs * list Scene.Event) :
  NoDup (Scene.activeNotes r1) ->
  (m <= length (Scene.activeNotes r1))%nat ->
  Scene.loop_inv P F r1 m (drop m (Scene.activeNotes r1)) st ->
  Scene.activeNotes (fst st)
  = take m (Scene.activeNotes r1)
      ++ List.filter (Scene.stays P F (Scene.notesState r1))
                     (drop m (Scene.activeNotes r1)) ->
  snd st = Scene.callbacks P F (Scene.notesState r1) (drop m (Scene.activeNotes r1)) ->
  Scene.activeNotes (fst (Scene.collide P F m st))
  = List.filter (Scene.stays P F (Scene.notesState r1)) (Scene.activeNotes r1)
  /\ snd (Scene.collide P F m st)
     = Scene.callbacks P F (Scene.notesState r1) (Scene.activeNotes r1).
Proof.
  intros Hnd. revert st. induction m as [|i IH]; intros st Hm Hinv Ha Hl; simpl.
  - rewrite drop_0 in *. split; assumption.
  - destruct (visit_exact r1 i st Hnd ltac:(lia) Hinv Ha Hl) as [Ha' Hl'].
    apply IH; [lia | apply visit_inv, Hinv | exact Ha' | exact Hl'].
Qed.

(** A frame of a running game, when the active list holds no reference
    twice: the references the loop resolves leave the list, the others
    stay in order, and the callbacks are those of the resolved references,
    last reference first. *)
Lemma useFrame_exact (r : Scene.Refs) :
  Scene.gameStatus P = PLAYING ->
  Scene.ended F = false ->
  NoDup (Scene.activeNotes (Scene.spawned P F r)) ->
  Scene.activeNotes (fst (Scene.useFrame P F r))
  = List.filter (Scene.stays P F (Scene.notesState r))
                (Scene.activeNotes (Scene.spawned P F r))
  /\ snd (Scene.useFrame P F r)
     = Scene.callbacks P F (Scene.notesState r) (Scene.activeNotes (Scene.spawned P F r))
  /\ Scene.nextNoteIndex (fst (Scene.useFrame P F r))
     = Scene.nextNoteIndex (Scene.spawned P F r).
Proof.
  intros Hp He Hnd. unfold Scene.useFrame. rewrite Hp, He.
  set (r1 := Scene.spawned P F r) in *.
  assert (En : Scene.notesState r1 = Scene.notesState r) by apply spawn_notesState.
  rewrite <- En.
  destruct (collide_exact r1 (length (Scene.activeNotes r1)) (r1, []) Hnd
              ltac:(lia) (loop_inv_start P F r1)) as [Ha Hl].
  - simpl. rewrite drop_ge, take_ge by lia. rewrite app_nil_r. reflexivity.
  - simpl. rewrite drop_ge by lia. reflexivity.
  - split; [exact Ha|]. split; [exact Hl|].
    destruct (collide_inv P F r1 _ _ (loop_inv_start P F r1)) as (_ & _ & _ & Hx).
    exact Hx.
Qed.

End Exact.

(** ** The life cycle of the notes *)

Lemma spawned_spec (P : Scene.Props) (F : Scene.Frame) (r : Scene.Refs) :
  exists c,
    (c <= length (Scene.notesState r) - Scene.nextNoteIndex r)%nat
    /\ Scene.spawned P F r
       = Scene.mkRefs (Scene.notesState r)
                      (Scene.activeNotes r ++ seq (Scene.nextNoteIndex r) c)
                      (Scene.nextNoteIndex r + c)
    /\ (forall k n, Scene.notesState r !! k = Some n ->
                    (Scene.nextNoteIndex r <= k < Scene.nextNoteIndex r + c)%nat ->
                    Scene.due P F n = true)
    /\ (forall n, Scene.notesState r !! (Scene.nextNoteIndex r + c)%nat = Some n ->
                  Scene.due P F n = false).
Proof.
  unfold Scene.spawned, Scene.due.
  destruct (spawn_spec (drop (Scene.nextNoteIndex r) (Scene.notesState r))
                       (Num.abs (SPAWN_Z - PLAYER_Z) / Scene.noteSpeed P)
                       (Scene.currentTime F) r) as (c & Hc & Es & Hd & Hn).
  exists c. rewrite length_drop in Hc. split; [exact Hc|]. split; [exact Es|]. split.
  - intros k n Hk [H1 H2]. apply (Hd (k - Scene.nextNoteIndex r)%nat); [|lia].
    rewrite lookup_drop. rewrite <- Hk. f_equal. lia.
  - intros n Hk. apply Hn. rewrite lookup_drop. exact Hk.
Qed.

Lemma useFrame_length (P : Scene.Props) (F : Scene.Frame) (r : Scene.Refs) :
  length (Scene.notesState (fst (Scene.useFrame P F r))) = length (Scene.notesState r).
Proof.
  assert (H : forall k, is_Some (Scene.notesState (fst (Scene.useFrame P F r)) !! k)
                        <-> is_Some (Scene.notesState r !! k)).
  { intros k. destruct (useFrame_note P F r k) as [E|E]; rewrite E; [reflexivity|].
    rewrite fmap_is_Some. reflexivity. }
  set (l1 := Scene.notesState (fst (Scene.useFrame P F r))) in *.
  set (l2 := Scene.notesState r) in *.
  destruct (Nat.lt_trichotomy (length l1) (length l2)) as [Hlt|[Heq|Hlt]];
    [|exact Heq|].
  - apply lookup_lt_is_Some in Hlt. apply H in Hlt.
    apply lookup_lt_is_Some in Hlt. lia.
  - apply lookup_lt_is_Some in Hlt. apply H in Hlt.
    apply lookup_lt_is_Some in Hlt. lia.
Qed.

Lemma filter_NoDup (f : nat -> bool) (l : list nat) :
  NoDup l -> NoDup (List.filter f l).
Proof.
  induction 1 as [|k l Hk _ IH]; simpl; [constructor|].
  destruct (f k); [|exact IH]. constructor; [|exact IH].
  intros Hin. apply Hk. apply list_elem_of_In in Hin.
  apply List.filter_In in Hin as [Hin _]. apply list_elem_of_In, Hin.
Qed.

Lemma elem_of_filter_bool (f : nat -> bool) (l : list nat) (k : nat) :
  k ∈ List.filter f l <-> k ∈ l /\ f k = true.
Proof. rewrite !list_elem_of_In. apply List.filter_In. Qed.

Lemma lifecycle_start (chart : list NoteData) :
  Forall Chart.fresh chart -> Scene.lifecycle (Scene.start chart).
Proof.
  intros Hf. unfold Scene.lifecycle, Scene.start. simpl.
  split; [constructor|]. split; [lia|]. split.
  - intros k Hk. apply elem_of_nil in Hk. contradiction.
  - intros k n Hn. rewrite Forall_forall in Hf.
    destruct (Hf n (list_elem_of_lookup_2 _ _ _ Hn)) as (-> & -> & _).
    split; [intros _; right; lia | reflexivity].
Qed.

Lemma spawned_NoDup (P : Scene.Props) (F : Scene.Frame) (r : Scene.Refs) :
  Scene.lifecycle r -> NoDup (Scene.activeNotes (Scene.spawned P F r)).
Proof.
  intros (Hnd & _ & Hlt & _).
  destruct (spawned_spec P F r) as (c & _ & -> & _). simpl.
  apply NoDup_app. split; [exact Hnd|]. split; [|apply NoDup_seq].
  intros k Hk Hs. apply Hlt in Hk. apply elem_of_seq in Hs. lia.
Qed.

Lemma stays_settle (P : Scene.Props) (F : Scene.Frame) (N : list NoteData)
      (k : nat) (n0 : NoteData) :
  N !! k = Some n0 ->
  hit n0 || missed n0 = false ->
  (hit (Scene.settle P F n0) || missed (Scene.settle P F n0) = false
   <-> Scene.stays P F N k = true).
Proof.
  intros Hk Hu. unfold Scene.stays, Scene.settle, Scene.event_of. rewrite Hk, Hu.
  destruct (Scene.resolve P F n0); simpl.
  - rewrite Hu. split; reflexivity.
  - rewrite orb_true_r. split; discriminate.
  - split; discriminate.
Qed.

Lemma lifecycle_useFrame (P : Scene.Props) (F : Scene.Frame) (r : Scene.Refs) :
  Scene.lifecycle r -> Scene.lifecycle (fst (Scene.useFrame P F r)).
Proof.
  intros L.
  destruct (Scene.gameStatus P) eqn:Hp;
    try (unfold Scene.useFrame; rewrite Hp; exact L).
  destruct (Scene.ended F) eqn:He;
    [unfold Scene.useFrame; rewrite Hp, He; exact L|].
  pose proof (spawned_NoDup P F r L) as Hnd1.
  destruct (useFrame_exact P F r Hp He Hnd1) as (Ha & _ & Hx).
  destruct (useFrame_playing P F r Hp He) as [Hs _].
  pose proof (useFrame_length P F r) as Hlen.
  destruct L as (Hnd & Hle & Hlt & Hu).
  destruct (spawned_spec P F r) as (c & Hc & Es & _).
  rewrite Es in Ha, Hx, Hs, Hnd1. simpl in Ha, Hx, Hs, Hnd1.
  unfold Scene.lifecycle. rewrite Ha, Hx, Hlen.
  split; [apply filter_NoDup, Hnd1|]. split; [lia|]. split.
  - intros k Hk. apply elem_of_filter_bool in Hk as [Hk _].
    apply elem_of_app in Hk as [Hk|Hk]; [apply Hlt in Hk; lia|].
    apply elem_of_seq in Hk. lia.
  - intros k n Hn. rewrite Hs in Hn. unfold Scene.settled_after in Hn.
    destruct (Scene.notesState r !! k) as [n0|] eqn:E0; [|discriminate].
    simpl in Hn. injection Hn as <-.
    rewrite elem_of_filter_bool. specialize (Hu k n0 E0).
    destruct (decide (k ∈ Scene.activeNotes r ++ seq (Scene.nextNoteIndex r) c))
      as [Hin|Hin].
    + rewrite (bool_decide_eq_true_2 _ Hin).
      assert (Hun : hit n0 || missed n0 = false).
      { apply Hu. apply elem_of_app in Hin as [Hin|Hin]; [left; exact Hin|].
        apply elem_of_seq in Hin. right. lia. }
      rewrite (stays_settle P F _ k n0 E0 Hun).
      assert (k < Scene.nextNoteIndex r + c)%nat.
      { apply elem_of_app in Hin as [Hin|Hin]; [apply Hlt in Hin; lia|].
        apply elem_of_seq in Hin. lia. }
      split; [intros Hst; left; split; assumption|].
      intros [[_ Hst]|Hge]; [exact Hst | lia].
    + rewrite (bool_decide_eq_false_2 _ Hin). rewrite Hu.
      rewrite elem_of_app, elem_of_seq in Hin.
      split.
      * intros [Hk|Hk]; [exfalso; apply Hin; left; exact Hk|].
        right. destruct (decide (k < Scene.nextNoteIndex r + c)%nat); [|lia].
        exfalso. apply Hin. right. lia.
      * intros [[Hk _]|Hk]; [|right; lia].
        exfalso. apply Hin. rewrite <- elem_of_seq, <- elem_of_app. exact Hk.
Qed.

Lemma lifecycle_frames (fs : list (Scene.Props * Scene.Frame)) (r : Scene.Refs) :
  Scene.lifecycle r -> Scene.lifecycle (Scene.frames fs r).
Proof.
  unfold Scene.frames. revert r.
  induction fs as [|[P F] fs IH]; intros r L; simpl; [exact L|].
  apply IH, lifecycle_useFrame, L.
Qed.

(** X8: throughout a session on a generated chart, whatever the frames,
    a note is unresolved exactly when it is on the active list or not yet
    spawned; the active list never holds a note twice and only holds
    spawned notes; the spawn index stays within the chart. *)
Theorem note_life_cycle
        (rnd : nat -> Q) (d : Difficulty) (fs : list (Scene.Props * Scene.Frame)) :
  Scene.lifecycle (Scene.frames fs (Scene.start (Chart.generateChart rnd d))).
Proof. apply lifecycle_frames, lifecycle_start, generateChart_fresh. Qed.

(** X9: a frame of a running game, from a state in which the life cycle
    holds: the notes the loop resolves leave the active list and the others
    stay, in order; the callbacks are those of the resolved notes, issued
    from the last active note to the first. *)
Theorem frame_resolves_from_last_to_first
        (P : Scene.Props) (F : Scene.Frame) (r : Scene.Refs) :
  Scene.lifecycle r ->
  Scene.gameStatus P = PLAYING ->
  Scene.ended F = false ->
  Scene.activeNotes (fst (Scene.useFrame P F r))
  = List.filter (Scene.stays P F (Scene.notesState r))
                (Scene.activeNotes (Scene.spawned P F r))
  /\ snd (Scene.useFrame P F r)
     = Scene.callbacks P F (Scene.notesState r) (Scene.activeNotes (Scene.spawned P F r)).
Proof.
  intros L Hp He.
  destruct (useFrame_exact P F r Hp He (spawned_NoDup P F r L)) as (Ha & Hl & _).
  split; assumption.
Qed.

(** Two notes past the miss plane: the one spawned last is reported
    first. *)
Lemma frame_resolves_from_last_to_first_witness :
  snd (Scene.useFrame (Scene.playing saber_default)
                      (Scene.mkFrame 0.6 false Scene.right_hand_on_note)
                      (Scene.start [Scene.sample_note; Scene.sample_gold]))
  = [Scene.OnNoteMiss 1; Scene.OnNoteMiss 0].
Proof.
  destruct (frame_resolves_from_last_to_first
              (Scene.playing saber_default)
              (Scene.mkFrame 0.6 false Scene.right_hand_on_note)
              (Scene.start [Scene.sample_note; Scene.sample_gold])) as [_ H].
  - apply lifecycle_start. repeat constructor.
  - reflexivity.
  - reflexivity.
  - rewrite H. vm_compute. reflexivity.
Defined.

(** ** No note is reported twice *)

Lemma event_of_Some (P : Scene.Props) (F : Scene.Frame) (k : nat) (n : NoteData)
      (e : Scene.Event) :
  Scene.event_of P F k n = Some e ->
  Scene.event_note e = Some k
  /\ hit n || missed n = false
  /\ hit (Scene.settle P F n) || missed (Scene.settle P F n) = true.
Proof.
  unfold Scene.event_of, Scene.settle.
  destruct (hit n || missed n) eqn:E; [discriminate|].
  destruct (Scene.resolve P F n); intros H; inversion H; subst; simpl;
    rewrite ?orb_true_r; repeat split.
Qed.

Lemma callbacks_notes (P : Scene.Props) (F : Scene.Frame) (N : list NoteData)
      (l : list nat) :
  omap Scene.event_note (omap (fun k => N !! k ≫= Scene.event_of P F k) l)
  = List.filter (fun k => negb (Scene.stays P F N k)) l.
Proof.
  induction l as [|k l IH]; [reflexivity|].
  cbn [omap list_omap List.filter]. unfold Scene.stays at 1.
  destruct (N !! k) as [n|]; cbn [mbind option_bind negb]; [|exact IH].
  destruct (Scene.event_of P F k n) as [e|] eqn:E; cbn [negb]; [|exact IH].
  destruct (event_of_Some P F k n e E) as (Hk & _).
  cbn [omap list_omap]. rewrite Hk. f_equal. exact IH.
Qed.

Lemma stays_false (P : Scene.Props) (F : Scene.Frame) (N : list NoteData) (k : nat) :
  Scene.stays P F N k = false ->
  exists n e, N !! k = Some n /\ Scene.event_of P F k n = Some e.
Proof.
  unfold Scene.stays. destruct (N !! k) as [n|]; [|discriminate].
  destruct (Scene.event_of P F k n) as [e|] eqn:E; [|discriminate].
  intros _. exists n, e. split; [reflexivity | exact E].
Qed.

Lemma session_step (P : Scene.Props) (F : Scene.Frame) (r : Scene.Refs)
      (log : list Scene.Event) :
  Scene.lifecycle r ->
  NoDup (omap Scene.event_note log) ->
  (forall k, k ∈ omap Scene.event_note log ->
             exists n, Scene.notesState r !! k = Some n /\ hit n || missed n = true) ->
  NoDup (omap Scene.event_note (log ++ snd (Scene.useFrame P F r)))
  /\ (forall k, k ∈ omap Scene.event_note (log ++ snd (Scene.useFrame P F r)) ->
                exists n, Scene.notesState (fst (Scene.useFrame P F r)) !! k = Some n
                          /\ hit n || missed n = true).
Proof.
  intros L Hnd Hres.
  destruct (Scene.gameStatus P) eqn:Hp;
    try (unfold Scene.useFrame; rewrite Hp; simpl; rewrite app_nil_r;
         split; assumption).
  destruct (Scene.ended F) eqn:He.
  { unfold Scene.useFrame. rewrite Hp, He. simpl. rewrite omap_app. simpl.
    rewrite app_nil_r. split; assumption. }
  pose proof (spawned_NoDup P F r L) as Hnd1.
  destruct (useFrame_exact P F r Hp He Hnd1) as (_ & Hl & _).
  destruct (useFrame_playing P F r Hp He) as [Hs _].
  rewrite Hl. unfold Scene.callbacks. rewrite omap_app, callbacks_notes.
  set (a1 := Scene.activeNotes (Scene.spawned P F r)) in *.
  split.
  - apply NoDup_app. split; [exact Hnd|]. split.
    + intros k Hold Hnew. apply elem_of_filter_bool in Hnew as [_ Hst].
      apply negb_true_iff in Hst.
      destruct (stays_false _ _ _ _ Hst) as (n & e & Hn & Hev).
      destruct (event_of_Some _ _ _ _ _ Hev) as (_ & Hun & _).
      destruct (Hres k Hold) as (n' & Hn' & Hr). congruence.
    + apply filter_NoDup. rewrite reverse_Permutation. exact Hnd1.
  - intros k Hk. rewrite Hs. unfold Scene.settled_after.
    apply elem_of_app in Hk as [Hold|Hnew].
    + destruct (Hres k Hold) as (n & -> & Hr). simpl.
      rewrite (settle_resolved P F n Hr).
      exists n. split; [destruct (bool_decide _); reflexivity | exact Hr].
    + apply elem_of_filter_bool in Hnew as [Hin Hst].
      apply negb_true_iff in Hst. rewrite elem_of_reverse in Hin.
      destruct (stays_false _ _ _ _ Hst) as (n & e & Hn & Hev).
      destruct (event_of_Some _ _ _ _ _ Hev) as (_ & _ & Hr).
      rewrite Hn. simpl. rewrite (bool_decide_eq_true_2 _ Hin).
      exists (Scene.settle P F n). split; [reflexivity | exact Hr].
Qed.

Lemma session_no_repeat (fs : list (Scene.Props * Scene.Frame))
      (st : Scene.Refs * list Scene.Event) :
  Scene.lifecycle (fst st) ->
  NoDup (omap Scene.event_note (snd st)) ->
  (forall k, k ∈ omap Scene.event_note (snd st) ->
             exists n, Scene.notesState (fst st) !! k = Some n
                       /\ hit n || missed n = true) ->
  NoDup (omap Scene.event_note (snd (Scene.session fs st)))
  /\ (forall k, k ∈ omap Scene.event_note (snd (Scene.session fs st)) ->
                exists n, Scene.notesState (fst (Scene.session fs st)) !! k = Some n
                          /\ hit n || missed n = true).
Proof.
  unfold Scene.session. revert st.
  induction fs as [|[P F] fs IH]; intros [r log] L Hnd Hres; simpl in *;
    [split; assumption|].
  destruct (session_step P F r log L Hnd Hres) as [Hnd' Hres'].
  apply IH; simpl; [apply lifecycle_useFrame, L | exact Hnd' | exact Hres'].
Qed.

Lemma session_length (fs : list (Scene.Props * Scene.Frame))
      (st : Scene.Refs * list Scene.Event) :
  length (Scene.notesState (fst (Scene.session fs st)))
  = length (Scene.notesState (fst st)).
Proof.
  unfold Scene.session. revert st.
  induction fs as [|[P F] fs IH]; intros st; simpl; [reflexivity|].
  rewrite IH. simpl. apply useFrame_length.
Qed.

(** X10: in a session on a generated chart, whatever the frames, no note
    is reported twice: the hit and miss callbacks issued over the whole
    session are about pairwise different notes of the chart, each of
    which is resolved in the store at the end. *)
Theorem no_note_reported_twice
        (rnd : nat -> Q) (d : Difficulty) (fs : list (Scene.Props * Scene.Frame)) :
  let st := Scene.session fs (Scene.start (Chart.generateChart rnd d), []) in
  NoDup (omap Scene.event_note (snd st))
  /\ forall k, k ∈ omap Scene.event_note (snd st) ->
               (k < length (Chart.generateChart rnd d))%nat
               /\ exists n, Scene.notesState (fst st) !! k = Some n
                            /\ hit n || missed n = true.
Proof.
  intros st.
  destruct (session_no_repeat fs (Scene.start (Chart.generateChart rnd d), []))
    as [Hnd Hres]; simpl.
  - apply lifecycle_start, generateChart_fresh.
  - constructor.
  - intros k Hk. apply elem_of_nil in Hk. contradiction.
  - split; [exact Hnd|]. intros k Hk.
    destruct (Hres k Hk) as (n & Hn & Hr).
    split; [|exists n; split; assumption].
    apply lookup_lt_Some in Hn. rewrite session_length in Hn. exact Hn.
Qed.

(** ** Spawning at the spawn plane *)

Lemma due_spawn_plane (P : Scene.Props) (F : Scene.Frame) (n : NoteData) :
  0 < Scene.noteSpeed P ->
  (Scene.due P F n = true <-> SPAWN_Z <= Scene.currentZ P F n).
Proof.
  intros Hs. unfold Scene.due, Scene.currentZ. rewrite leb_le.
  assert (HA : Num.abs (SPAWN_Z - PLAYER_Z) == 30) by reflexivity.
  set (q := Num.abs (SPAWN_Z - PLAYER_Z) / Scene.noteSpeed P).
  assert (Hq : q * Scene.noteSpeed P == 30).
  { unfold q. rewrite <- HA. unfold Qdiv. rewrite <- Qmult_assoc.
    rewrite (Qmult_comm (/ _)), Qmult_inv_r, Qmult_1_r; [reflexivity|].
    intros E. rewrite E in Hs. apply (Qlt_irrefl 0 Hs). }
  unfold SPAWN_Z, PLAYER_Z.
  set (s := Scene.noteSpeed P) in *. set (t := time n). set (now := Scene.currentTime F).
  split; intros H; nra.
Qed.

Lemma due_earlier (P : Scene.Props) (F : Scene.Frame) (a b : NoteData) :
  time a <= time b -> Scene.due P F b = true -> Scene.due P F a = true.
Proof.
  unfold Scene.due. rewrite !leb_le. intros Hab Hb.
  set (q := Num.abs (SPAWN_Z - PLAYER_Z) / Scene.noteSpeed P) in *. lra.
Qed.

Lemma spawned_reaches (P : Scene.Props) (F : Scene.Frame) (r : Scene.Refs)
      (k : nat) (n : NoteData) :
  Scene.lifecycle r ->
  Chart.non_decreasing (Scene.notesState r) ->
  Scene.notesState r !! k = Some n ->
  (Scene.nextNoteIndex r <= k)%nat ->
  (k ∈ Scene.activeNotes (Scene.spawned P F r) <-> Scene.due P F n = true).
Proof.
  intros (_ & _ & Hlt & _) Hsorted Hk Hge.
  destruct (spawned_spec P F r) as (c & Hc & -> & Hd & Hn). simpl.
  rewrite elem_of_app, elem_of_seq. split.
  - intros [Hin|Hin]; [apply Hlt in Hin; lia|]. apply (Hd k n Hk Hin).
  - intros Hdue. right. split; [exact Hge|].
    destruct (decide (k < Scene.nextNoteIndex r + c)%nat) as [|Hnot]; [assumption|].
    exfalso.
    assert (Hlen : (Scene.nextNoteIndex r + c < length (Scene.notesState r))%nat).
    { apply lookup_lt_Some in Hk. lia. }
    destruct (lookup_lt_is_Some_2 _ _ Hlen) as [n' Hn'].
    pose proof (Hn n' Hn') as Hnd.
    assert (Ht : time n' <= time n)
      by (apply (Hsorted (Scene.nextNoteIndex r + c)%nat k); [lia|assumption..]).
    rewrite (due_earlier P F n' n Ht Hdue) in Hnd. discriminate.
Qed.

Lemma settle_time (P : Scene.Props) (F : Scene.Frame) (n : NoteData) :
  time (Scene.settle P F n) = time n.
Proof.
  unfold Scene.settle. destruct (hit n || missed n); [reflexivity|].
  destruct (Scene.resolve P F n); reflexivity.
Qed.

Lemma frames_times (fs : list (Scene.Props * Scene.Frame)) (r : Scene.Refs) (k : nat) :
  time <$> Scene.notesState (Scene.frames fs r) !! k = time <$> Scene.notesState r !! k.
Proof.
  unfold Scene.frames. revert r.
  induction fs as [|[P F] fs IH]; intros r; simpl; [reflexivity|].
  rewrite IH. destruct (useFrame_note P F r k) as [E|E]; rewrite E; [reflexivity|].
  destruct (Scene.notesState r !! k); simpl; [|reflexivity].
  rewrite settle_time. reflexivity.
Qed.

Lemma frames_non_decreasing (fs : list (Scene.Props * Scene.Frame)) (r : Scene.Refs) :
  Chart.non_decreasing (Scene.notesState r) ->
  Chart.non_decreasing (Scene.notesState (Scene.frames fs r)).
Proof.
  intros H i j a b Hij Ha Hb.
  pose proof (frames_times fs r i) as Ei. pose proof (frames_times fs r j) as Ej.
  rewrite Ha in Ei. rewrite Hb in Ej.
  destruct (Scene.notesState r !! i) as [a0|] eqn:Ea; [|discriminate].
  destruct (Scene.notesState r !! j) as [b0|] eqn:Eb; [|discriminate].
  simpl in Ei, Ej. injection Ei as ->. injection Ej as ->.
  apply (H i j a0 b0 Hij Ea Eb).
Qed.

(** X11: at any point of a session on a generated chart, a frame with a
    positive note speed puts on the active list exactly those pending
    notes whose position has reached the spawn plane. *)
Theorem notes_spawn_at_the_spawn_plane
        (rnd : nat -> Q) (d : Difficulty) (fs : list (Scene.Props * Scene.Frame))
        (P : Scene.Props) (F : Scene.Frame) (k : nat) (n : NoteData) :
  let r := Scene.frames fs (Scene.start (Chart.generateChart rnd d)) in
  0 < Scene.noteSpeed P ->
  Scene.notesState r !! k = Some n ->
  (Scene.nextNoteIndex r <= k)%nat ->
  (k ∈ Scene.activeNotes (Scene.spawned P F r) <-> SPAWN_Z <= Scene.currentZ P F n).
Proof.
  intros r Hs Hk Hge. rewrite <- (due_spawn_plane P F n Hs).
  apply spawned_reaches; try assumption.
  - apply lifecycle_frames, lifecycle_start, generateChart_fresh.
  - apply frames_non_decreasing. simpl. apply sorted_non_decreasing, sort_sorted.
Qed.

(** At the start of the song, at the EASY speed, the first note of a chart
    (due at beat 4) is already past the spawn plane: the first frame puts
    it on the active list. *)
Lemma notes_spawn_at_the_spawn_plane_witness :
  0%nat ∈ Scene.activeNotes
            (Scene.spawned (Scene.playing saber_default)
                           (Scene.mkFrame 0 false Scene.right_hand_on_note)
                           (Scene.start (Chart.generateChart (fun _ => 0.5) EASY))).
Proof.
  apply (notes_spawn_at_the_spawn_plane
           (fun _ => 0.5) EASY [] (Scene.playing saber_default)
           (Scene.mkFrame 0 false Scene.right_hand_on_note)
           0%nat Chart.sample_easy_note).
  - reflexivity.
  - vm_compute. reflexivity.
  - simpl. lia.
  - vm_compute. discriminate.
Defined.

(** ** Hands *)

Lemma resolve_no_hands (P : Scene.Props) (F : Scene.Frame) (n : NoteData) :
  Scene.left (Scene.hands F) = None ->
  Scene.right (Scene.hands F) = None ->
  forall tier, Scene.resolve P F n <> Scene.Hit tier.
Proof.
  intros Hl Hr tier. unfold Scene.resolve, Scene.correctHandPos, Scene.wrongHandPos.
  destruct (type n); rewrite Hl, Hr; simpl;
    destruct (Num.ltb _ _); try discriminate;
    destruct (Scene.in_hit_window P F n); try discriminate;
    destruct (isGoldStar n); discriminate.
Qed.

Lemma event_of_hit (P : Scene.Props) (F : Scene.Frame) (k k' : nat) (n : NoteData)
      (tier : ScoreTier) :
  Scene.event_of P F k' n = Some (Scene.OnNoteHit k tier) ->
  k' = k /\ hit n || missed n = false /\ Scene.resolve P F n = Scene.Hit tier.
Proof.
  unfold Scene.event_of. destruct (hit n || missed n); [discriminate|].
  destruct (Scene.resolve P F n); intros H; inversion H; subst. repeat split.
Qed.

Lemma event_of_miss (P : Scene.Props) (F : Scene.Frame) (k k' : nat) (n : NoteData) :
  Scene.event_of P F k' n = Some (Scene.OnNoteMiss k) ->
  k' = k /\ hit n || missed n = false /\ Scene.resolve P F n = Scene.Missed.
Proof.
  unfold Scene.event_of. destruct (hit n || missed n); [discriminate|].
  destruct (Scene.resolve P F n); intros H; inversion H; subst. repeat split.
Qed.

(** What a callback of a frame tells: the game is running, and the note
    was unresolved, on the active list, and resolved by the loop body. *)
Lemma useFrame_event (P : Scene.Props) (F : Scene.Frame) (r : Scene.Refs)
      (e : Scene.Event) :
  e ∈ snd (Scene.useFrame P F r) ->
  e <> Scene.OnSongEnd ->
  Scene.gameStatus P = PLAYING /\ Scene.ended F = false
  /\ exists k n0, k ∈ Scene.activeNotes (Scene.spawned P F r)
                  /\ Scene.notesState r !! k = Some n0
                  /\ Scene.event_of P F k n0 = Some e
                  /\ Scene.notesState (fst (Scene.useFrame P F r)) !! k
                     = Some (Scene.settle P F n0).
Proof.
  intros He Hne.
  destruct (Scene.gameStatus P) eqn:Hp;
    try (unfold Scene.useFrame in He; rewrite Hp in He; simpl in He;
         apply elem_of_nil in He; contradiction).
  destruct (Scene.ended F) eqn:Hend.
  { unfold Scene.useFrame in He. rewrite Hp, Hend in He. simpl in He.
    apply list_elem_of_singleton in He. contradiction. }
  split; [reflexivity|]. split; [reflexivity|].
  destruct (useFrame_playing P F r Hp Hend) as [Hs Hev].
  apply Hev in He as (k & n0 & Hin & Hn & Heo).
  exists k, n0. repeat split; try assumption.
  rewrite Hs. unfold Scene.settled_after. rewrite Hn. simpl.
  rewrite (bool_decide_eq_true_2 _ Hin). reflexivity.
Qed.

(** X12: while neither hand is tracked, no frame reports a hit, whatever
    the state of the notes. *)
Theorem no_hands_no_hit
        (P : Scene.Props) (F : Scene.Frame) (r : Scene.Refs) (k : nat) (tier : ScoreTier) :
  Scene.left (Scene.hands F) = None ->
  Scene.right (Scene.hands F) = None ->
  Scene.OnNoteHit k tier ∉ snd (Scene.useFrame P F r).
Proof.
  intros Hl Hr He.
  destruct (useFrame_event P F r _ He ltac:(discriminate))
    as (_ & _ & k' & n0 & _ & _ & Heo & _).
  apply event_of_hit in Heo as (_ & _ & Hres).
  exact (resolve_no_hands P F n0 Hl Hr tier Hres).
Qed.

Lemma no_hands_no_hit_witness :
  Scene.OnNoteHit 0 GOLD_STAR
  ∉ snd (Scene.useFrame (Scene.playing saber_default)
                        (Scene.mkFrame 0 false
                           (Scene.mkHands None None Scene.still Scene.still))
                        (Scene.one_active Scene.sample_gold)).
Proof.
  apply (no_hands_no_hit
           (Scene.playing saber_default)
           (Scene.mkFrame 0 false (Scene.mkHands None None Scene.still Scene.still))
           (Scene.one_active Scene.sample_gold) 0%nat GOLD_STAR); reflexivity.
Defined.

(** ** What is drawn after a frame *)

(** X13: with a note speed above 2.5 and a hit window of at most twice
    the note speed (as for every difficulty and every item of the catalog),
    a note hit in a frame is among the notes drawn at the time of that
    frame, stamped with that time; a note missed in a frame is not drawn
    any more, at any time. *)
Theorem hit_note_drawn_missed_note_not
        (P : Scene.Props) (F : Scene.Frame) (r : Scene.Refs) (k : nat) :
  2.5 < Scene.noteSpeed P ->
  hitWindow (perks (Scene.equippedSaber P)) <= 2 * Scene.noteSpeed P ->
  (forall tier,
      Scene.OnNoteHit k tier ∈ snd (Scene.useFrame P F r) ->
      exists n, Scene.notesState (fst (Scene.useFrame P F r)) !! k = Some n
                /\ hitTime n = Some (Scene.currentTime F)
                /\ n ∈ Scene.visibleNotes (Scene.currentTime F)
                                          (Scene.notesState (fst (Scene.useFrame P F r))))
  /\ (Scene.OnNoteMiss k ∈ snd (Scene.useFrame P F r) ->
      exists n, Scene.notesState (fst (Scene.useFrame P F r)) !! k = Some n
                /\ forall now notes, n ∉ Scene.visibleNotes now notes).
Proof.
  assert (Hvis : forall now notes n,
             n ∈ Scene.visibleNotes now notes <-> n ∈ notes /\ Scene.visible now n = true).
  { intros now notes n. unfold Scene.visibleNotes.
    rewrite !list_elem_of_In. apply List.filter_In. }
  intros Hs Hw. split.
  - intros tier He.
    destruct (useFrame_event P F r _ He ltac:(discriminate))
      as (_ & _ & k' & n0 & _ & _ & Heo & Hst).
    apply event_of_hit in Heo as (-> & Hun & Hres).
    exists (Scene.settle P F n0). split; [exact Hst|].
    rewrite Hvis. split; [|split; [eapply list_elem_of_lookup_2, Hst|]];
      unfold Scene.settle; rewrite Hun, Hres; [reflexivity|].
    apply orb_false_elim in Hun as [_ Hm].
    unfold Scene.visible. cbn [Scene.set_hit missed hit hitTime time].
    rewrite Hm. cbn [negb andb orb].
    assert (Hz : Scene.currentZ P F n0 <= MISS_Z
                 /\ PLAYER_Z - 2.5 * hitWindow (perks (Scene.equippedSaber P))
                    < Scene.currentZ P F n0).
    { unfold Scene.resolve in Hres.
      destruct (Num.ltb MISS_Z (Scene.currentZ P F n0)) eqn:E1; [discriminate|].
      apply ltb_ge in E1. split; [exact E1|].
      unfold Scene.in_hit_window in Hres. cbv zeta in Hres.
      destruct (Num.ltb (PLAYER_Z - 2.5 * hitWindow (perks (Scene.equippedSaber P)))
                        (Scene.currentZ P F n0)) eqn:E2;
        [apply ltb_lt in E2; exact E2 | discriminate]. }
    destruct Hz as [Hz1 Hz2]. unfold Scene.currentZ, MISS_Z, PLAYER_Z in Hz1, Hz2.
    set (s := Scene.noteSpeed P) in *.
    set (w := hitWindow (perks (Scene.equippedSaber P))) in *.
    set (t := time n0) in *. set (now := Scene.currentTime F) in *.
    assert (H1 : Num.ltb (now - now) 0.5 = true) by (apply ltb_lt; lra).
    assert (H2 : Num.ltb (t - now) 5 = true) by (apply ltb_lt; nra).
    assert (H3 : Num.ltb (-2) (t - now) = true) by (apply ltb_lt; nra).
    rewrite H1, H2, H3. reflexivity.
  - intros He.
    destruct (useFrame_event P F r _ He ltac:(discriminate))
      as (_ & _ & k' & n0 & _ & _ & Heo & Hst).
    apply event_of_miss in Heo as (-> & Hun & Hres).
    exists (Scene.settle P F n0). split; [exact Hst|].
    intros now notes. rewrite Hvis. intros [_ Hv]. revert Hv.
    unfold Scene.settle. rewrite Hun, Hres. discriminate.
Qed.

Lemma hit_note_drawn_missed_note_not_witness :
  exists n,
    Scene.notesState
      (fst (Scene.useFrame (Scene.playing saber_default)
                           (Scene.mkFrame 0 false Scene.right_hand_on_gold)
                           (Scene.one_active Scene.sample_gold))) !! 0%nat = Some n
    /\ hitTime n = Some 0
    /\ n ∈ Scene.visibleNotes 0
             (Scene.notesState
                (fst (Scene.useFrame (Scene.playing saber_default)
                                     (Scene.mkFrame 0 false Scene.right_hand_on_gold)
                                     (Scene.one_active Scene.sample_gold)))).
Proof.
  destruct (hit_note_drawn_missed_note_not
              (Scene.playing saber_default)
              (Scene.mkFrame 0 false Scene.right_hand_on_gold)
              (Scene.one_active Scene.sample_gold) 0%nat) as [H _].
  - reflexivity.
  - vm_compute. discriminate.
  - apply (H GOLD_STAR). vm_compute. constructor.
Defined.

(** ** The tier of a cut *)

Lemma precision_gt_closer (d2 d2' hitRadius p : Q) :
  d2 <= d2' ->
  Scene.precision_gt d2' hitRadius p = true ->
  Scene.precision_gt d2 hitRadius p = true.
Proof.
  unfold Scene.precision_gt, Num.sqrt_lt. intros Hd H.
  apply andb_prop in H as [H1 H2]. rewrite H1. simpl.
  apply ltb_lt in H2. apply ltb_lt. lra.
Qed.

(** X14: a more precise cut never earns fewer base points: with the
    saber, the note and the hand velocity fixed, the tier of a cut closer
    to the centre of the note is worth at least as much. *)
Theorem closer_cut_never_scores_less
        (saber : ShopItem) (n : NoteData) (hitRadius : Q) (handVel : Scene.Vector3)
        (cfg : DifficultyConfig) (d2 d2' : Q) :
  d2 <= d2' ->
  fst (fst (App.base_rewards cfg (Scene.cut_tier saber n d2' hitRadius handVel)))
  <= fst (fst (App.base_rewards cfg (Scene.cut_tier saber n d2 hitRadius handVel))).
Proof.
  intros Hd. unfold Scene.cut_tier.
  destruct (Scene.isUltimate saber); [apply Qle_refl|]. cbv zeta.
  destruct (Num.sqrt_lt (Scene.lengthSq handVel) 0.3); [apply Qle_refl|].
  destruct (negb (CutDirection_eqb (cutDirection n) ANY)
            && Scene.angleScore_lt n handVel (-0.2)); [apply Qle_refl|].
  pose proof (precision_gt_closer d2 d2' hitRadius 0.7 Hd) as H7.
  pose proof (precision_gt_closer d2 d2' hitRadius 0.5 Hd) as H5.
  pose proof (precision_gt_closer d2 d2' hitRadius 0.3 Hd) as H3.
  destruct (Scene.precision_gt d2' hitRadius 0.7);
    [rewrite (H7 eq_refl)|];
    (destruct (Scene.precision_gt d2' hitRadius 0.5);
     [rewrite (H5 eq_refl)|]);
    (destruct (Scene.precision_gt d2' hitRadius 0.3);
     [rewrite (H3 eq_refl)|]);
    destruct (Scene.precision_gt d2 hitRadius 0.7);
    destruct (Scene.precision_gt d2 hitRadius 0.5);
    destruct (Scene.precision_gt d2 hitRadius 0.3);
    destruct (Num.sqrt_gt (Scene.lengthSq handVel) 2.0);
    destruct (Scene.angleScore_gt n handVel 0.5);
    destruct (Num.sqrt_gt (Scene.lengthSq handVel) 1.0);
    simpl; discriminate.
Qed.

Lemma closer_cut_never_scores_less_witness :
  fst (fst (App.base_rewards (DIFFICULTY_CONFIG EASY)
              (Scene.cut_tier saber_default Scene.sample_note 1 1.2
                              (Scene.along DOWN 3))))
  <= fst (fst (App.base_rewards (DIFFICULTY_CONFIG EASY)
                 (Scene.cut_tier saber_default Scene.sample_note 0 1.2
                                 (Scene.along DOWN 3)))).
Proof.
  apply (closer_cut_never_scores_less
           saber_default Scene.sample_note 1.2 (Scene.along DOWN 3)
           (DIFFICULTY_CONFIG EASY) 0 1).
  discriminate.
Defined.

(** ** The hit window of the catalog *)

(** X15: for every saber of the catalog but the ultimate one, the hit
    window ends before the miss plane: a note inside the hit window is
    never counted as missed. *)
Theorem catalog_hit_window_before_miss_plane
        (l : Shop.Listing) (P : Scene.Props) (F : Scene.Frame) (n : NoteData) :
  l ∈ Shop.SABER_CATALOG ->
  Scene.isUltimate (Shop.item l) = false ->
  Scene.equippedSaber P = Shop.item l ->
  Scene.in_hit_window P F n = true ->
  Scene.currentZ P F n < MISS_Z /\ Scene.resolve P F n <> Scene.Missed.
Proof.
  intros Hl Hu He Hw.
  assert (Hh : hitWindow (perks (Shop.item l)) <= 1.4).
  { unfold Shop.SABER_CATALOG in Hl.
    repeat (apply elem_of_cons in Hl as [->|Hl]; [try discriminate|]).
    - apply elem_of_nil in Hl. contradiction. }
  assert (Hz : Scene.currentZ P F n < MISS_Z).
  { unfold Scene.in_hit_window in Hw. cbv zeta in Hw. rewrite He in Hw.
    apply andb_prop in Hw as [_ Hw]. apply ltb_lt in Hw.
    unfold MISS_Z, PLAYER_Z in *. lra. }
  split; [exact Hz|].
  unfold Scene.resolve.
  assert (E : Num.ltb MISS_Z (Scene.currentZ P F n) = false)
    by (apply ltb_ge; lra).
  rewrite E. destruct (Scene.in_hit_window P F n); [|discriminate].
  cbv zeta. destruct (isGoldStar n).
  - destruct (_ || _); discriminate.
  - destruct (Scene.reaches _ _ _).
    + destruct (Scene.correctHandPos F n) as [h|]; [|discriminate].
      destruct (Scene.distXY2 h n); discriminate.
    + destruct (_ && _); discriminate.
Qed.

Lemma catalog_hit_window_before_miss_plane_witness :
  Scene.resolve (Scene.playing saber_celestial)
                (Scene.mkFrame 0 false Scene.right_hand_on_note) Scene.sample_note
  <> Scene.Missed.
Proof.
  apply (catalog_hit_window_before_miss_plane
           (Shop.mkListing saber_celestial 20000)
           (Scene.playing saber_celestial)
           (Scene.mkFrame 0 false Scene.right_hand_on_note) Scene.sample_note).
  - unfold Shop.SABER_CATALOG. rewrite !elem_of_cons. do 18 right. left. reflexivity.
  - reflexivity.
  - reflexivity.
  - reflexivity.
Defined.

(* ================================================================== *)
(** * Further properties of the hand tracker *)

(** ** The hand tracker *)

Lemma Qmax_case_le (a b : Q) : (a <= b /\ Qmax a b == b) \/ (b <= a /\ Qmax a b == a).
Proof.
  destruct (Qlt_le_dec a b) as [H|H].
  - left. split; [lra|]. apply Q.max_r. lra.
  - right. split; [exact H|]. apply Q.max_l. exact H.
Qed.

(** X16: a fingertip anywhere in the camera image is mapped into the box
    x in [-2.5, 2.5], y in [0.1, 2.55], z in [-0.51, 0] of the game
    world, mirrored: the left edge of the image is the right edge of the
    box. *)
Theorem mapHandToWorld_range (x y : Q) :
  0 <= x <= 1 -> 0 <= y <= 1 ->
  let v := Tracker.mapHandToWorld x y in
  Scene.x v == 2.5 - 5 * x
  /\ (-2.5 <= Scene.x v /\ Scene.x v <= 2.5)
  /\ (0.1 <= Scene.y v /\ Scene.y v <= 2.55)
  /\ (-0.51 <= Scene.z v /\ Scene.z v <= 0).
Proof.
  intros Hx Hy. unfold Tracker.mapHandToWorld. cbv zeta. cbn [Scene.x Scene.y Scene.z].
  set (wy := (1.0 - y) * 3.5 - 3.5 / 2 + 0.8).
  assert (Hwy : wy == 2.55 - 3.5 * y) by (unfold wy; field).
  destruct (Qmax_case_le 0.1 wy) as [[H1 E1]|[H1 E1]];
    destruct (Qmax_case_le 0 (wy * 0.2)) as [[H2 E2]|[H2 E2]];
    rewrite E1, E2; repeat split; lra.
Qed.

Lemma mapHandToWorld_range_witness :
  Scene.x (Tracker.mapHandToWorld 0 0.5) == 2.5.
Proof.
  destruct (mapHandToWorld_range 0 0.5) as [H _]; [split; discriminate..|].
  rewrite H. reflexivity.
Defined.

(** X17: every slot of the note grid can be reached: for every lane and
    layer there is a point of the camera image that is mapped onto the
    slot, and a hand at that one point reaches every note of the slot for
    every positive hit radius. *)
Theorem every_slot_reachable (lane layer : nat) :
  (lane < 4)%nat -> (layer < 3)%nat ->
  exists x y nx ny,
    (0 <= x <= 1) /\ (0 <= y <= 1)
    /\ LANE_X_POSITIONS !! lane = Some nx
    /\ LAYER_Y_POSITIONS !! layer = Some ny
    /\ Scene.x (Tracker.mapHandToWorld x y) == nx
    /\ Scene.y (Tracker.mapHandToWorld x y) == ny
    /\ forall (n : NoteData) (hitRadius : Q),
         lineIndex n = lane -> lineLayer n = layer -> 0 < hitRadius ->
         Scene.reaches (Some (Tracker.mapHandToWorld x y)) n hitRadius = true.
Proof.
  intros Hl Hy.
  assert (Hz : forall q r, q == 0 -> 0 < r -> Num.sqrt_lt q r = true).
  { intros q r Hq Hr. unfold Num.sqrt_lt.
    assert (E1 : Num.ltb 0 r = true) by (apply ltb_lt; exact Hr).
    assert (E2 : Num.ltb q (r * r) = true) by (apply ltb_lt; nra).
    rewrite E1, E2. reflexivity. }
  destruct lane as [|[|[|[|?]]]]; try lia;
    destruct layer as [|[|[|?]]]; try lia.
  all: match goal with
       | |- context [LANE_X_POSITIONS !! 0%nat] => exists 0.74
       | |- context [LANE_X_POSITIONS !! 1%nat] => exists 0.58
       | |- context [LANE_X_POSITIONS !! 2%nat] => exists 0.42
       | |- context [LANE_X_POSITIONS !! 3%nat] => exists 0.26
       end.
  all: match goal with
       | |- context [LAYER_Y_POSITIONS !! 0%nat] => exists 0.5
       | |- context [LAYER_Y_POSITIONS !! 1%nat] => exists (19 # 70)
       | |- context [LAYER_Y_POSITIONS !! 2%nat] => exists (3 # 70)
       end.
  all: eexists; eexists.
  all: split; [split; discriminate|]; split; [split; discriminate|].
  all: split; [reflexivity|]; split; [reflexivity|].
  all: split; [reflexivity|]; split; [reflexivity|].
  all: intros n hitRadius El Ey Hr; unfold Scene.reaches, Scene.distXY2;
    rewrite El, Ey; cbn [lookup list_lookup LANE_X_POSITIONS LAYER_Y_POSITIONS];
    apply Hz; [reflexivity | exact Hr].
Qed.

(** The point (0.58, 19/70) of the image is mapped onto the slot of lane
    1, layer 1, where a hand reaches the sample gold star. *)
Lemma every_slot_reachable_witness :
  exists x y,
    forall hitRadius, 0 < hitRadius ->
      Scene.reaches (Some (Tracker.mapHandToWorld x y)) Scene.sample_gold hitRadius = true.
Proof.
  destruct (every_slot_reachable 1 1) as (x & y & nx & ny & _ & _ & _ & _ & _ & _ & H);
    [lia | lia |].
  exists x, y. intros hitRadius Hr. apply H; [reflexivity | reflexivity | exact Hr].
Defined.

(** ** Detections *)

Lemma scan_None (lms : list (list Tracker.Landmark)) (hs : list (list string)) (i : nat)
      (found : option Scene.Vector3 * option Scene.Vector3) :
  Tracker.scan lms hs i found = None
  <-> exists j hand, lms !! j = Some hand
                     /\ (hs !! (i + j)%nat ≫= head = None \/ hand !! 8%nat = None).
Proof.
  revert i found. induction lms as [|hand rest IH]; intros i found.
  - simpl. split; [discriminate | intros (j & h & Hj & _); discriminate].
  - cbn [Tracker.scan]. split.
    + destruct (hs !! i) as [[|c cs]|] eqn:Eh;
        try (intros _; exists 0%nat, hand; rewrite Nat.add_0_r, Eh;
             split; [reflexivity | left; reflexivity]).
      destruct (hand !! 8%nat) as [tip|] eqn:Et;
        [|intros _; exists 0%nat, hand; split; [reflexivity | right; exact Et]].
      intros H. apply IH in H as (j & h & Hj & Hbad).
      exists (S j), h. split; [exact Hj|].
      replace (i + S j)%nat with (S i + j)%nat by lia. exact Hbad.
    + intros (j & h & Hj & Hbad). destruct j as [|j].
      * simpl in Hj. injection Hj as <-. rewrite Nat.add_0_r in Hbad.
        destruct (hs !! i) as [[|c cs]|]; try reflexivity.
        destruct Hbad as [Hbad|Hbad]; [discriminate|]. rewrite Hbad. reflexivity.
      * simpl in Hj.
        destruct (hs !! i) as [[|c cs]|]; try reflexivity.
        destruct (hand !! 8%nat); [|reflexivity].
        apply IH. exists j, h. split; [exact Hj|].
        replace (S i + j)%nat with (i + S j)%nat by lia. exact Hbad.
Qed.

(** X18: a detection in which some hand comes without a handedness
    category or without landmark 8 makes the loop throw: the positions,
    the last positions and the velocities stay as they were, also for the
    hands read before the faulty one; only the timestamp is updated. *)
Theorem faulty_detection_keeps_hands
        (now : Q) (results : Tracker.Result) (s : Tracker.State)
        (lms : list (list Tracker.Landmark)) (j : nat) (hand : list Tracker.Landmark) :
  Tracker.landmarks results = Some lms ->
  lms !! j = Some hand ->
  Tracker.handedness results !! j ≫= head = None \/ hand !! 8%nat = None ->
  Tracker.processResults now results s
  = Tracker.mkState (Tracker.left s) (Tracker.right s)
                    (Tracker.lastLeft s) (Tracker.lastRight s)
                    (Tracker.leftVelocity s) (Tracker.rightVelocity s) now.
Proof.
  intros Hl Hj Hbad. unfold Tracker.processResults. rewrite Hl.
  assert (E : Tracker.scan lms (Tracker.handedness results) 0 (None, None) = None)
    by (apply scan_None; exists j, hand; split; assumption).
  rewrite E. reflexivity.
Qed.

Lemma faulty_detection_keeps_hands_witness :
  Tracker.hands
    (Tracker.processResults 16
       (Tracker.mkResult
          (Some [repeat (Tracker.mkLandmark 0.5 0.5) 21; [Tracker.mkLandmark 0.5 0.5]])
          [["Left"%string]; ["Right"%string]])
       Tracker.initial)
  = Tracker.hands Tracker.initial.
Proof.
  rewrite (faulty_detection_keeps_hands 16 _ Tracker.initial
             [repeat (Tracker.mkLandmark 0.5 0.5) 21; [Tracker.mkLandmark 0.5 0.5]]
             1%nat [Tracker.mkLandmark 0.5 0.5]).
  - reflexivity.
  - reflexivity.
  - reflexivity.
  - right. reflexivity.
Defined.

(** X19: a detection without hands sets both positions to null and keeps
    the velocities; a frame that reads the hands then reports no hit. *)
Theorem empty_detection_no_hit
        (now : Q) (results : Tracker.Result) (s : Tracker.State) :
  Tracker.landmarks results = None \/ Tracker.landmarks results = Some [] ->
  Tracker.hands (Tracker.processResults now results s)
  = Scene.mkHands None None (Tracker.leftVelocity s) (Tracker.rightVelocity s)
  /\ forall P t e r k tier,
      Scene.OnNoteHit k tier
      ∉ snd (Scene.useFrame P (Scene.mkFrame t e
                                 (Tracker.hands (Tracker.processResults now results s))) r).
Proof.
  intros Hl.
  assert (E : Tracker.hands (Tracker.processResults now results s)
              = Scene.mkHands None None (Tracker.leftVelocity s) (Tracker.rightVelocity s)).
  { unfold Tracker.processResults. destruct Hl as [-> | ->]; reflexivity. }
  split; [exact E|]. rewrite E. intros P t e r k tier He.
  destruct (useFrame_event _ _ _ _ He) as (_ & _ & k' & n0 & _ & _ & Heo & _);
    [discriminate|].
  apply event_of_hit in Heo as (_ & _ & Hres).
  revert Hres. apply resolve_no_hands; reflexivity.
Qed.

Lemma empty_detection_no_hit_witness :
  Tracker.hands (Tracker.processResults 16 (Tracker.mkResult None []) Tracker.initial)
  = Scene.mkHands None None Scene.still Scene.still.
Proof.
  destruct (empty_detection_no_hit 16 (Tracker.mkResult None []) Tracker.initial) as [H _].
  - left. reflexivity.
  - exact H.
Defined.

Lemma lerp_between (a b : Q) :
  a + (b - a) * 0.6 == 0.4 * a + 0.6 * b
  /\ Qmin a b <= a + (b - a) * 0.6 /\ a + (b - a) * 0.6 <= Qmax a b.
Proof.
  split; [ring|].
  destruct (Qlt_le_dec a b) as [H|H].
  - rewrite (Q.min_l a b), (Q.max_r a b) by lra. split; lra.
  - rewrite (Q.min_r a b), (Q.max_l a b) by lra. split; lra.
Qed.

Lemma velocity_times (a b : Q) (dt : Q) : 0 < dt -> (a - b) * (1 / dt) * dt == a - b.
Proof. intros H. field. intros E. rewrite E in H. apply (Qlt_irrefl 0 H). Qed.

Lemma track_tracked (raw p : Scene.Vector3) (last : option Scene.Vector3)
      (vel : Scene.Vector3) (dt : Q) :
  let '(pos', last', vel') := Tracker.track (Some raw) (Some p) last vel dt in
  pos' = Some (Tracker.lerpVectors p raw 0.6)
  /\ last' = Some p
  /\ (0.001 < dt ->
      Scene.x vel' * dt == Scene.x (Tracker.lerpVectors p raw 0.6) - Scene.x p
      /\ Scene.y vel' * dt == Scene.y (Tracker.lerpVectors p raw 0.6) - Scene.y p
      /\ Scene.z vel' * dt == Scene.z (Tracker.lerpVectors p raw 0.6) - Scene.z p)
  /\ (dt <= 0.001 -> vel' = vel).
Proof.
  cbn [Tracker.track]. split; [reflexivity|]. split; [reflexivity|]. split.
  - intros Hdt. assert (E : Num.ltb 0.001 dt = true) by (apply ltb_lt; exact Hdt).
    rewrite E. unfold Tracker.velocity. cbn [Scene.x Scene.y Scene.z].
    assert (0 < dt) by lra.
    repeat split; apply velocity_times; assumption.
  - intros Hdt. assert (E : Num.ltb 0.001 dt = false) by (apply ltb_ge; exact Hdt).
    rewrite E. reflexivity.
Qed.

(** X20: a hand found in two detections in a row: the new position is the
    previous one moved six tenths of the way to the detected point, so it
    lies between the two on each axis; the last position is the previous
    one; when more than a millisecond has passed, the velocity times the
    elapsed time is the displacement; otherwise the velocity is kept. *)
Theorem tracked_hand_is_smoothed
        (now : Q) (results : Tracker.Result) (s : Tracker.State)
        (raw p : Scene.Vector3) (newRight : option Scene.Vector3) :
  Tracker.scan (match Tracker.landmarks results with Some l => l | None => [] end)
               (Tracker.handedness results) 0 (None, None)
  = Some (Some raw, newRight) ->
  Tracker.left s = Some p ->
  let s' := Tracker.processResults now results s in
  let dt := (now - Tracker.lastTimestamp s) / 1000 in
  exists q,
    Tracker.left s' = Some q
    /\ Tracker.lastLeft s' = Some p
    /\ (Scene.x q == 0.4 * Scene.x p + 0.6 * Scene.x raw
        /\ Scene.y q == 0.4 * Scene.y p + 0.6 * Scene.y raw
        /\ Scene.z q == 0.4 * Scene.z p + 0.6 * Scene.z raw)
    /\ (Qmin (Scene.x p) (Scene.x raw) <= Scene.x q
        /\ Scene.x q <= Qmax (Scene.x p) (Scene.x raw))
    /\ (0.001 < dt ->
        Scene.x (Tracker.leftVelocity s') * dt == Scene.x q - Scene.x p
        /\ Scene.y (Tracker.leftVelocity s') * dt == Scene.y q - Scene.y p
        /\ Scene.z (Tracker.leftVelocity s') * dt == Scene.z q - Scene.z p)
    /\ (dt <= 0.001 -> Tracker.leftVelocity s' = Tracker.leftVelocity s).
Proof.
  intros Hscan Hp s' dt. subst s'. unfold Tracker.processResults.
  rewrite Hscan, Hp. fold dt.
  pose proof (track_tracked raw p (Tracker.lastLeft s) (Tracker.leftVelocity s) dt) as H.
  destruct (Tracker.track (Some raw) (Some p) (Tracker.lastLeft s)
                          (Tracker.leftVelocity s) dt) as [[l ll] lv].
  destruct (Tracker.track newRight (Tracker.right s) (Tracker.lastRight s)
                          (Tracker.rightVelocity s) dt) as [[r lr] rv].
  cbn [Tracker.left Tracker.lastLeft Tracker.leftVelocity].
  destruct H as (-> & -> & Hv & Hk).
  exists (Tracker.lerpVectors p raw 0.6).
  split; [reflexivity|]. split; [reflexivity|].
  unfold Tracker.lerpVectors in *. cbn [Scene.x Scene.y Scene.z] in *.
  split; [repeat split; apply lerp_between|].
  split; [apply lerp_between|].
  split; assumption.
Qed.

Lemma tracked_hand_is_smoothed_witness :
  Tracker.left
    (Tracker.processResults 16
       (Tracker.mkResult (Some [repeat (Tracker.mkLandmark 0.5 0.5) 21])
                         [["Left"%string]])
       (Tracker.mkState (Some Scene.still) None None None Scene.still Scene.still 0))
  = Some (Tracker.lerpVectors Scene.still (Tracker.mapHandToWorld 0.5 0.5) 0.6).
Proof.
  destruct (tracked_hand_is_smoothed 16
              (Tracker.mkResult (Some [repeat (Tracker.mkLandmark 0.5 0.5) 21])
                                [["Left"%string]])
              (Tracker.mkState (Some Scene.still) None None None Scene.still Scene.still 0)
              (Tracker.mapHandToWorld 0.5 0.5) Scene.still None)
    as (q & Hq & _); [reflexivity | reflexivity |].
  reflexivity.
Defined.

(* ================================================================== *)
(** * Further properties of the application state *)

(** ** Levels *)

Lemma level_spec (xp : Q) :
  0 <= xp ->
  (1 <= Progress.level xp)%Z
  /\ inject_Z (100 * (Progress.level xp - 1) * (Progress.level xp - 1)) <= xp
  /\ xp < inject_Z (100 * Progress.level xp * Progress.level xp).
Proof.
  intros Hx. unfold Progress.level.
  set (q := xp / 100).
  assert (Hq : xp == q * 100) by (unfold q; field).
  assert (Hq0 : 0 <= q) by lra.
  assert (Hf0 : (0 <= Qfloor q)%Z).
  { change 0%Z with (Qfloor 0). apply Qfloor_resp_le, Hq0. }
  pose proof (Z.sqrt_spec (Qfloor q) Hf0) as [Hs1 Hs2].
  pose proof (Z.sqrt_nonneg (Qfloor q)) as Hs0.
  pose proof (Qfloor_le q) as Hl. pose proof (Qlt_floor q) as Hu.
  set (s := Z.sqrt (Qfloor q)) in *.
  split; [lia|].
  replace (s + 1 - 1)%Z with s by lia.
  assert (H1 : inject_Z (s * s) <= q).
  { apply Qle_trans with (inject_Z (Qfloor q)); [|exact Hl].
    rewrite <- Zle_Qle. exact Hs1. }
  assert (H2 : q < inject_Z ((s + 1) * (s + 1))).
  { apply Qlt_le_trans with (inject_Z (Qfloor q + 1)); [exact Hu|].
    rewrite <- Zle_Qle. unfold Z.succ in Hs2. lia. }
  replace (100 * s * s)%Z with (s * s * 100)%Z by lia.
  replace (100 * (s + 1) * (s + 1))%Z with ((s + 1) * (s + 1) * 100)%Z by lia.
  rewrite !(inject_Z_mult _ 100). change (inject_Z 100) with 100.
  split; lra.
Qed.

Lemma level_mono (a b : Q) : 0 <= a -> a <= b -> (Progress.level a <= Progress.level b)%Z.
Proof.
  intros Ha Hab. unfold Progress.level.
  apply Z.add_le_mono_r, Z.sqrt_le_mono, Qfloor_resp_le.
  unfold Qdiv. apply Qmult_le_compat_r; [exact Hab | discriminate].
Qed.

(** ** Note speed *)

Lemma catalog_hit_window (l : Shop.Listing) :
  l ∈ Shop.SABER_CATALOG -> hitWindow (perks (Shop.item l)) <= 6.
Proof.
  unfold Shop.SABER_CATALOG. intros Hl.
  repeat (apply elem_of_cons in Hl as [->|Hl]; [discriminate|]).
  apply elem_of_nil in Hl. contradiction.
Qed.

(** X22: the speed bonus of the level is between 0 and 8 and reaches 8
    from 25600 experience points on, so that the note speed of a game is
    between the speed of its difficulty and 8 more; it is above 2.5, and
    twice the speed covers the hit window of every item of the catalog. *)
Theorem active_note_speed_range (d : Difficulty) (xp : Q) :
  0 <= xp ->
  (0 <= Progress.levelSpeedBonus xp /\ Progress.levelSpeedBonus xp <= 8)
  /\ (25600 <= xp -> Progress.levelSpeedBonus xp == 8)
  /\ (speed (DIFFICULTY_CONFIG d) <= Progress.activeNoteSpeed d xp
      /\ Progress.activeNoteSpeed d xp <= speed (DIFFICULTY_CONFIG d) + 8)
  /\ 2.5 < Progress.activeNoteSpeed d xp
  /\ forall l, l ∈ Shop.SABER_CATALOG ->
               hitWindow (perks (Shop.item l)) <= 2 * Progress.activeNoteSpeed d xp.
Proof.
  intros Hx. destruct (level_spec xp Hx) as (H1 & _ & H3).
  assert (HL : 1 <= inject_Z (Progress.level xp))
    by (change 1 with (inject_Z 1); rewrite <- Zle_Qle; exact H1).
  assert (Hb : 0 <= Progress.levelSpeedBonus xp /\ Progress.levelSpeedBonus xp <= 8).
  { unfold Progress.levelSpeedBonus. split.
    - apply Q.min_glb; [nra | discriminate].
    - apply Q.le_min_r. }
  assert (Hs : 10 <= speed (DIFFICULTY_CONFIG d)) by (destruct d; discriminate).
  split; [exact Hb|]. split; [|split; [|split]].
  - intros Hbig. unfold Progress.levelSpeedBonus. apply Q.min_r.
    assert (HL17 : (17 <= Progress.level xp)%Z).
    { destruct (Z_lt_le_dec (Progress.level xp) 17) as [Hlt|]; [|assumption].
      exfalso.
      assert (Hc : inject_Z (100 * Progress.level xp * Progress.level xp) <= 25600).
      { change 25600 with (inject_Z 25600). rewrite <- Zle_Qle. nia. }
      lra. }
    assert (17 <= inject_Z (Progress.level xp))
      by (change 17 with (inject_Z 17); rewrite <- Zle_Qle; exact HL17).
    lra.
  - unfold Progress.activeNoteSpeed. split; lra.
  - unfold Progress.activeNoteSpeed. lra.
  - intros l Hl. pose proof (catalog_hit_window l Hl).
    unfold Progress.activeNoteSpeed. lra.
Qed.

Lemma active_note_speed_range_witness :
  Progress.activeNoteSpeed HARD 30000 == 26.
Proof.
  destruct (active_note_speed_range HARD 30000) as (_ & H & _); [discriminate|].
  unfold Progress.activeNoteSpeed. rewrite H; [reflexivity | discriminate].
Defined.

(** ** The numeric state of a game *)

Lemma Qmin_cases (a b : Q) : (a <= b /\ Qmin a b == a) \/ (b <= a /\ Qmin a b == b).
Proof.
  destruct (Qlt_le_dec a b) as [H|H].
  - left. split; [lra|]. apply Q.min_l. lra.
  - right. split; [exact H|]. apply Q.min_r. exact H.
Qed.

Lemma multiplier_for_values (c : Z) :
  App.multiplier_for c == 1 \/ App.multiplier_for c == 2
  \/ App.multiplier_for c == 4 \/ App.multiplier_for c == 8.
Proof.
  unfold App.multiplier_for.
  destruct (30 <? c)%Z; [do 3 right; reflexivity|].
  destruct (20 <? c)%Z; [do 2 right; left; reflexivity|].
  destruct (10 <? c)%Z; [right; left; reflexivity | left; reflexivity].
Qed.

Lemma halved_multiplier (m : Q) :
  m == 1 \/ m == 2 \/ m == 4 \/ m == 8 ->
  Qmax 1 (m / 2) == 1 \/ Qmax 1 (m / 2) == 2 \/ Qmax 1 (m / 2) == 4 \/ Qmax 1 (m / 2) == 8.
Proof.
  assert (Hh : m / 2 == m * 0.5) by field.
  intros H. destruct (Qmax_case_le 1 (m / 2)) as [[Hc ->]|[Hc ->]]; [|left; reflexivity].
  destruct H as [H|[H|[H|H]]]; rewrite Hh, H.
  - lra.
  - left. reflexivity.
  - right. left. reflexivity.
  - right. right. left. reflexivity.
Qed.

Lemma handleNoteHit_in_bounds (R : App.Render) (tier : ScoreTier) (s : App.State) :
  App.in_bounds s -> App.in_bounds (App.handleNoteHit R tier s).
Proof.
  intros (Hh & Hc & Hm). unfold App.in_bounds, App.handleNoteHit.
  cbv zeta. cbn [App.health App.combo App.multiplier].
  split; [|split].
  - destruct (Qmin_cases 100 (Qmax 0 (App.health s + App.healthBonus_of R tier)))
      as [[H1 ->]|[H1 ->]]; [split; discriminate|].
    split; [apply Q.le_max_l | exact H1].
  - destruct (App.keeps_combo tier); lia.
  - destruct (App.keeps_combo tier);
      [apply multiplier_for_values | apply halved_multiplier, Hm].
Qed.

Lemma handleNoteMiss_in_bounds (R : App.Render) (s : App.State) :
  0 <= healthDrain (App.diffConfig R) ->
  App.in_bounds s -> App.in_bounds (App.handleNoteMiss R s).
Proof.
  intros Hd (Hh & Hc & Hm). unfold App.in_bounds, App.handleNoteMiss.
  cbv zeta. cbn [App.health App.combo App.multiplier].
  split; [|split; [lia | left; reflexivity]].
  destruct (Num.leb (App.health s - healthDrain (App.diffConfig R)) 0) eqn:E.
  - split; discriminate.
  - apply leb_gt in E. split; lra.
Qed.

Lemma handle_in_bounds (R : App.Render) (e : Scene.Event) (s : App.State) :
  0 <= healthDrain (App.diffConfig R) ->
  App.in_bounds s -> App.in_bounds (App.handle R e s).
Proof.
  intros Hd Hs. destruct e as [k tier|k|]; simpl.
  - apply handleNoteHit_in_bounds, Hs.
  - apply handleNoteMiss_in_bounds; assumption.
  - exact Hs.
Qed.

Lemma handle_all_in_bounds (R : App.Render) (es : list Scene.Event) (s : App.State) :
  0 <= healthDrain (App.diffConfig R) ->
  App.in_bounds s -> App.in_bounds (App.handle_all R es s).
Proof.
  intros Hd. unfold App.handle_all. revert s.
  induction es as [|e es IH]; intros s Hs; simpl; [exact Hs|].
  apply IH, handle_in_bounds; assumption.
Qed.

Lemma play_in_bounds (item : ShopItem) (cfg : DifficultyConfig)
      (frames : list (list Scene.Event)) (s : App.State) :
  0 <= healthDrain cfg ->
  App.in_bounds s -> App.in_bounds (App.play item cfg frames s).
Proof.
  intros Hd. unfold App.play. revert s.
  induction frames as [|es frames IH]; intros s Hs; simpl; [exact Hs|].
  apply IH, handle_all_in_bounds; assumption.
Qed.

(** X23: from the start of a game and through any sequence of hits,
    misses and song ends, on every difficulty and with every item, the
    health stays within 0 and 100, the combo is not negative, and the
    multiplier is 1, 2, 4 or 8. *)
Theorem game_state_in_bounds
        (item : ShopItem) (d : Difficulty) (frames : list (list Scene.Event))
        (coins0 xp0 : Q) :
  App.in_bounds (App.play item (DIFFICULTY_CONFIG d) frames (App.started coins0 xp0)).
Proof.
  apply play_in_bounds.
  - destruct d; discriminate.
  - unfold App.in_bounds, App.started. simpl.
    split; [split; discriminate|]. split; [lia | left; reflexivity].
Qed.

(** ** What a game can only add to *)

Lemma round_nonneg (x : Q) : 0 <= x -> 0 <= inject_Z (Num.round x).
Proof.
  intros Hx. unfold Num.round. change 0 with (inject_Z 0). rewrite <- Zle_Qle.
  change 0%Z with (Qfloor 0). apply Qfloor_resp_le. lra.
Qed.

Lemma rewards_nonneg (R : App.Render) (tier : ScoreTier) :
  0 <= scoreMult (perks (App.equippedItem R)) ->
  0 <= coinMult (perks (App.equippedItem R)) ->
  0 <= scoreMultiplier (App.diffConfig R) ->
  0 <= App.points_of R tier /\ 0 <= App.coinReward_of R tier.
Proof.
  intros Hs Hc Hd. unfold App.points_of, App.coinReward_of, App.rewards.
  destruct tier; cbn [App.base_rewards];
    try (change (Num.ltb 0 0) with false; cbn [fst snd]; split; discriminate);
    match goal with
    | |- context [Num.ltb 0 ?p] => change (Num.ltb 0 p) with true
    end; cbn [fst snd];
    split; apply round_nonneg; apply Qmult_le_0_compat; try assumption;
    apply Qmult_le_0_compat; try assumption; discriminate.
Qed.

Section Gains.

Variables (item : ShopItem) (cfg : DifficultyConfig).

Hypothesis score_perk : 0 <= scoreMult (perks item).
Hypothesis coin_perk : 0 <= coinMult (perks item).
Hypothesis difficulty_scale : 0 <= scoreMultiplier cfg.

Lemma handle_gains (m : Q) (e : Scene.Event) (s : App.State) :
  0 <= m ->
  App.score s <= App.score (App.handle (App.mkRender m item cfg) e s)
  /\ App.coins s <= App.coins (App.handle (App.mkRender m item cfg) e s)
  /\ App.xp s <= App.xp (App.handle (App.mkRender m item cfg) e s).
Proof.
  intros Hm. destruct e as [k tier|k|]; simpl; try (repeat split; apply Qle_refl).
  destruct (rewards_nonneg (App.mkRender m item cfg) tier score_perk coin_perk
                           difficulty_scale) as [Hp Hc].
  set (p := App.points_of _ tier) in *. set (c := App.coinReward_of _ tier) in *.
  assert (Hd : p / 5 == p * 0.2) by field.
  repeat split; try rewrite Hd; nra.
Qed.

Lemma handle_all_gains (m : Q) (es : list Scene.Event) (s : App.State) :
  0 <= m ->
  App.score s <= App.score (App.handle_all (App.mkRender m item cfg) es s)
  /\ App.coins s <= App.coins (App.handle_all (App.mkRender m item cfg) es s)
  /\ App.xp s <= App.xp (App.handle_all (App.mkRender m item cfg) es s).
Proof.
  intros Hm. unfold App.handle_all. revert s.
  induction es as [|e es IH]; intros s; simpl; [repeat split; apply Qle_refl|].
  destruct (handle_gains m e s Hm) as (H1 & H2 & H3).
  destruct (IH (App.handle (App.mkRender m item cfg) e s)) as (I1 & I2 & I3).
  repeat split; eapply Qle_trans; eassumption.
Qed.

Lemma play_gains (frames : list (list Scene.Event)) (s : App.State) :
  0 <= healthDrain cfg ->
  App.in_bounds s ->
  App.score s <= App.score (App.play item cfg frames s)
  /\ App.coins s <= App.coins (App.play item cfg frames s)
  /\ App.xp s <= App.xp (App.play item cfg frames s).
Proof.
  intros Hd. unfold App.play. revert s.
  induction frames as [|es frames IH]; intros s Hs; simpl;
    [repeat split; apply Qle_refl|].
  assert (Hm : 0 <= App.multiplier s).
  { destruct Hs as (_ & _ & [H|[H|[H|H]]]); rewrite H; discriminate. }
  destruct (handle_all_gains (App.multiplier s) es s Hm) as (H1 & H2 & H3).
  fold (App.render item cfg s) in H1, H2, H3.
  destruct (IH (App.handle_all (App.render item cfg s) es s)) as (I1 & I2 & I3).
  { apply handle_all_in_bounds; assumption. }
  repeat split; eapply Qle_trans; eassumption.
Qed.

End Gains.

(** X24: with every item of the catalog and on every difficulty, a game
    only adds to the score, the coins and the experience, whatever is hit
    or missed, and so the level never goes down while playing. *)
Theorem game_only_adds
        (l : Shop.Listing) (d : Difficulty) (frames : list (list Scene.Event))
        (coins0 xp0 : Q) :
  l ∈ Shop.SABER_CATALOG ->
  0 <= xp0 ->
  let s := App.play (Shop.item l) (DIFFICULTY_CONFIG d) frames (App.started coins0 xp0) in
  0 <= App.score s /\ coins0 <= App.coins s /\ xp0 <= App.xp s
  /\ (Progress.level xp0 <= Progress.level (App.xp s))%Z.
Proof.
  intros Hl Hx s.
  assert (Hperks : 0 <= scoreMult (perks (Shop.item l))
                   /\ 0 <= coinMult (perks (Shop.item l))).
  { unfold Shop.SABER_CATALOG in Hl.
    repeat (apply elem_of_cons in Hl as [->|Hl]; [split; discriminate|]).
    apply elem_of_nil in Hl. contradiction. }
  destruct Hperks as [Hsm Hcm].
  destruct (play_gains (Shop.item l) (DIFFICULTY_CONFIG d) Hsm Hcm
                       ltac:(destruct d; discriminate) frames
                       (App.started coins0 xp0)) as (H1 & H2 & H3).
  - destruct d; discriminate.
  - unfold App.in_bounds, App.started. simpl.
    split; [split; discriminate|]. split; [lia | left; reflexivity].
  - fold s in H1, H2, H3. simpl in H1, H2, H3.
    split; [exact H1|]. split; [exact H2|]. split; [exact H3|].
    apply level_mono; assumption.
Qed.

Lemma game_only_adds_witness :
  (Progress.level 0
   <= Progress.level
        (App.xp (App.play saber_default (DIFFICULTY_CONFIG EASY)
                          [[Scene.OnNoteHit 0 GOLD_STAR]] (App.started 0 0))))%Z.
Proof.
  destruct (game_only_adds (Shop.mkListing saber_default 0) EASY
                           [[Scene.OnNoteHit 0 GOLD_STAR]] 0 0) as (_ & _ & _ & H).
  - unfold Shop.SABER_CATALOG. left.
  - discriminate.
  - exact H.
Defined.

(** ** Misses *)

Lemma failures_app (s : App.State) (ts : list (Q * App.Callback)) (g : GameStatus)
      (sc : Q) (c : Z) (m h co x : Q) (da : bool) :
  (App.failures_scheduled s
   <= App.failures_scheduled (App.mkState g sc c m h co x da (App.timeouts s ++ ts)))%nat.
Proof.
  unfold App.failures_scheduled. cbn [App.timeouts].
  rewrite List.filter_app, length_app. lia.
Qed.

Lemma miss_keeps_failures (R : App.Render) (s : App.State) :
  (App.failures_scheduled s <= App.failures_scheduled (App.handleNoteMiss R s))%nat.
Proof. unfold App.handleNoteMiss. cbv zeta. apply failures_app. Qed.

(** X25: enough misses in a row end the game: with a positive health
    drain, misses whose number times the drain covers the health schedule
    at least one more failure. *)
Theorem misses_schedule_failure (R : App.Render) (ks : list nat) (s : App.State) :
  0 < healthDrain (App.diffConfig R) ->
  ks <> [] ->
  App.health s <= inject_Z (Z.of_nat (length ks)) * healthDrain (App.diffConfig R) ->
  (App.failures_scheduled s
   < App.failures_scheduled (App.handle_all R (map Scene.OnNoteMiss ks) s))%nat.
Proof.
  intros Hd. unfold App.handle_all. revert s.
  induction ks as [|k ks IH]; intros s Hne Hh; [contradiction|].
  cbn [map fold_left App.handle].
  assert (Hmono : forall l s',
             (App.failures_scheduled s'
              <= App.failures_scheduled
                   (fold_left (fun s e => App.handle R e s) (map Scene.OnNoteMiss l) s'))%nat).
  { induction l as [|k' l IHl]; intros s'; simpl; [lia|].
    etransitivity; [apply (miss_keeps_failures R s')|]. apply IHl. }
  destruct (Num.leb (App.health s - healthDrain (App.diffConfig R)) 0) eqn:E.
  - eapply Nat.lt_le_trans; [|apply Hmono].
    unfold App.handleNoteMiss, App.failures_scheduled. cbv zeta. cbn [App.timeouts].
    rewrite E, !List.filter_app, !length_app. simpl. lia.
  - apply leb_gt in E.
    eapply Nat.le_lt_trans; [apply (miss_keeps_failures R s)|].
    apply IH.
    + intros ->. cbn [length] in Hh.
      change (inject_Z (Z.of_nat 1)) with 1 in Hh. lra.
    + unfold App.handleNoteMiss. cbv zeta. cbn [App.health].
      assert (E' : Num.leb (App.health s - healthDrain (App.diffConfig R)) 0 = false)
        by (apply leb_gt; exact E).
      rewrite E'. cbn [length] in Hh. rewrite Nat2Z.inj_succ in Hh.
      unfold Z.succ in Hh. rewrite inject_Z_plus in Hh. change (inject_Z 1) with 1 in Hh.
      lra.
Qed.

(** On IMPOSSIBLE, whose drain is 51, two misses from full health. *)
Lemma misses_schedule_failure_witness :
  (0 < App.failures_scheduled
         (App.handle_all (App.mkRender 1 saber_default (DIFFICULTY_CONFIG IMPOSSIBLE))
                         (map Scene.OnNoteMiss [0%nat; 1%nat]) (App.started 0 0)))%nat.
Proof.
  apply (misses_schedule_failure
           (App.mkRender 1 saber_default (DIFFICULTY_CONFIG IMPOSSIBLE))
           [0%nat; 1%nat] (App.started 0 0)).
  - reflexivity.
  - discriminate.
  - discriminate.
Defined.

(** ** The shop *)

Lemma includes_spec (inventory : list string) (i : string) :
  Shop.includes inventory i = true <-> i ∈ inventory.
Proof.
  unfold Shop.includes. rewrite existsb_exists, list_elem_of_In. split.
  - intros (x & Hx & E). apply String.eqb_eq in E. subst. exact Hx.
  - intros H. exists i. split; [exact H | apply String.eqb_refl].
Qed.

(** X26: a purchase keeps the wallet sound: the coins never go below
    zero, no item is owned twice and the equipped item is owned; an item
    already owned is equipped without being paid for again; an item that
    is neither owned nor affordable changes nothing. *)
Theorem buyItem_keeps_wallet_sound (l : Shop.Listing) (w : Shop.Wallet) :
  Shop.sound w ->
  Shop.sound (Shop.buyItem l w)
  /\ (item_id (Shop.item l) ∈ Shop.inventory w ->
      Shop.buyItem l w
      = Shop.mkWallet (Shop.coins w) (Shop.inventory w) (item_id (Shop.item l)))
  /\ (item_id (Shop.item l) ∉ Shop.inventory w -> Shop.coins w < Shop.price l ->
      Shop.buyItem l w = w)
  /\ (item_id (Shop.item l) ∉ Shop.inventory w -> Shop.price l <= Shop.coins w ->
      Shop.coins (Shop.buyItem l w) = Shop.coins w - Shop.price l
      /\ item_id (Shop.item l) ∈ Shop.inventory (Shop.buyItem l w)
      /\ Shop.equippedSaberId (Shop.buyItem l w) = item_id (Shop.item l)).
Proof.
  intros (Hc & Hn & He). unfold Shop.buyItem.
  destruct (Shop.includes (Shop.inventory w) (item_id (Shop.item l))) eqn:Ei.
  - apply includes_spec in Ei. rewrite andb_false_r.
    split; [|split; [|split]].
    + repeat split; assumption.
    + reflexivity.
    + intros Hnot. contradiction.
    + intros Hnot. contradiction.
  - assert (Hnot : item_id (Shop.item l) ∉ Shop.inventory w).
    { intros H. apply includes_spec in H. congruence. }
    rewrite andb_true_r.
    destruct (Num.leb (Shop.price l) (Shop.coins w)) eqn:Ep.
    + apply leb_le in Ep. split; [|split; [|split]].
      * unfold Shop.sound. simpl. split; [lra|]. split.
        -- apply NoDup_app. split; [exact Hn|]. split; [|apply NoDup_singleton].
           intros x Hx Hx'. apply list_elem_of_singleton in Hx'. subst. contradiction.
        -- apply elem_of_app. right. apply list_elem_of_singleton. reflexivity.
      * intros H. contradiction.
      * intros _ Hlt. lra.
      * intros _ _. simpl. split; [reflexivity|]. split; [|reflexivity].
        apply elem_of_app. right. apply list_elem_of_singleton. reflexivity.
    + apply leb_gt in Ep. split; [|split; [|split]].
      * repeat split; assumption.
      * intros H. contradiction.
      * reflexivity.
      * intros _ Hle. lra.
Qed.

Lemma buyItem_keeps_wallet_sound_witness :
  Shop.sound (Shop.buyItem (Shop.mkListing saber_celestial 20000)
                           (Shop.mkWallet 25000 ["default"%string] "default")).
Proof.
  destruct (buyItem_keeps_wallet_sound
              (Shop.mkListing saber_celestial 20000)
              (Shop.mkWallet 25000 ["default"%string] "default")) as [H _].
  - unfold Shop.sound. simpl. split; [discriminate|]. split.
    + apply NoDup_singleton.
    + apply list_elem_of_singleton. reflexivity.
  - exact H.
Defined.

(** X27: the catalog gives back every item under its own id, the ids of
    the catalog being pairwise different, and the default saber under any
    other id. *)
Theorem equippedItem_by_id :
  (forall l, l ∈ Shop.SABER_CATALOG ->
             Shop.equippedItem (item_id (Shop.item l)) = Shop.item l)
  /\ (forall i, (forall l, l ∈ Shop.SABER_CATALOG -> item_id (Shop.item l) <> i) ->
                Shop.equippedItem i = saber_default).
Proof.
  split.
  - intros l Hl. unfold Shop.SABER_CATALOG in Hl.
    repeat (apply elem_of_cons in Hl as [->|Hl]; [reflexivity|]).
    apply elem_of_nil in Hl. contradiction.
  - intros i Hi. unfold Shop.equippedItem.
    destruct (List.find _ Shop.SABER_CATALOG) as [l|] eqn:E; [|reflexivity].
    apply List.find_some in E as [Hin Heq].
    apply String.eqb_eq in Heq. exfalso.
    apply (Hi l); [apply list_elem_of_In, Hin | exact Heq].
Qed.

Lemma equippedItem_by_id_witness :
  Shop.equippedItem "ultimate_eudin" = saber_ultimate.
Proof.
  destruct equippedItem_by_id as [H _].
  apply (H (Shop.mkListing saber_ultimate 99999)).
  unfold Shop.SABER_CATALOG. rewrite !elem_of_cons. do 20 right. left. reflexivity.
Defined.

(** ** The cheat clicks *)

Lemma clicks_count (n c : nat) (b : bool) (w : Shop.Wallet) :
  (c + n < 18)%nat ->
  Shop.clicks n (Shop.mkCheat c b, w)
  = (Shop.mkCheat (c + n) (if n is O then b else true), w).
Proof.
  unfold Shop.clicks. induction n as [|n IH]; intros Hn.
  - rewrite Nat.add_0_r. reflexivity.
  - rewrite Nat.iter_succ, IH by lia. unfold Shop.handleGlobalClick.
    cbn [fst snd Shop.cheatClicks].
    destruct (18 <=? S (c + n))%nat eqn:E; [apply Nat.leb_le in E; lia|].
    rewrite Nat.add_succ_r. reflexivity.
Qed.

(** X28: the cheat needs 18 clicks in a row: fewer clicks leave the
    wallet as it is; the 18th sets the coins to 9999999 and the inventory
    to the ids of the whole catalog, so that every item of the catalog can
    then be equipped without payment; and a reset in between makes the
    count start again. *)
Theorem cheat_needs_18_clicks (w : Shop.Wallet) (b : bool) :
  (forall n, (n < 18)%nat -> snd (Shop.clicks n (Shop.mkCheat 0 b, w)) = w)
  /\ Shop.clicks 18 (Shop.mkCheat 0 b, w)
     = (Shop.mkCheat 0 false, Shop.mkWallet 9999999 Shop.allIds (Shop.equippedSaberId w))
  /\ (forall l, l ∈ Shop.SABER_CATALOG ->
                Shop.buyItem l (snd (Shop.clicks 18 (Shop.mkCheat 0 b, w)))
                = Shop.mkWallet 9999999 Shop.allIds (item_id (Shop.item l)))
  /\ (forall n m, (0 < n < 18)%nat -> (m < 18)%nat ->
                  snd (Shop.clicks m (Shop.resetFires (Shop.clicks n (Shop.mkCheat 0 b, w))))
                  = w).
Proof.
  assert (H18 : Shop.clicks 18 (Shop.mkCheat 0 b, w)
                = (Shop.mkCheat 0 false,
                   Shop.mkWallet 9999999 Shop.allIds (Shop.equippedSaberId w))).
  { change (Shop.clicks 18 (Shop.mkCheat 0 b, w))
      with (Shop.handleGlobalClick (Shop.clicks 17 (Shop.mkCheat 0 b, w))).
    rewrite clicks_count by lia. reflexivity. }
  split; [|split; [exact H18|split]].
  - intros n Hn. rewrite clicks_count by lia. reflexivity.
  - intros l Hl. rewrite H18. cbn [snd]. unfold Shop.SABER_CATALOG in Hl.
    repeat (apply elem_of_cons in Hl as [->|Hl]; [reflexivity|]).
    apply elem_of_nil in Hl. contradiction.
  - intros n m Hn Hm. rewrite clicks_count by lia.
    destruct n as [|n]; [lia|]. unfold Shop.resetFires. cbn [fst snd Shop.resetPending].
    rewrite clicks_count by lia. reflexivity.
Qed.

Lemma cheat_needs_18_clicks_witness :
  snd (Shop.clicks 17 (Shop.resetFires
                         (Shop.clicks 17 (Shop.mkCheat 0 false, Shop.mkWallet 0 [] "default"))))
  = Shop.mkWallet 0 [] "default".
Proof.
  destruct (cheat_needs_18_clicks (Shop.mkWallet 0 [] "default") false) as (_ & _ & _ & H).
  apply H; lia.
Defined.
